(** * Enterprise database migration: verification of the migration core

    A shallow embedding of the Python sources of the MySQL to PostgreSQL
    migration pipeline (dependency sorter, circular-FK detector, two-pass DDL
    generator, sandbox runner, repair loop, data mover), together with the
    properties the specification states about them.

    Conventions of the embedding:
    - Python [str] is [string]; characters are code points below 256.
    - Python [dict] keeps insertion order: it is a key list plus a [gmap].
    - Python [set] is [gset]; [None] is [option]'s [None].
    - A raised exception is an explicit outcome, never a silent default. *)

From Stdlib Require Import ZArith List Lia Bool Ascii String DecimalString.
From Stdlib.Strings Require Import Byte.
From stdpp Require Import base option list gmap strings fin_maps sorting.

Local Open Scope string_scope.
Local Open Scope Z_scope.
Local Open Scope list_scope.

(** ** Outcomes of Python code: a value, a raised exception, or a loop that
    was cut off by the fuel of the model. *)

Inductive pyexc : Type :=
| KeyError (k : string)
| TypeError
| StructError.

Inductive res (A : Type) : Type :=
| Ok (a : A)
| Raise (e : pyexc)
| OutOfFuel.

Arguments Ok {A} a.
Arguments Raise {A} e.
Arguments OutOfFuel {A}.

Definition res_bind {A B} (m : res A) (k : A -> res B) : res B :=
  match m with
  | Ok a => k a
  | Raise e => Raise e
  | OutOfFuel => OutOfFuel
  end.

Notation "'let*' x ':=' m 'in' k" := (res_bind m (fun x => k))
  (at level 10, x pattern, m at level 100, k at level 200).

Fixpoint foldM {A S} (f : S -> A -> res S) (l : list A) (s : S) : res S :=
  match l with
  | [] => Ok s
  | a :: l' => let* s' := f s a in foldM f l' s'
  end.

(** ** Insertion-ordered dictionaries (Python 3.7+ [dict]) *)

Module PyDict.

Record t (V : Type) : Type := mk { keys : list string; store : gmap string V }.
Arguments mk {V} keys store.
Arguments keys {V} _.
Arguments store {V} _.

Definition empty {V} : t V := mk [] ∅.

(** [k in d] *)
Definition mem {V} (k : string) (d : t V) : bool :=
  bool_decide (is_Some (store d !! k)).

(** [d.get(k)] *)
Definition get {V} (k : string) (d : t V) : option V := store d !! k.

(** [d[k]], raising [KeyError] on a missing key *)
Definition getitem {V} (k : string) (d : t V) : res V :=
  match store d !! k with
  | Some v => Ok v
  | None => Raise (KeyError k)
  end.

(** [d[k] = v]: a present key keeps its position, a new one goes last. *)
Definition set {V} (k : string) (v : V) (d : t V) : t V :=
  if mem k d then mk (keys d) (<[k:=v]> (store d))
  else mk (keys d ++ [k]) (<[k:=v]> (store d)).

(** [d.items()] *)
Definition items {V} (d : t V) : list (string * V) :=
  omap (fun k => (fun v => (k, v)) <$> store d !! k) (keys d).

(** Keys and store agree, and no key is listed twice. *)
Definition wf {V} (d : t V) : Prop :=
  NoDup (keys d) /\ forall k, k ∈ keys d <-> is_Some (store d !! k).

End PyDict.


(** ** Python string operations

    The methods of [str] the sources use, on strings of code points below
    256.  [lower] is [str.lower] there: it folds A-Z and the Latin-1
    capitals (code points 192-214 and 216-222) to the letter 32 further.
    [upper] folds a-z only: the sources use it to compare with ASCII
    keywords and type names.  Whitespace is what [str.isspace] accepts
    below code point 256. *)

Module PyStr.

Definition dquote : string := String (ascii_of_nat 34) EmptyString.
Definition backtick : string := String (ascii_of_nat 96) EmptyString.
Definition newline : string := String (ascii_of_nat 10) EmptyString.

(** [str.isspace] on one character *)
Definition is_space (c : ascii) : bool :=
  let n := nat_of_ascii c in
  ((9 <=? n) && (n <=? 13) || (28 <=? n) && (n <=? 32)
   || (n =? 133) || (n =? 160))%nat.

Definition upper_char (c : ascii) : ascii :=
  let n := nat_of_ascii c in
  if ((97 <=? n) && (n <=? 122))%nat then ascii_of_nat (n - 32) else c.

Definition lower_char (c : ascii) : ascii :=
  let n := nat_of_ascii c in
  if ((65 <=? n) && (n <=? 90) || (192 <=? n) && (n <=? 214)
      || (216 <=? n) && (n <=? 222))%nat
  then ascii_of_nat (n + 32) else c.

Fixpoint map_chars (f : ascii -> ascii) (s : string) : string :=
  match s with
  | EmptyString => EmptyString
  | String c s' => String (f c) (map_chars f s')
  end.

(** [s.upper()], [s.lower()] *)
Definition upper (s : string) : string := map_chars upper_char s.
Definition lower (s : string) : string := map_chars lower_char s.

(** [s.startswith(p)] *)
Definition startswith (p s : string) : bool := String.prefix p s.

(** [s.endswith(suf)]: some tail of [s] is [suf]. *)
Fixpoint endswith (suf s : string) : bool :=
  String.eqb s suf
  || match s with
     | EmptyString => false
     | String _ s' => endswith suf s'
     end.

(** [sub in s] *)
Fixpoint contains (sub s : string) : bool :=
  String.prefix sub s
  || match s with
     | EmptyString => false
     | String _ s' => contains sub s'
     end.

(** [s[n:]] *)
Fixpoint drop (n : nat) (s : string) : string :=
  match n, s with
  | O, _ => s
  | S n', String _ s' => drop n' s'
  | S _, EmptyString => EmptyString
  end.

(** [s[:n]] *)
Fixpoint take (n : nat) (s : string) : string :=
  match n, s with
  | S n', String c s' => String c (take n' s')
  | _, _ => EmptyString
  end.

(** [s[:-n]] for [n > 0] *)
Definition drop_end (n : nat) (s : string) : string :=
  take (String.length s - n) s.

(** [s.lstrip()], [s.rstrip()], [s.strip()] *)
Fixpoint lstrip (s : string) : string :=
  match s with
  | EmptyString => EmptyString
  | String c s' => if is_space c then lstrip s' else s
  end.

Fixpoint rstrip (s : string) : string :=
  match s with
  | EmptyString => EmptyString
  | String c s' =>
      match rstrip s' with
      | EmptyString => if is_space c then EmptyString else String c EmptyString
      | r => String c r
      end
  end.

Definition strip (s : string) : string := rstrip (lstrip s).

(** [s.replace(old, new)] for a non-empty [old]: occurrences are replaced
    left to right without overlap.  [skip] counts the characters of a
    matched occurrence still to be passed over. *)
Fixpoint replace_from (old new : string) (skip : nat) (s : string) : string :=
  match s with
  | EmptyString => EmptyString
  | String c s' =>
      match skip with
      | S k => replace_from old new k s'
      | O =>
          if String.prefix old s
          then new +:+ replace_from old new (String.length old - 1) s'
          else String c (replace_from old new O s')
      end
  end.

(** [s.replace("", new)] puts [new] before every character and at the end. *)
Fixpoint intersperse (new s : string) : string :=
  match s with
  | EmptyString => new
  | String c s' => new +:+ String c (intersperse new s')
  end.

Definition replace (old new s : string) : string :=
  match old with
  | EmptyString => intersperse new s
  | _ => replace_from old new O s
  end.

(** [s.split(sep)[0]] for a one-character [sep]: the text before the first
    separator, or all of [s]. *)
Fixpoint before_char (sep : ascii) (s : string) : string :=
  match s with
  | EmptyString => EmptyString
  | String c s' => if Ascii.eqb c sep then EmptyString else String c (before_char sep s')
  end.

(** [s.split(sep, 1)] for a one-character [sep] that occurs in [s]:
    the texts before and after the first separator. *)
Fixpoint split_once (sep : ascii) (s : string) : option (string * string) :=
  match s with
  | EmptyString => None
  | String c s' =>
      if Ascii.eqb c sep then Some (EmptyString, s')
      else match split_once sep s' with
           | Some (a, b) => Some (String c a, b)
           | None => None
           end
  end.

(** The last character, if any. *)
Fixpoint last_char (s : string) : option ascii :=
  match s with
  | EmptyString => None
  | String c EmptyString => Some c
  | String _ s' => last_char s'
  end.

Definition first_char (s : string) : option ascii :=
  match s with
  | EmptyString => None
  | String c _ => Some c
  end.

(** Every character of [s] passes [p]. *)
Fixpoint all_chars (p : ascii -> bool) (s : string) : bool :=
  match s with
  | EmptyString => true
  | String c s' => p c && all_chars p s'
  end.

(** [sep.join(parts)] *)
Definition join (sep : string) (parts : list string) : string :=
  String.concat sep parts.

(** [f'"{c}"'] *)
Definition quoted (s : string) : string := dquote +:+ s +:+ dquote.

(** [str(x)] of an optional string: [None] prints as ["None"]. *)
Definition str_of_option (s : option string) : string :=
  match s with
  | Some s => s
  | None => "None"
  end.

End PyStr.

(** ** Dependency graph (src/state.py) *)

Record DependencyNode : Type := {
  id : string;
  name : string;
  type : string;
  complexity : string
}.

Record DependencyEdge : Type := {
  from_id : string;
  to_id : string;
  edge_type : string
}.

(** ** DependencyAgent._topological_sort (src/agents/dependency_agent.py) *)

Module DependencyAgent.

Definition sort_state : Type := (PyDict.t (list string) * PyDict.t Z)%type.

(** [graph = {node.id: [] for node in nodes}],
    [in_degree = {node.id: 0 for node in nodes}] *)
Definition init_graph (nodes : list DependencyNode) : PyDict.t (list string) :=
  fold_left (fun d n => PyDict.set (id n) [] d) nodes PyDict.empty.

Definition init_in_degree (nodes : list DependencyNode) : PyDict.t Z :=
  fold_left (fun d n => PyDict.set (id n) 0 d) nodes PyDict.empty.

(** Body of [for edge in edges]. *)
Definition add_edge (st : sort_state) (edge : DependencyEdge) : res sort_state :=
  let '(graph, in_degree) := st in
  if PyDict.mem (from_id edge) graph && PyDict.mem (to_id edge) graph then
    let* targets := PyDict.getitem (to_id edge) graph in
    let graph' := PyDict.set (to_id edge) (targets ++ [from_id edge]) graph in
    let* d := PyDict.getitem (from_id edge) in_degree in
    Ok (graph', PyDict.set (from_id edge) (d + 1) in_degree)
  else Ok st.

(** Body of [for dependent in graph.get(node_id, [])]. *)
Definition visit_dependent (st : PyDict.t Z * list string) (dependent : string)
  : res (PyDict.t Z * list string) :=
  let '(in_degree, queue) := st in
  let* d := PyDict.getitem dependent in_degree in
  let in_degree' := PyDict.set dependent (d - 1) in_degree in
  let* d' := PyDict.getitem dependent in_degree' in
  Ok (in_degree', if d' =? 0 then queue ++ [dependent] else queue).

(** [while queue: ...]; one unit of fuel per dequeued node. *)
Fixpoint kahn_loop (fuel : nat) (graph : PyDict.t (list string))
    (in_degree : PyDict.t Z) (queue result : list string)
  : res (PyDict.t Z * list string) :=
  match queue with
  | [] => Ok (in_degree, result)
  | node_id :: queue' =>
      match fuel with
      | O => OutOfFuel
      | S fuel' =>
          let result' := result ++ [node_id] in
          let* (in_degree', queue'') :=
            foldM visit_dependent (default [] (PyDict.get node_id graph))
                  (in_degree, queue') in
          kahn_loop fuel' graph in_degree' queue'' result'
      end
  end.

(** [[node_id for node_id, degree in in_degree.items() if degree == 0]] *)
Definition zero_degree (in_degree : PyDict.t Z) : list string :=
  omap (fun kv : string * Z => if kv.2 =? 0 then Some kv.1 else None)
       (PyDict.items in_degree).

(** The part of the result produced by the queue, before the left-over
    nodes are appended. *)
Definition sort_core (nodes : list DependencyNode) (edges : list DependencyEdge)
  : res (PyDict.t Z * list string) :=
  let* (graph, in_degree) :=
    foldM add_edge edges (init_graph nodes, init_in_degree nodes) in
  let queue := zero_degree in_degree in
  kahn_loop (length nodes) graph in_degree queue [].

Definition remaining_of (in_degree : PyDict.t Z) (result : list string) : list string :=
  filter (fun n => n ∉ result) (PyDict.keys in_degree).

Definition _topological_sort (nodes : list DependencyNode) (edges : list DependencyEdge)
  : res (list string) :=
  let* (in_degree, result) := sort_core nodes edges in
  Ok (result ++ remaining_of in_degree result).

End DependencyAgent.


(** Vocabulary for the order produced by the sort. *)

Module Graph.

(** [l.index(x)], as an option instead of a [ValueError]. *)
Fixpoint index_of (x : string) (l : list string) : option nat :=
  match l with
  | [] => None
  | y :: l' => if decide (x = y) then Some 0%nat else S <$> index_of x l'
  end.

(** [index_of(b) < index_of(a)] *)
Definition precedes (l : list string) (b a : string) : Prop :=
  exists i j, index_of b l = Some i /\ index_of a l = Some j /\ (i < j)%nat.

(** The distinct elements of a list, each at its first occurrence: the
    key order of a dict comprehension over the list. *)
Fixpoint first_occ (l : list string) : list string :=
  match l with
  | [] => []
  | x :: l' => x :: filter (fun y => y <> x) (first_occ l')
  end.

(** An edge the sort takes into account: both ends are node ids. *)
Definition valid (K : list string) (e : DependencyEdge) : Prop :=
  from_id e ∈ K /\ to_id e ∈ K.

#[export] Instance valid_dec K e : Decision (valid K e).
Proof. unfold valid. apply _. Defined.

(** The ids that depend on [x], one per edge into [x], in edge order. *)
Definition deps_of (K : list string) (E : list DependencyEdge) (x : string)
  : list string :=
  from_id <$> filter (fun e => valid K e /\ to_id e = x) E.

(** Number of edges out of [k] whose target is not yet in [done]. *)
Definition pending (K : list string) (E : list DependencyEdge)
    (done : list string) (k : string) : nat :=
  length (filter (fun e => valid K e /\ from_id e = k /\ to_id e ∉ done) E).

Definition occ (k : string) (l : list string) : nat :=
  length (filter (fun y => y = k) l).

(** [chain K E n x]: a walk of [n] edges starts at [x].  A node with
    walks of every length depends, directly or not, on a cycle. *)
Inductive chain (K : list string) (E : list DependencyEdge) : nat -> string -> Prop :=
| chain_O x : chain K E O x
| chain_S n e :
    e ∈ E -> valid K e -> chain K E n (to_id e) -> chain K E (S n) (from_id e).

(** [reach E a b]: [b] is reachable from [a] along one or more edges. *)
Inductive reach (E : list DependencyEdge) : string -> string -> Prop :=
| reach_edge e : e ∈ E -> reach E (from_id e) (to_id e)
| reach_step e c : e ∈ E -> reach E (to_id e) c -> reach E (from_id e) c.

(** An edge is circular when it lies on a cycle of edges. *)
Definition circular (E : list DependencyEdge) (e : DependencyEdge) : Prop :=
  to_id e = from_id e \/ reach E (to_id e) (from_id e).

End Graph.

(** The invariant of the [while queue] loop, for the node ids [K] and the
    edges [E]: [done] is the order built so far. *)
Definition kahn_inv (K : list string) (E : list DependencyEdge)
    (in_degree : PyDict.t Z) (queue done : list string) : Prop :=
  PyDict.wf in_degree
  /\ PyDict.keys in_degree = K
  /\ NoDup (done ++ queue)
  /\ (forall x, x ∈ done ++ queue -> x ∈ K)
  /\ (forall k, k ∈ K ->
        PyDict.store in_degree !! k = Some (Z.of_nat (Graph.pending K E done k)))
  /\ (forall k, k ∈ K -> (k ∈ done ++ queue <-> Graph.pending K E done k = 0%nat))
  /\ (forall e, e ∈ E -> Graph.valid K e -> from_id e ∈ done ->
        Graph.precedes done (to_id e) (from_id e)).

(** ** Schema metadata (src/state.py, src/tools/mysql_introspection.py)

    [TableMetadata] keeps columns, indexes and foreign keys as dictionaries;
    the records below have the keys the introspection writes.  A value the
    introspection may leave as [None] is an [option]. *)

Module Column.
Record t : Type := mk {
  name : string;
  type : string;
  nullable : bool;
  default : option string;
  autoincrement : bool
}.
End Column.

Module Index.
Record t : Type := mk {
  name : option string;
  columns : list string;
  unique : bool
}.
End Index.

Module ForeignKey.
Record t : Type := mk {
  name : option string;
  columns : list string;
  referred_table : option string;
  referred_columns : list string
}.
End ForeignKey.

Module TableMetadata.
Record t : Type := mk {
  name : string;
  columns : list Column.t;
  primary_key : list string;
  indexes : list Index.t;
  foreign_keys : list ForeignKey.t;
  row_count : option Z
}.
End TableMetadata.

(** Python truthiness of an optional string: [None] and [""] are false. *)
Definition truthy (s : option string) : bool :=
  match s with
  | Some EmptyString => false
  | Some _ => true
  | None => false
  end.

(** ** Pipeline state (src/state.py) *)

Inductive MigrationStatus : Type :=
| PENDING | IN_PROGRESS | SUCCESS | FAILED | NEEDS_RETRY.

Module TransformedDDL.
Record t : Type := mk {
  object_name : string;
  object_type : string;
  source_ddl : string;
  target_ddl : string;
  status : MigrationStatus
}.
End TransformedDDL.

Module ConvertedProcedure.
Record t : Type := mk {
  name : string;
  procedure_type : string;
  source_code : string;
  target_code : string;
  status : MigrationStatus
}.
End ConvertedProcedure.

Module SandboxResult.
Record t : Type := mk {
  object_name : string;
  object_type : string;
  executed : bool;
  errors : list string;
  retry_count : Z
}.
End SandboxResult.

(** The fields of [MigrationState] the sandbox, the error fixer and the
    routing functions read or write. *)
Module MigrationState.
Record t : Type := mk {
  migration_order : list string;
  transformed_ddl : list TransformedDDL.t;
  converted_procedures : list ConvertedProcedure.t;
  sandbox_results : list SandboxResult.t;
  current_retry_count : Z;
  sandbox_retry_count : Z
}.

(** [MigrationState()]: every field at its default. *)
Definition initial : t := mk [] [] [] [] 0 0.
End MigrationState.

(** ** BlueprintAgent._detect_circular_fks and is_circular_fk
    (src/agents/blueprint_agent.py) *)

Module BlueprintAgent.

(** [tuple(sorted([a, b]))]: the sort is stable, so the two names swap only
    when the second is strictly smaller. *)
Definition sorted_pair (a b : string) : string * string :=
  if String.ltb b a then (b, a) else (a, b).

(** The inner loop of the first pass: the set of tables [table] references,
    self-references and missing names left out. *)
Definition add_reference (table_name : string) (refs : gset string)
    (fk : ForeignKey.t) : gset string :=
  match ForeignKey.referred_table fk with
  | Some referred =>
      if truthy (Some referred) && negb (String.eqb referred table_name)
      then refs ∪ {[ referred ]}
      else refs
  | None => refs
  end.

Definition references_of (table : TableMetadata.t) : gset string :=
  fold_left (add_reference (TableMetadata.name table))
            (TableMetadata.foreign_keys table) ∅.

(** [fk_graph]: table name to the set of tables it references. *)
Definition build_fk_graph (tables : list TableMetadata.t) : gmap string (gset string) :=
  fold_left (fun g table => <[TableMetadata.name table := references_of table]> g)
            tables ∅.

(** The pairs one entry [table_a, refs] of [fk_graph.items()] contributes. *)
Definition pairs_of (fk_graph : gmap string (gset string))
    (entry : string * gset string) : list (string * string) :=
  let '(table_a, refs) := entry in
  omap (fun table_b =>
          if bool_decide (is_Some (fk_graph !! table_b))
             && bool_decide (table_a ∈ default ∅ (fk_graph !! table_b))
          then Some (sorted_pair table_a table_b)
          else None)
       (elements refs).

Definition _detect_circular_fks (tables : list TableMetadata.t)
  : gset (string * string) :=
  let fk_graph := build_fk_graph tables in
  list_to_set (flat_map (pairs_of fk_graph) (map_to_list fk_graph)).

Definition is_circular_fk (circular_pairs : gset (string * string))
    (table_name ref_table : string) : bool :=
  bool_decide (sorted_pair table_name ref_table ∈ circular_pairs).

(** [a] has a foreign key whose referenced table is [b]. *)
Definition fk_references (tables : list TableMetadata.t) (a b : string) : Prop :=
  exists table fk,
    table ∈ tables /\ TableMetadata.name table = a
    /\ fk ∈ TableMetadata.foreign_keys table
    /\ ForeignKey.referred_table fk = Some b.

End BlueprintAgent.

(** Sakila's [staff] and [store] reference each other; [address] is
    referenced by both. *)
Definition sample_fk (n col ref refcol : string) : ForeignKey.t :=
  ForeignKey.mk (Some n) [col] (Some ref) [refcol].

Definition sample_table (n : string) (idxs : list Index.t) (fks : list ForeignKey.t)
  : TableMetadata.t :=
  TableMetadata.mk n [] [] idxs fks None.

Definition sakila_tables : list TableMetadata.t :=
  [ sample_table "address" [] [];
    sample_table "staff" []
      [ sample_fk "fk_staff_address" "address_id" "address" "address_id";
        sample_fk "fk_staff_store" "store_id" "store" "store_id" ];
    sample_table "store" []
      [ sample_fk "fk_store_staff" "manager_staff_id" "staff" "staff_id";
        sample_fk "fk_store_address" "address_id" "address" "address_id" ] ].

(** ** The sandbox and repair loop (src/graph/workflow.py,
    src/agents/error_fixer_agent.py) *)

Module Workflow.

Inductive node : Type := sandbox | error_fixer | validation.

Definition max_retries : Z := 5.

(** [[r for r in sandbox_results if not r.get("executed", False)]] *)
Definition failures (sandbox_results : list SandboxResult.t) : list SandboxResult.t :=
  List.filter (fun r => negb (SandboxResult.executed r)) sandbox_results.

(** The conditional edge after the sandbox node.  It reads the state and
    returns the name of the next node; it writes nothing. *)
Definition should_continue_after_sandbox (state : MigrationState.t) : node :=
  let sandbox_results := MigrationState.sandbox_results state in
  let retry_count := MigrationState.sandbox_retry_count state in
  match failures sandbox_results with
  | _ :: _ => if retry_count <? max_retries then error_fixer else validation
  | [] => validation
  end.

(** The edge after the error fixer always leads back to the sandbox. *)
Definition should_continue_after_error_fixer (state : MigrationState.t) : node :=
  sandbox.

(** [ErrorFixerAgent.run].  [fix_error] stands for [_fix_error_with_context]: it
    may rewrite the DDL of the failed object (the text comes from the
    language model) and reports whether it did; its failures are caught
    inside it. *)
Section ErrorFixer.
Variable fix_error :
  SandboxResult.t -> list TransformedDDL.t -> list ConvertedProcedure.t ->
  list TransformedDDL.t * list ConvertedProcedure.t * bool.

Definition fix_all (failed_results : list SandboxResult.t)
    (ddl : list TransformedDDL.t) (procs : list ConvertedProcedure.t)
  : list TransformedDDL.t * list ConvertedProcedure.t * Z :=
  fold_left (fun '(ddl, procs, fixes_applied) result =>
               let '(ddl', procs', success) := fix_error result ddl procs in
               (ddl', procs', if success then fixes_applied + 1 else fixes_applied))
            failed_results (ddl, procs, 0).

Definition error_fixer_run (state : MigrationState.t) : MigrationState.t :=
  let retry := MigrationState.sandbox_retry_count state + 1 in
  let failed_results := failures (MigrationState.sandbox_results state) in
  match failed_results with
  | [] =>
      MigrationState.mk (MigrationState.migration_order state)
        (MigrationState.transformed_ddl state)
        (MigrationState.converted_procedures state)
        (MigrationState.sandbox_results state) retry retry
  | _ =>
      let '(ddl, procs, _) :=
        fix_all failed_results (MigrationState.transformed_ddl state)
                (MigrationState.converted_procedures state) in
      MigrationState.mk (MigrationState.migration_order state) ddl procs
        (MigrationState.sandbox_results state) retry retry
  end.
End ErrorFixer.

(** What a sandbox pass leaves in the state: new results and statuses, or,
    when the pass aborts on an exception, the state as it was.  The retry
    counters are not touched. *)
Definition after_sandbox (state : MigrationState.t)
    (ddl : list TransformedDDL.t) (procs : list ConvertedProcedure.t)
    (results : list SandboxResult.t) : MigrationState.t :=
  MigrationState.mk (MigrationState.migration_order state) ddl procs results
    (MigrationState.current_retry_count state)
    (MigrationState.sandbox_retry_count state).

(** One node of the graph runs and its outgoing edge picks the next node.
    The sandbox outcome and the rewritten DDL are chosen by the
    environment. *)
Inductive step : node * MigrationState.t -> node * MigrationState.t -> Prop :=
| step_sandbox state ddl procs results :
    let state' := after_sandbox state ddl procs results in
    step (sandbox, state) (should_continue_after_sandbox state', state')
| step_error_fixer fix_error state :
    let state' := error_fixer_run fix_error state in
    step (error_fixer, state) (should_continue_after_error_fixer state', state').

(** Every run from a configuration reaches the validation node: no run is
    stuck before it and none goes on for ever. *)
Inductive halts : node * MigrationState.t -> Prop :=
| halts_validation state : halts (validation, state)
| halts_step c :
    (exists c', step c c') -> (forall c', step c c' -> halts c') -> halts c.

(** [run n c c']: a run from [c] to [c'] with [n] repair cycles. *)
Inductive run : nat -> node * MigrationState.t -> node * MigrationState.t -> Prop :=
| run_done c : run O c c
| run_sandbox n state c' c'' :
    step (sandbox, state) c' -> run n c' c'' -> run n (sandbox, state) c''
| run_error_fixer n state c' c'' :
    step (error_fixer, state) c' -> run n c' c'' -> run (S n) (error_fixer, state) c''.

Abbreviation count := MigrationState.sandbox_retry_count.

(** A configuration the loop can be in: the counter is within the bound,
    and strictly below it when the fixer is about to run. *)
Definition within_bound (c : node * MigrationState.t) : Prop :=
  count c.2 <= max_retries /\ (c.1 = error_fixer -> count c.2 < max_retries).

(** On arrival at the validation node with failures left, the bound has
    been reached. *)
Definition exhausted (c : node * MigrationState.t) : Prop :=
  c.1 = validation ->
  failures (MigrationState.sandbox_results c.2) <> [] -> max_retries <= count c.2.

End Workflow.

(** A sandbox that fails the same object in every pass. *)
Definition failing_result : SandboxResult.t :=
  SandboxResult.mk "film_list" "view" false ["relation does not exist"] 0.

Definition stuck_state (retries : Z) : MigrationState.t :=
  MigrationState.mk [] [] [] [failing_result] retries retries.

(** ** Table blueprints (src/agents/blueprint_agent.py)

    The JSON object [_create_table_blueprint] writes for a table, with the
    keys the DDL generator reads back. *)

Module BlueprintFK.
Record t : Type := mk {
  name : option string;
  columns : list string;
  references_table : option string;
  references_columns : list string;
  is_deferred : bool
}.
End BlueprintFK.

Module Blueprint.
Record t : Type := mk {
  table_name : string;
  (** the top-level key ["columns"]; the blueprint agent writes the columns
      under ["schema"] instead, so it is empty in what the agent produces *)
  columns : list Column.t;
  schema_columns : list Column.t;
  indexes : list Index.t;
  outgoing : list BlueprintFK.t;
  deferred : list BlueprintFK.t
}.
End Blueprint.

Module BlueprintWriter.
Import BlueprintAgent.

(** [is_circular_fk(table.name, ref_table)] inside
    [_create_table_blueprint]: sorting a name with [None] raises. *)
Definition is_circular_fk_opt (circular_pairs : gset (string * string))
    (table_name : string) (ref_table : option string) : res bool :=
  match ref_table with
  | Some ref => Ok (is_circular_fk circular_pairs table_name ref)
  | None => Raise TypeError
  end.

Definition fk_data (circular_pairs : gset (string * string)) (table_name : string)
    (fk : ForeignKey.t) : res BlueprintFK.t :=
  let* deferred :=
    is_circular_fk_opt circular_pairs table_name (ForeignKey.referred_table fk) in
  Ok (BlueprintFK.mk (ForeignKey.name fk) (ForeignKey.columns fk)
        (ForeignKey.referred_table fk) (ForeignKey.referred_columns fk) deferred).

Fixpoint mapM {A B} (f : A -> res B) (l : list A) : res (list B) :=
  match l with
  | [] => Ok []
  | a :: l' => let* b := f a in let* bs := mapM f l' in Ok (b :: bs)
  end.

Definition _create_table_blueprint (circular_pairs : gset (string * string))
    (table : TableMetadata.t) : res Blueprint.t :=
  let* outgoing_fks :=
    mapM (fk_data circular_pairs (TableMetadata.name table))
         (TableMetadata.foreign_keys table) in
  Ok (Blueprint.mk (TableMetadata.name table) []
        (TableMetadata.columns table) (TableMetadata.indexes table)
        outgoing_fks
        (List.filter BlueprintFK.is_deferred outgoing_fks)).

(** The files [BlueprintAgent.run] leaves in the blueprints directory:
    [{table.name}.blueprint.json] for every table, a later table of the
    same name overwriting the file of an earlier one. *)
Definition write_blueprints (tables : list TableMetadata.t)
  : res (gmap string Blueprint.t) :=
  let circular_pairs := _detect_circular_fks tables in
  foldM (fun files table =>
           let* blueprint := _create_table_blueprint circular_pairs table in
           Ok (<[TableMetadata.name table := blueprint]> files))
        tables ∅.

(** [blueprints_dir.glob("*.blueprint.json")], each file loaded: the
    blueprints in the order of the directory listing, which is some order
    of the files. *)
Definition glob_blueprints (files : gmap string Blueprint.t) : list Blueprint.t :=
  (map_to_list files).*2.

End BlueprintWriter.

(** ** SchemaAgent (src/agents/schema_agent.py) *)

Module SchemaAgent.
Import PyStr.

(** [_clean_sql_output] *)
Definition _clean_sql_output (sql : string) : string :=
  let sql := strip sql in
  let sql :=
    if startswith "```sql" sql then drop 6 sql
    else if startswith "```" sql then drop 3 sql
    else sql in
  let sql := if endswith "```" sql then drop_end 3 sql else sql in
  let sql := strip sql in
  if negb (endswith ";" sql) then sql +:+ ";" else sql.

(** The user prompt of [_llm_convert_table]. *)
Definition table_prompt (table_name metadata_context : string) : string :=
  "Convert the following MySQL table metadata to a PostgreSQL CREATE TABLE statement:"
  +:+ newline +:+ newline +:+ metadata_context +:+ newline +:+ newline
  +:+ "Generate a complete, valid PostgreSQL CREATE TABLE statement for table "
  +:+ quoted table_name +:+ "." +:+ newline
  +:+ "Remember to:" +:+ newline
  +:+ "1. Convert all data types appropriately" +:+ newline
  +:+ "2. Convert AUTO_INCREMENT to SERIAL/BIGSERIAL" +:+ newline
  +:+ "3. Use double quotes for identifiers " +:+ newline
  +:+ "4. Include all constraints (PK, FK, indexes)" +:+ newline +:+ newline
  +:+ "Return ONLY the SQL statement, no explanations.".

Section Pass1.
(** The language model behind [invoke_with_retry]: system prompt and user
    prompt to the text of the answer, or an exception once the retries are
    used up. *)
Variable llm : string -> string -> res string.
Variable SCHEMA_AGENT_SYSTEM_PROMPT : string.

Definition _llm_convert_table (table_name metadata_context : string) : res string :=
  llm SCHEMA_AGENT_SYSTEM_PROMPT (table_prompt table_name metadata_context).

(** Pass 1 for one table, as in [run]: ask the model, clean the answer. *)
Definition create_table_ddl (table_name metadata_context : string) : res string :=
  let* pg_ddl := _llm_convert_table table_name metadata_context in
  Ok (_clean_sql_output pg_ddl).
End Pass1.

(** One iteration of [for fk in outgoing] in [_generate_deferred_fks]. *)
Definition alter_statement (table_name : string) (fk : BlueprintFK.t) : string :=
  let fk_name := BlueprintFK.name fk in
  let columns_sql := join ", " (quoted <$> BlueprintFK.columns fk) in
  let ref_columns_sql := join ", " (quoted <$> BlueprintFK.references_columns fk) in
  "ALTER TABLE " +:+ quoted table_name +:+ " ADD CONSTRAINT "
  +:+ quoted (str_of_option fk_name) +:+ " " +:+ newline
  +:+ "    FOREIGN KEY (" +:+ columns_sql +:+ ") REFERENCES "
  +:+ quoted (str_of_option (BlueprintFK.references_table fk))
  +:+ " (" +:+ ref_columns_sql +:+ ");".

(** [not columns or not ref_table or not ref_columns] *)
Definition fk_incomplete (fk : BlueprintFK.t) : bool :=
  match BlueprintFK.columns fk with [] => true | _ => false end
  || negb (truthy (BlueprintFK.references_table fk))
  || match BlueprintFK.references_columns fk with [] => true | _ => false end.

Definition fk_statements (blueprint : Blueprint.t) : list string :=
  flat_map (fun fk =>
              if fk_incomplete fk then []
              else [alter_statement (Blueprint.table_name blueprint) fk])
           (Blueprint.outgoing blueprint).

(** [_generate_deferred_fks], over the blueprint files in the order the
    directory listing yields them. *)
Definition _generate_deferred_fks (blueprints_dir : list Blueprint.t) : list string :=
  flat_map fk_statements blueprints_dir.

(** The renaming step of [_generate_indexes]. *)
Definition rename_index (table_name idx_name : string) : string :=
  if negb (startswith ("idx_" +:+ table_name) idx_name) then
    if startswith "idx_fk_" idx_name || startswith "idx_" idx_name then
      let col_part := replace "idx_" "" (replace "idx_fk_" "" idx_name) in
      "idx_" +:+ table_name +:+ "_" +:+ col_part
    else idx_name
  else idx_name.

(** [col_type in ["GEOMETRY", "POINT", "NULL"]] for some indexed column *)
Definition needs_gist (columns_info : list Column.t) (idx_columns : list string) : bool :=
  existsb (fun col =>
             match List.find (fun c => String.eqb (Column.name c) col)
                             (rev columns_info) with
             | Some c =>
                 let col_type := upper (Column.type c) in
                 String.eqb col_type "GEOMETRY" || String.eqb col_type "POINT"
                 || String.eqb col_type "NULL"
             | None => false
             end)
          idx_columns.

(** The name and the statement one index yields, if it is not skipped. *)
Definition index_statement (blueprint : Blueprint.t) (idx : Index.t)
  : option (string * string) :=
  let table_name := Blueprint.table_name blueprint in
  let idx_name := default "" (Index.name idx) in
  let idx_columns := Index.columns idx in
  if negb (truthy (Some idx_name)) || match idx_columns with [] => true | _ => false end
  then None
  else
    let idx_name := rename_index table_name idx_name in
    let columns_sql := join ", " (quoted <$> idx_columns) in
    let unique_str := if Index.unique idx then "UNIQUE " else "" in
    Some (idx_name,
          if needs_gist (Blueprint.columns blueprint) idx_columns
          then "CREATE " +:+ unique_str +:+ "INDEX " +:+ quoted idx_name +:+ " ON "
               +:+ quoted table_name +:+ " USING GIST (" +:+ columns_sql +:+ ");"
          else "CREATE " +:+ unique_str +:+ "INDEX " +:+ quoted idx_name +:+ " ON "
               +:+ quoted table_name +:+ " (" +:+ columns_sql +:+ ");").

(** [_generate_indexes], with the name each statement gives its index. *)
Definition _generate_indexes_named (blueprints_dir : list Blueprint.t)
  : list (string * string) :=
  flat_map (fun blueprint =>
              omap (index_statement blueprint) (Blueprint.indexes blueprint))
           blueprints_dir.

Definition _generate_indexes (blueprints_dir : list Blueprint.t) : list string :=
  snd <$> _generate_indexes_named blueprints_dir.

End SchemaAgent.

(** ** The deferred-FK pass as the specification words it

    The specification asks for one [ALTER TABLE ... ADD CONSTRAINT ...
    FOREIGN KEY ...] per foreign key the schema declares.  This is that
    reading, written from the schema alone: the constraint a declared key
    stands for, and the SQL that states it.  Nothing here is taken from
    [SchemaAgent]. *)
Module DeferredFkSpec.
Import PyStr.

(** A foreign-key constraint as SQL states it. *)
Record constraint : Type := mk_constraint {
  on_table : string;
  constraint_name : string;
  key_columns : list string;
  referenced_table : string;
  referenced_columns : list string
}.

(** The constraint a declared key stands for: it needs a column, a
    referenced table with a name, and a referenced column.  A key without
    a name of its own is written with the name [None]. *)
Definition declared (table : TableMetadata.t) (fk : ForeignKey.t) : option constraint :=
  match ForeignKey.columns fk, ForeignKey.referred_table fk,
        ForeignKey.referred_columns fk with
  | c :: cs, Some (String r ref), rc :: rcs =>
      Some (mk_constraint (TableMetadata.name table)
              (match ForeignKey.name fk with Some n => n | None => "None" end)
              (c :: cs) (String r ref) (rc :: rcs))
  | _, _, _ => None
  end.

(** Identifiers in double quotes, separated by a comma and a blank. *)
Fixpoint identifier_list (names : list string) : string :=
  match names with
  | [] => ""
  | [n] => dquote +:+ n +:+ dquote
  | n :: rest => dquote +:+ n +:+ dquote +:+ ", " +:+ identifier_list rest
  end.

(** The statement that adds a constraint. *)
Definition add_constraint_sql (c : constraint) : string :=
  "ALTER TABLE " +:+ dquote +:+ on_table c +:+ dquote
  +:+ " ADD CONSTRAINT " +:+ dquote +:+ constraint_name c +:+ dquote
  +:+ " " +:+ newline
  +:+ "    FOREIGN KEY (" +:+ identifier_list (key_columns c)
  +:+ ") REFERENCES " +:+ dquote +:+ referenced_table c +:+ dquote
  +:+ " (" +:+ identifier_list (referenced_columns c) +:+ ");".

(** The constraints a table declares, and the statements for them. *)
Definition declared_constraints (table : TableMetadata.t) : list constraint :=
  omap (declared table) (TableMetadata.foreign_keys table).

Definition expected_fk_statements (table : TableMetadata.t) : list string :=
  add_constraint_sql <$> declared_constraints table.

End DeferredFkSpec.

(** Sakila's [rental] table: its unique index carries a name without the
    [idx_] prefix. *)
Definition rental_blueprint : Blueprint.t :=
  Blueprint.mk "rental" [] []
    [ Index.mk (Some "rental_date")
               ["rental_date"; "inventory_id"; "customer_id"] true;
      Index.mk (Some "idx_fk_inventory_id") ["inventory_id"] false ]
    [] [].

(** A table whose only foreign key lists no column. *)
Definition columnless_fk_tables : list TableMetadata.t :=
  [ sample_table "city"
      [] [ ForeignKey.mk (Some "fk_city_country") [] (Some "country") ["country_id"] ];
    sample_table "country" [] [] ].

(** ** SQLTransformer.map_type (src/tools/sql_transformer.py) *)

Module SQLTransformer.
Import PyStr.

(** [TYPE_MAPPINGS], in source order. *)
Definition TYPE_MAPPINGS_items : list (string * string) :=
  [ ("TINYINT", "SMALLINT");
    ("TINYINT UNSIGNED", "SMALLINT");
    ("SMALLINT UNSIGNED", "INTEGER");
    ("MEDIUMINT", "INTEGER");
    ("MEDIUMINT UNSIGNED", "INTEGER");
    ("INT", "INTEGER");
    ("INT UNSIGNED", "BIGINT");
    ("INTEGER", "INTEGER");
    ("INTEGER UNSIGNED", "BIGINT");
    ("BIGINT", "BIGINT");
    ("BIGINT UNSIGNED", "NUMERIC(20)");
    ("FLOAT", "REAL");
    ("DOUBLE", "DOUBLE PRECISION");
    ("DOUBLE PRECISION", "DOUBLE PRECISION");
    ("DECIMAL", "NUMERIC");
    ("TINYTEXT", "TEXT");
    ("TEXT", "TEXT");
    ("MEDIUMTEXT", "TEXT");
    ("LONGTEXT", "TEXT");
    ("TINYBLOB", "BYTEA");
    ("BLOB", "BYTEA");
    ("MEDIUMBLOB", "BYTEA");
    ("LONGBLOB", "BYTEA");
    ("BINARY", "BYTEA");
    ("VARBINARY", "BYTEA");
    ("DATETIME", "TIMESTAMP");
    ("TIMESTAMP", "TIMESTAMP");
    ("DATE", "DATE");
    ("TIME", "TIME");
    ("YEAR", "SMALLINT");
    ("TINYINT(1)", "BOOLEAN");
    ("BIT", "BOOLEAN");
    ("BIT(1)", "BOOLEAN");
    ("JSON", "JSONB");
    ("GEOMETRY", "GEOMETRY");
    ("POINT", "POINT") ].

Definition TYPE_MAPPINGS : gmap string string := list_to_map TYPE_MAPPINGS_items.

(** [base_type in ("VARCHAR", "CHAR", "DECIMAL", "NUMERIC")] *)
Definition keeps_size (base_type : string) : bool :=
  String.eqb base_type "VARCHAR" || String.eqb base_type "CHAR"
  || String.eqb base_type "DECIMAL" || String.eqb base_type "NUMERIC".

Definition map_type (mysql_type : string) : string :=
  let mysql_type_upper := strip (upper mysql_type) in
  match TYPE_MAPPINGS !! mysql_type_upper with
  | Some pg => pg
  | None =>
      let base_type := strip (before_char "(" mysql_type_upper) in
      match TYPE_MAPPINGS !! base_type with
      | Some pg =>
          if keeps_size base_type then
            let size_part := drop (String.length base_type) mysql_type in
            pg +:+ size_part
          else pg
      | None =>
          if startswith "ENUM" mysql_type_upper then "TEXT"
          else if startswith "SET" mysql_type_upper then "TEXT[]"
          else mysql_type
      end
  end.

End SQLTransformer.

(** ** Binary doubles and their printed form

    [struct.unpack('<d', ...)] and the [str] of a float, as CPython
    defines them: an IEEE-754 binary64 value is decoded from its bit
    pattern, and printed with the shortest digit string that reads back
    as the same value. *)

Module PyFloat.
Import PyStr.

Inductive t : Type :=
| Finite (negative : bool) (mantissa exponent : Z)  (** [mantissa * 2^exponent] *)
| Zero (negative : bool)
| Inf (negative : bool)
| NaN.

(** The value of a little-endian byte string as an unsigned integer. *)
Fixpoint le_uint (bs : list byte) : Z :=
  match bs with
  | [] => 0
  | b :: bs' => Z.of_N (Byte.to_N b) + 256 * le_uint bs'
  end.

(** Sign bit 63, biased exponent in bits 52..62, fraction in bits 0..51. *)
Definition decode (bits : Z) : t :=
  let negative := Z.testbit bits 63 in
  let biased := Z.land (Z.shiftr bits 52) 2047 in
  let fraction := Z.land bits (Z.ones 52) in
  if biased =? 2047 then (if fraction =? 0 then Inf negative else NaN)
  else if biased =? 0 then
    (if fraction =? 0 then Zero negative else Finite negative fraction (-1074))
  else Finite negative (fraction + 2 ^ 52) (biased - 1075).

(** [struct.unpack('<d', bs)[0]]: exactly eight bytes, or [struct.error]. *)
Definition unpack_le_double (bs : list byte) : res t :=
  if (length bs =? 8)%nat then Ok (decode (le_uint bs)) else Raise StructError.

(** *** Shortest digits

    All quantities are integers over the common denominator [D]: the value
    [Vn / D], the lower and upper ends [Ln / D] and [Hn / D] of the interval
    of reals that round to it. *)
Record interval : Type := {
  Vn : Z; Ln : Z; Hn : Z; D : Z;
  inclusive : bool   (** ties go to the even mantissa *)
}.

Definition rounding_interval (m e : Z) : interval :=
  let E := e - 2 in
  let P := 2 ^ Z.max E 0 in
  let narrow := (m =? 2 ^ 52) && (-1074 <? e) in
  {| Vn := 4 * m * P;
     Ln := (if narrow then 4 * m - 1 else 4 * m - 2) * P;
     Hn := (4 * m + 2) * P;
     D := 2 ^ Z.max (- E) 0;
     inclusive := Z.even m |}.

(** [Vn / D < 10^k] *)
Definition below_pow10 (i : interval) (k : Z) : bool :=
  if 0 <=? k then Vn i <? 10 ^ k * D i else Vn i * 10 ^ (- k) <? D i.

(** The least [k] from [k0] on with [Vn / D < 10^k]. *)
Fixpoint find_decpt (fuel : nat) (i : interval) (k : Z) : Z :=
  match fuel with
  | O => k
  | S fuel' => if below_pow10 i k then k else find_decpt fuel' i (k + 1)
  end.

(** The [n]-digit decimal nearest to the value among those inside the
    interval, as an integer [d] meaning [d * 10^(decpt - n)]. *)
Definition candidate (i : interval) (decpt n : Z) : option Z :=
  let up := 10 ^ Z.max (n - decpt) 0 in
  let B := D i * 10 ^ Z.max (decpt - n) 0 in
  let A := Vn i * up in
  let LA := Ln i * up in
  let HA := Hn i * up in
  let inside d :=
    let c := d * B in
    if inclusive i then (LA <=? c) && (c <=? HA) else (LA <? c) && (c <? HA) in
  let d_lo := A / B in
  let d_hi := d_lo + 1 in
  match inside d_lo, inside d_hi with
  | true, true =>
      let below := A - d_lo * B in
      let above := d_hi * B - A in
      if below <? above then Some d_lo
      else if above <? below then Some d_hi
      else if Z.even d_lo then Some d_lo else Some d_hi
  | true, false => Some d_lo
  | false, true => Some d_hi
  | false, false => None
  end.

Fixpoint shortest_from (fuel : nat) (i : interval) (decpt n : Z) : Z * Z :=
  match fuel with
  | O => (Vn i * 10 ^ Z.max (n - decpt) 0 / (D i * 10 ^ Z.max (decpt - n) 0), n)
  | S fuel' =>
      match candidate i decpt n with
      | Some d => (d, n)
      | None => shortest_from fuel' i decpt (n + 1)
      end
  end.

(** Decimal digits of a non-negative integer, most significant first. *)
Fixpoint digits_from (fuel : nat) (z : Z) (acc : string) : string :=
  match fuel with
  | O => acc
  | S fuel' =>
      let acc' := String (ascii_of_nat (48 + Z.to_nat (z mod 10))) acc in
      if z <? 10 then acc' else digits_from fuel' (z / 10) acc'
  end.

Definition digits_of (z : Z) : string := digits_from 400 z "".

Fixpoint strip_zeros_rev (s : string) : string :=
  match s with
  | String "0" s' => strip_zeros_rev s'
  | _ => s
  end.

Fixpoint rev_string (s acc : string) : string :=
  match s with
  | EmptyString => acc
  | String c s' => rev_string s' (String c acc)
  end.

Definition strip_trailing_zeros (s : string) : string :=
  rev_string (strip_zeros_rev (rev_string s "")) "".

Fixpoint zeros (n : nat) : string :=
  match n with
  | O => ""
  | S n' => String "0" (zeros n')
  end.

(** The digits [d1 d2 ...] and the decimal point position [decpt] with
    value [0.d1d2... * 10^decpt]. *)
Definition shortest_digits (m e : Z) : string * Z :=
  let i := rounding_interval m e in
  let decpt := find_decpt 700 i (-330) in
  let '(d, n) := shortest_from 17 i decpt 1 in
  let all := digits_of d in
  (strip_trailing_zeros all, Z.of_nat (String.length all) + (decpt - n)).

(** [repr] of a positive finite float from its digits: exponent notation
    when [decpt <= -4] or [decpt > 16], else positional notation with at
    least one digit after the point. *)
Definition format_digits (digits : string) (decpt : Z) : string :=
  let n := Z.of_nat (String.length digits) in
  if (decpt <=? -4) || (16 <? decpt) then
    let exp10 := decpt - 1 in
    let exp_digits := digits_of (Z.abs exp10) in
    take 1 digits
    +:+ (if 1 <? n then "." +:+ drop 1 digits else "")
    +:+ "e" +:+ (if exp10 <? 0 then "-" else "+")
    +:+ (if Z.abs exp10 <? 10 then "0" else "") +:+ exp_digits
  else if decpt <=? 0 then
    "0." +:+ zeros (Z.to_nat (- decpt)) +:+ digits
  else if n <=? decpt then
    digits +:+ zeros (Z.to_nat (decpt - n)) +:+ ".0"
  else
    take (Z.to_nat decpt) digits +:+ "." +:+ drop (Z.to_nat decpt) digits.

(** [repr(x)], which is also what an f-string writes for [{x}]. *)
Definition repr (x : t) : string :=
  match x with
  | NaN => "nan"
  | Inf negative => if negative then "-inf" else "inf"
  | Zero negative => if negative then "-0.0" else "0.0"
  | Finite negative m e =>
      let '(digits, decpt) := shortest_digits m e in
      (if negative then "-" else "") +:+ format_digits digits decpt
  end.

#[global] Arguments repr : simpl never.
#[global] Arguments decode : simpl never.

End PyFloat.

(** ** convert_wkb_to_point (src/agents/data_migration_agent.py) *)

Module WKB.
Import PyStr PyFloat.

(** [bs[start:stop]]: slicing clamps to the length of [bs]. *)
Definition slice (start stop : nat) (bs : list byte) : list byte :=
  firstn (stop - start) (skipn start bs).

(** The body of the [try] block. *)
Definition decode_point (wkb_bytes : list byte) : res (option string) :=
  if (length wkb_bytes <? 21)%nat then Ok None
  else
    let* x := unpack_le_double (slice 9 17 wkb_bytes) in
    let* y := unpack_le_double (slice 17 25 wkb_bytes) in
    Ok (Some ("(" +:+ repr x +:+ ", " +:+ repr y +:+ ")")).

(** [None] in, [None] out; any exception of the body is caught and turned
    into [None]. *)
Definition convert_wkb_to_point (wkb_bytes : option (list byte)) : option string :=
  match wkb_bytes with
  | None => None
  | Some bs =>
      match decode_point bs with
      | Ok r => r
      | Raise _ => None
      | OutOfFuel => None
      end
  end.

(** SRID 0, byte order 1, geometry type 1, X = 12.5, Y = -3.25. *)
Definition sample_point : list byte :=
  [x00; x00; x00; x00;
   x01;
   x01; x00; x00; x00;
   x00; x00; x00; x00; x00; x00; x29; x40;
   x00; x00; x00; x00; x00; x00; x0a; xc0]%byte.

(** The same buffer cut after 21 bytes: the header, X, and half of Y. *)
Definition truncated_point : list byte := firstn 21 sample_point.

End WKB.

(** * State reducers (src/state.py) *)

(** [{key(item): item for item in items}], continued from [d]: the dict
    comprehensions and update loops keyed by a field of the item. *)
Definition dict_by {T} (key : T -> string) (items : list T) (d : PyDict.t T) : PyDict.t T :=
  fold_left (fun d item => PyDict.set (key item) item d) items d.

(** [list(d.values())] *)
Definition dict_values {T} (d : PyDict.t T) : list T := (PyDict.items d).*2.

(** The item a dictionary filled from [items] holds under [k]: the last
    one with that key. *)
Fixpoint latest {T} (key : T -> string) (k : string) (items : list T) : option T :=
  match items with
  | [] => None
  | x :: rest =>
      match latest key k rest with
      | Some y => Some y
      | None => if decide (key x = k) then Some x else None
      end
  end.

(** [sorted(l)] and [sorted(l, key=...)]: a stable sort, here by
    insertion from the right; [le x y] says that [x] may stay before [y]. *)
Fixpoint insert_sorted {A} (le : A -> A -> bool) (x : A) (l : list A) : list A :=
  match l with
  | [] => [x]
  | y :: l' => if le x y then x :: l else y :: insert_sorted le x l'
  end.

Definition sorted_by {A} (le : A -> A -> bool) (l : list A) : list A :=
  fold_right (insert_sorted le) [] l.

Module State.

Definition merge_errors {E} (existing new : list E) : list E := existing ++ new.

Definition update_ddl_list (existing new : list TransformedDDL.t) : list TransformedDDL.t :=
  let result := dict_by TransformedDDL.object_name existing PyDict.empty in
  let result := dict_by TransformedDDL.object_name new result in
  dict_values result.

End State.

(** * Schema comparison result (src/tools/schema_validator.py) *)

Module ValidationIssue.
Record t : Type := mk {
  severity : string;
  category : string;
  table_name : string;
  message : string;
  source_value : option string;
  target_value : option string
}.
End ValidationIssue.

Module SchemaComparisonResult.
Record t : Type := mk {
  passed : bool;
  total_checks : Z;
  passed_checks : Z;
  failed_checks : Z;
  issues : list ValidationIssue.t
}.

(** [SchemaComparisonResult()] *)
Definition default : t := mk true 0 0 0 [].

Definition add_issue (self : t) (issue : ValidationIssue.t) : t :=
  mk (if String.eqb (ValidationIssue.severity issue) "critical" then false else passed self)
     (total_checks self)
     (passed_checks self)
     (failed_checks self + 1)
     (issues self ++ [issue]).

Definition add_pass (self : t) : t :=
  mk (passed self) (total_checks self + 1) (passed_checks self + 1)
     (failed_checks self) (issues self).

(** A call of one of the two methods. *)
Inductive call : Type :=
| AddIssue (issue : ValidationIssue.t)
| AddPass.

Definition apply (self : t) (c : call) : t :=
  match c with
  | AddIssue issue => add_issue self issue
  | AddPass => add_pass self
  end.

Definition after (calls : list call) : t := fold_left apply calls default.

Definition issues_of (calls : list call) : list ValidationIssue.t :=
  omap (fun c => match c with AddIssue i => Some i | AddPass => None end) calls.

Definition is_pass (c : call) : bool :=
  match c with AddPass => true | AddIssue _ => false end.

Definition passes_of (calls : list call) : list call := List.filter is_pass calls.

End SchemaComparisonResult.

(** * Error fixer (src/agents/error_fixer_agent.py) *)

Module ErrorFixerAgent.
Import PyStr.

(** [_clean_sql] *)
Definition _clean_sql (sql : string) : string :=
  let sql := strip sql in
  let sql :=
    if startswith "```sql" sql then drop 6 sql
    else if startswith "```" sql then drop 3 sql
    else sql in
  let sql := if endswith "```" sql then drop_end 3 sql else sql in
  let sql := strip sql in
  if negb (String.eqb sql "") && negb (endswith ";" sql) then sql +:+ ";" else sql.

End ErrorFixerAgent.

(** * Python values held by a row *)

Module PyVal.
Import PyStr.

(** What a driver puts in a row: [None], a [bool], an [int], a [str], a
    [bytes], or another object (a date, a [Decimal], a [float]), known by
    its [str()] and its truth value. *)
Inductive t : Type :=
| VNone
| VBool (b : bool)
| VInt (z : Z)
| VStr (s : string)
| VBytes (bs : list byte)
| VObj (text : string) (truth : bool).

Definition backslash : ascii := ascii_of_nat 92.
Definition squote : ascii := ascii_of_nat 39.

Definition hex_digit (n : nat) : ascii :=
  match String.get n "0123456789abcdef" with
  | Some c => c
  | None => "0"%char
  end.

(** [repr] of a [bytes] object: the quote is the double quote when the
    bytes hold a single quote and no double quote. *)
Definition bytes_quote (bs : list byte) : ascii :=
  let cs := ascii_of_byte <$> bs in
  if existsb (Ascii.eqb squote) cs && negb (existsb (Ascii.eqb (ascii_of_nat 34)) cs)
  then ascii_of_nat 34 else squote.

Definition repr_byte (quote : ascii) (b : byte) : string :=
  let c := ascii_of_byte b in
  let n := nat_of_ascii c in
  if Ascii.eqb c quote || Ascii.eqb c backslash then String backslash (String c "")
  else if (n =? 9)%nat then String backslash "t"
  else if (n =? 10)%nat then String backslash "n"
  else if (n =? 13)%nat then String backslash "r"
  else if ((n <? 32) || (127 <=? n))%nat
       then String backslash (String "x" (String (hex_digit (n / 16)) (String (hex_digit (n mod 16)) "")))
  else String c "".

Definition bytes_repr (bs : list byte) : string :=
  let quote := bytes_quote bs in
  "b" +:+ String quote (String.concat "" (repr_byte quote <$> bs)) +:+ String quote "".

(** [str(n)] for an [int] *)
Definition str_of_int (z : Z) : string := NilZero.string_of_int (Z.to_int z).

(** [str(value)] *)
Definition str (v : t) : string :=
  match v with
  | VNone => "None"
  | VBool true => "True"
  | VBool false => "False"
  | VInt z => str_of_int z
  | VStr s => s
  | VBytes bs => bytes_repr bs
  | VObj text _ => text
  end.

(** [bool(value)] *)
Definition truth (v : t) : bool :=
  match v with
  | VNone => false
  | VBool b => b
  | VInt z => negb (z =? 0)
  | VStr s => negb (String.eqb s "")
  | VBytes bs => match bs with [] => false | _ => true end
  | VObj _ b => b
  end.

(** [int.from_bytes(bs, byteorder='big')] *)
Definition from_bytes_big (bs : list byte) : Z :=
  fold_left (fun acc b => acc * 256 + Z.of_N (Byte.to_N b)) bs 0.

End PyVal.

(** * Data migrator (src/tools/data_migrator.py)

    The two databases are outside the program: the source answers a page
    query with rows or with an error, the target answers an INSERT with
    an error or with none.  Durations are left out of the results. *)

Module TableMigrationResult.
Record t : Type := mk {
  table_name : string;
  rows_migrated : Z;
  success : bool;
  errors : list string
}.
End TableMigrationResult.

Module DataMigrationResult.
Record t : Type := mk {
  total_rows : Z;
  tables_migrated : Z;
  tables_failed : Z;
  success : bool;
  table_results : list TableMigrationResult.t;
  errors : list string
}.
End DataMigrationResult.

Module DataMigrator.
Import PyStr PyVal.

(** [dict(row._mapping)] *)
Definition row : Type := PyDict.t PyVal.t.

(** Answer of a database: a value, or the text of the exception. *)
Inductive db_result (A : Type) : Type :=
| DbOk (a : A)
| DbError (message : string).
Arguments DbOk {A} a.
Arguments DbError {A} message.

(** Outcome of a method: it returns, an exception leaves it, or the model
    ran out of fuel. *)
Inductive outcome (A : Type) : Type :=
| Returns (a : A)
| Throws (message : string)
| Unfinished.
Arguments Returns {A} a.
Arguments Throws {A} message.
Arguments Unfinished {A}.

(** A statement sent to the target with its rows, and the answer. *)
Record insert_call : Type := mk_call {
  sql : string;
  parameters : list row;
  answer : option string
}.

(** [transform_value] *)
Definition transform_value (value : PyVal.t) (mysql_type : string) : PyVal.t :=
  match value with
  | VNone => VNone
  | _ =>
      let mysql_type_upper := upper mysql_type in
      if (contains "DATE" mysql_type_upper || contains "TIMESTAMP" mysql_type_upper)
         && startswith "0000-00-00" (PyVal.str value)
      then VNone
      else if contains "TINYINT(1)" mysql_type_upper then VBool (truth value)
      else if contains "BLOB" mysql_type_upper || contains "BINARY" mysql_type_upper
      then value
      else if startswith "BIT" mysql_type_upper then
        match value with
        | VBytes bs => VInt (from_bytes_big bs)
        | _ => value
        end
      else if startswith "SET" mysql_type_upper then value
      else value
  end.

(** [{col["name"]: str(col["type"]) for col in columns}] *)
Definition column_types (columns : list Column.t) : PyDict.t string :=
  fold_left (fun d col => PyDict.set (Column.name col) (Column.type col) d)
            columns PyDict.empty.

(** [transform_row] *)
Definition transform_row (r : row) (columns : list Column.t) : row :=
  let column_types := column_types columns in
  fold_left
    (fun transformed '(col_name, value) =>
       let mysql_type := default "" (PyDict.get col_name column_types) in
       PyDict.set col_name (transform_value value mysql_type) transformed)
    (PyDict.items r) PyDict.empty.

(** The statement [bulk_insert] builds. *)
Definition insert_sql (table_name : string) (columns : list string) : string :=
  let col_list := join ", " (quoted <$> columns) in
  let placeholders := join ", " ((fun c => ":" +:+ c) <$> columns) in
  "INSERT INTO " +:+ quoted table_name +:+ " (" +:+ col_list +:+ ") VALUES ("
    +:+ placeholders +:+ ")".

Section Migrator.

(** [self.batch_size] *)
Variable batch_size : Z.

(** The source's answer to
    [SELECT * FROM `table` LIMIT :limit OFFSET :offset]. *)
Variable select_page : string -> Z -> Z -> db_result (list row).

(** The source inspector's [get_columns(table)]. *)
Variable get_columns : string -> db_result (list Column.t).

(** The target's answer to an INSERT, given the calls made before: the
    text of the exception, or [None]. *)
Variable insert_error : list insert_call -> string -> list row -> option string.

(** [bulk_insert], threading the calls made on the target. *)
Definition bulk_insert (table_name : string) (rows : list row) (columns : list string)
    (calls : list insert_call) : (bool * option string) * list insert_call :=
  match rows with
  | [] => ((true, None), calls)
  | _ =>
      let sql := insert_sql table_name columns in
      match insert_error calls sql rows with
      | None => ((true, None), calls ++ [mk_call sql rows None])
      | Some e => ((false, Some e), calls ++ [mk_call sql rows (Some e)])
      end
  end.

(** The loop of [migrate_table] over the batches [stream_source_data]
    yields; the generator runs its next query when the loop asks for the
    next batch. *)
Fixpoint migrate_batches (fuel : nat) (table_name : string) (columns : list Column.t)
    (offset batch_num total_rows : Z) (errors : list string)
    (calls : list insert_call)
    : outcome (TableMigrationResult.t * list insert_call) :=
  match fuel with
  | O => Unfinished
  | S fuel' =>
      match select_page table_name batch_size offset with
      | DbError e =>
          Returns (TableMigrationResult.mk table_name total_rows false [e], calls)
      | DbOk [] =>
          let success := bool_decide (errors = []) in
          Returns (TableMigrationResult.mk table_name total_rows success errors, calls)
      | DbOk batch =>
          let transformed_rows := (fun r => transform_row r columns) <$> batch in
          let column_names := Column.name <$> columns in
          let '((success, error), calls) :=
            bulk_insert table_name transformed_rows column_names calls in
          let '(errors, total_rows) :=
            if success then (errors, total_rows + Z.of_nat (length transformed_rows))
            else (errors ++ ["Batch " +:+ str_of_int batch_num +:+ ": "
                               +:+ str_of_option error], total_rows) in
          migrate_batches fuel' table_name columns (offset + batch_size)
                          (batch_num + 1) total_rows errors calls
      end
  end.

(** [migrate_table]; [columns] is [None] when the caller leaves it out. *)
Definition migrate_table (fuel : nat) (table_name : string)
    (columns : option (list Column.t)) (calls : list insert_call)
    : outcome (TableMigrationResult.t * list insert_call) :=
  match match columns with
        | Some columns => DbOk columns
        | None => get_columns table_name
        end with
  | DbError e => Throws e
  | DbOk columns => migrate_batches fuel table_name columns 0 0 0 [] calls
  end.

End Migrator.

Section FullMigration.

Variable batch_size : Z.
Variable select_page : string -> Z -> Z -> db_result (list row).
Variable get_columns : string -> db_result (list Column.t).
Variable insert_error : list insert_call -> string -> list row -> option string.

(** [test_connections()] *)
Variable source_ok target_ok : bool.

(** The source inspector's [get_table_names()]. *)
Variable get_table_names : db_result (list string).

(** [disable_foreign_keys()] and [enable_foreign_keys()] *)
Variable fk_disabled fk_enabled : bool.

(** [get_migration_order]; the argument is the [migration_order] of the
    dependency graph, if a graph is given. *)
Definition get_migration_order (dependency_graph : option (list string))
    : outcome (list string) :=
  match dependency_graph with
  | Some (obj_id :: order) => Returns (obj_id :: order)
  | _ =>
      match get_table_names with
      | DbOk names => Returns (sorted_by String.leb names)
      | DbError e => Throws e
      end
  end.

(** The loop [for table in tables] of [run_full_migration]. *)
Fixpoint migrate_tables (fuel : nat) (continue_on_error : bool) (tables : list string)
    (table_results : list TableMigrationResult.t) (errors : list string)
    (calls : list insert_call)
    : outcome (list TableMigrationResult.t * list string * list insert_call) :=
  match tables with
  | [] => Returns (table_results, errors, calls)
  | table :: rest =>
      match migrate_table batch_size select_page get_columns insert_error
              fuel table None calls with
      | Throws e => Throws e
      | Unfinished => Unfinished
      | Returns (result, calls) =>
          let table_results := table_results ++ [result] in
          if TableMigrationResult.success result
          then migrate_tables fuel continue_on_error rest table_results errors calls
          else
            let errors := errors ++ TableMigrationResult.errors result in
            if continue_on_error
            then migrate_tables fuel continue_on_error rest table_results errors calls
            else Returns (table_results, errors, calls)
      end
  end.

(** The results whose errors the loop collects. *)
Definition failed (results : list TableMigrationResult.t) : list TableMigrationResult.t :=
  List.filter (fun r => negb (TableMigrationResult.success r)) results.

Definition sum_rows (table_results : list TableMigrationResult.t) : Z :=
  fold_right (fun r n => TableMigrationResult.rows_migrated r + n) 0 table_results.

Definition count_results (p : TableMigrationResult.t -> bool)
    (table_results : list TableMigrationResult.t) : Z :=
  Z.of_nat (length (List.filter p table_results)).

(** [run_full_migration].  [reset_sequences] and [validate_row_counts]
    catch their exceptions and leave the result as it is. *)
Definition run_full_migration (fuel : nat) (dependency_graph : option (list string))
    (continue_on_error : bool) (calls : list insert_call)
    : outcome (DataMigrationResult.t * list insert_call) :=
  if negb source_ok || negb target_ok then
    Returns (DataMigrationResult.mk 0 0 0 false [] ["Database connection failed"], calls)
  else
    match get_migration_order dependency_graph with
    | Throws e => Throws e
    | Unfinished => Unfinished
    | Returns tables =>
        let errors := if fk_disabled then [] else ["Failed to disable FK constraints"] in
        match migrate_tables fuel continue_on_error tables [] errors calls with
        | Throws e => Throws e
        | Unfinished => Unfinished
        | Returns (table_results, errors, calls) =>
            let errors := if fk_enabled then errors
                          else errors ++ ["Failed to re-enable FK constraints"] in
            let total_rows := sum_rows table_results in
            let tables_migrated :=
              count_results TableMigrationResult.success table_results in
            let tables_failed :=
              count_results (fun r => negb (TableMigrationResult.success r))
                            table_results in
            Returns (DataMigrationResult.mk total_rows tables_migrated tables_failed
                       (tables_failed =? 0) table_results errors, calls)
        end
    end.

End FullMigration.

(** A source whose tables hold fixed lists of rows and which answers a
    page query with the rows at that offset; a negative limit or offset is
    an error. *)
Definition table_source (tables : gmap string (list row))
    (table_name : string) (limit offset : Z) : db_result (list row) :=
  match tables !! table_name with
  | None => DbError ("Table " +:+ table_name +:+ " doesn't exist")
  | Some rows =>
      if (limit <? 0) || (offset <? 0) then DbError "You have an error in your SQL syntax"
      else DbOk (firstn (Z.to_nat limit) (skipn (Z.to_nat offset) rows))
  end.

(** Rows of the calls the target accepted. *)
Definition accepted_rows (calls : list insert_call) : Z :=
  fold_right (fun c n => match answer c with
                         | None => Z.of_nat (length (parameters c)) + n
                         | Some _ => n
                         end) 0 calls.

(** The error entries of the calls the target refused, numbered from
    [batch_num]. *)
Fixpoint batch_errors (batch_num : Z) (calls : list insert_call) : list string :=
  match calls with
  | [] => []
  | c :: rest =>
      match answer c with
      | None => batch_errors (batch_num + 1) rest
      | Some e => ("Batch " +:+ str_of_int batch_num +:+ ": " +:+ e)
                    :: batch_errors (batch_num + 1) rest
      end
  end.

(** The rows a source holds for a table, and the columns the inspector
    gives for it. *)
Definition source_rows (tables : gmap string (list row)) (table_name : string)
    : list row := default [] (tables !! table_name).

Definition columns_of (get_columns : string -> db_result (list Column.t))
    (table_name : string) : list Column.t :=
  match get_columns table_name with
  | DbOk columns => columns
  | DbError _ => []
  end.

(** The table is in the source, short enough for the fuel, and known to
    the inspector. *)
Definition readable (tables : gmap string (list row))
    (get_columns : string -> db_result (list Column.t)) (fuel : nat)
    (table_name : string) : Prop :=
  exists rows columns,
    tables !! table_name = Some rows /\ (length rows < fuel)%nat
    /\ get_columns table_name = DbOk columns.

(** The result for a table all of whose rows were copied, and the rows
    sent to the target for it. *)
Definition copied (tables : gmap string (list row)) (table_name : string)
    : TableMigrationResult.t :=
  TableMigrationResult.mk table_name
    (Z.of_nat (length (source_rows tables table_name))) true [].

Definition sent (tables : gmap string (list row))
    (get_columns : string -> db_result (list Column.t)) (table_name : string)
    : list row :=
  (fun r => transform_row r (columns_of get_columns table_name))
    <$> source_rows tables table_name.

(** The type [transform_row] uses for a column: the one of the last entry
    of the metadata with that name, or the empty string. *)
Definition type_of (columns : list Column.t) (col_name : string) : string :=
  default "" (Column.type <$> latest Column.name col_name columns).

(** Three rows of Sakila's [actor] table. *)
Definition actor_row (actor_id : Z) (first_name : string) : row :=
  PyDict.set "first_name" (VStr first_name)
    (PyDict.set "actor_id" (VInt actor_id) PyDict.empty).

Definition actor_rows : list row :=
  [actor_row 1 "PENELOPE"; actor_row 2 "NICK"; actor_row 3 "ED"].

Definition actor_columns : list Column.t :=
  [Column.mk "actor_id" "SMALLINT" false None true;
   Column.mk "first_name" "VARCHAR(45)" false None false].

Definition sakila_source : gmap string (list row) := {[ "actor" := actor_rows ]}.

(** A target that accepts every INSERT, and an inspector that fails. *)
Definition accept_all (calls : list insert_call) (sql : string) (rows : list row)
    : option string := None.

Definition no_such_table (table_name : string) : db_result (list Column.t) :=
  DbError "NoSuchTableError".

Definition actor_inspector (table_name : string) : db_result (list Column.t) :=
  DbOk actor_columns.

Definition actor_only : db_result (list string) := DbOk ["actor"].

End DataMigrator.

(** * Data migration agent (src/agents/data_migration_agent.py) *)

Module DataMigrationAgent.
Import PyStr.

(** [_get_table_order]; the arguments are the [migration_order] of
    [state.dependency_graph] and the tables of [state.schema_metadata],
    each [None] when the state has no such object. *)
Definition _get_table_order (migration_order : option (list string))
    (schema_tables : option (list TableMetadata.t)) : list string :=
  match migration_order with
  | Some (obj_id :: order) =>
      fold_left
        (fun table_order obj_id =>
           if startswith "table:" obj_id
           then table_order ++ [replace "table:" "" obj_id]
           else table_order)
        (obj_id :: order) []
  | _ =>
      match schema_tables with
      | Some tables => TableMetadata.name <$> tables
      | None => []
      end
  end.

(** The id the dependency agent gives an object: [f"{kind}:{name}"]. *)
Definition object_id (kind name : string) : string := kind +:+ ":" +:+ name.

(** The kinds of objects of a dependency graph. *)
Definition kinds : list string := ["table"; "view"; "procedure"; "trigger"].

End DataMigrationAgent.

(** * Sandbox agent (src/agents/sandbox_agent.py) *)

(** [d.pop(k)] for a key of [d]: the value, and [d] without the key. *)
Definition dict_pop {V} (k : string) (d : PyDict.t V) : option V * PyDict.t V :=
  (PyDict.store d !! k,
   PyDict.mk (filter (fun k' => k' <> k) (PyDict.keys d)) (delete k (PyDict.store d))).

(** [l.index(x)], raising [ValueError] when [x] is not in [l]. *)
Fixpoint list_index (x : string) (l : list string) : option Z :=
  match l with
  | [] => None
  | y :: l' => if String.eqb y x then Some 0 else Z.succ <$> list_index x l'
  end.

Module SandboxAgent.
Import PyStr.

Definition priority_order : list string :=
  ["actor"; "category"; "country"; "language"; "film_text";
   "city";
   "address"; "film";
   "customer"; "staff"; "store"; "film_actor"; "film_category"; "inventory";
   "rental";
   "payment"].

Definition get_priority (ddl : TransformedDDL.t) : Z :=
  match list_index (TransformedDDL.object_name ddl) priority_order with
  | Some i => i
  | None => 999
  end.

(** [_simple_dependency_sort] *)
Definition _simple_dependency_sort (tables : list TransformedDDL.t)
    : list TransformedDDL.t :=
  sorted_by (fun a b => get_priority a <=? get_priority b) tables.

(** Body of [for obj_id in dependency_order]. *)
Definition take_table (st : PyDict.t TransformedDDL.t * list TransformedDDL.t)
    (obj_id : string) : PyDict.t TransformedDDL.t * list TransformedDDL.t :=
  let '(ddl_by_name, ordered) := st in
  if contains ":" obj_id then
    match split_once ":" obj_id with
    | Some (obj_type, obj_name) =>
        if String.eqb obj_type "table" && PyDict.mem obj_name ddl_by_name then
          match dict_pop obj_name ddl_by_name with
          | (Some ddl, ddl_by_name) => (ddl_by_name, ordered ++ [ddl])
          | (None, _) => st
          end
        else st
    | None => st
    end
  else st.

(** [_sort_by_dependency] *)
Definition _sort_by_dependency (tables : list TransformedDDL.t)
    (dependency_order : list string) : list TransformedDDL.t :=
  match dependency_order with
  | [] => _simple_dependency_sort tables
  | _ =>
      let ddl_by_name := dict_by TransformedDDL.object_name tables PyDict.empty in
      let '(ddl_by_name, ordered) :=
        fold_left take_table dependency_order (ddl_by_name, []) in
      ordered ++ dict_values ddl_by_name
  end.

(** The table name an id of the dependency order stands for, if any. *)
Definition table_of (obj_id : string) : option string :=
  match split_once ":" obj_id with
  | Some (obj_type, obj_name) =>
      if String.eqb obj_type "table" then Some obj_name else None
  | None => None
  end.

End SandboxAgent.

(** * Building the dependency graph (src/agents/dependency_agent.py) *)

Module ViewMetadata.
Record t : Type := mk {
  name : string;
  definition : string
}.
End ViewMetadata.

Module ProcedureMetadata.
Record t : Type := mk {
  name : string;
  type : string;
  source_code : string
}.
End ProcedureMetadata.

Module TriggerMetadata.
Record t : Type := mk {
  name : string;
  table_name : string;
  timing : string;
  event : string;
  source_code : string
}.
End TriggerMetadata.

Module SchemaMetadata.
Record t : Type := mk {
  tables : list TableMetadata.t;
  views : list ViewMetadata.t;
  procedures : list ProcedureMetadata.t;
  triggers : list TriggerMetadata.t
}.
End SchemaMetadata.

Module DependencyGraphBuilder.
Import PyStr DependencyAgent.

(** [_classify_complexity] *)
Definition _classify_complexity (table : TableMetadata.t) : string :=
  let columns := Z.of_nat (length (TableMetadata.columns table)) in
  let foreign_keys := Z.of_nat (length (TableMetadata.foreign_keys table)) in
  let score := 0 in
  let score := if 20 <? columns then score + 2
               else if 10 <? columns then score + 1 else score in
  let score := if 3 <? foreign_keys then score + 2
               else if 0 <? foreign_keys then score + 1 else score in
  let large (n : Z) : bool :=
    match TableMetadata.row_count table with
    | Some rows => negb (rows =? 0) && (n <? rows)
    | None => false
    end in
  let score := if large 100000 then score + 2
               else if large 10000 then score + 1 else score in
  if 4 <=? score then "high" else if 2 <=? score then "medium" else "low".

Definition table_node (table : TableMetadata.t) : DependencyNode :=
  Build_DependencyNode ("table:" +:+ TableMetadata.name table) (TableMetadata.name table)
    "table" (_classify_complexity table).

Definition view_node (view : ViewMetadata.t) : DependencyNode :=
  Build_DependencyNode ("view:" +:+ ViewMetadata.name view) (ViewMetadata.name view)
    "view" "medium".

Definition procedure_node (proc : ProcedureMetadata.t) : DependencyNode :=
  Build_DependencyNode ("procedure:" +:+ ProcedureMetadata.name proc)
    (ProcedureMetadata.name proc) (ProcedureMetadata.type proc)
    (if (500 <? String.length (ProcedureMetadata.source_code proc))%nat
     then "high" else "medium").

Definition trigger_node (trigger : TriggerMetadata.t) : DependencyNode :=
  Build_DependencyNode ("trigger:" +:+ TriggerMetadata.name trigger)
    (TriggerMetadata.name trigger) "trigger" "medium".

(** The nodes [run] creates, in its order. *)
Definition nodes_of (schema : SchemaMetadata.t) : list DependencyNode :=
  (table_node <$> SchemaMetadata.tables schema)
  ++ (view_node <$> SchemaMetadata.views schema)
  ++ (procedure_node <$> SchemaMetadata.procedures schema)
  ++ (trigger_node <$> SchemaMetadata.triggers schema).

Definition foreign_key_edge (table : TableMetadata.t) (fk : ForeignKey.t)
    : DependencyEdge :=
  Build_DependencyEdge ("table:" +:+ TableMetadata.name table)
    ("table:" +:+ str_of_option (ForeignKey.referred_table fk)) "foreign_key".

Definition view_edges (tables : list TableMetadata.t) (view : ViewMetadata.t)
    : list DependencyEdge :=
  omap (fun table =>
          if contains (lower (TableMetadata.name table))
                      (lower (ViewMetadata.definition view))
          then Some (Build_DependencyEdge ("view:" +:+ ViewMetadata.name view)
                       ("table:" +:+ TableMetadata.name table) "reference")
          else None)
       tables.

Definition trigger_edge (trigger : TriggerMetadata.t) : DependencyEdge :=
  Build_DependencyEdge ("trigger:" +:+ TriggerMetadata.name trigger)
    ("table:" +:+ TriggerMetadata.table_name trigger) "reference".

(** The edges [run] creates, in its order. *)
Definition edges_of (schema : SchemaMetadata.t) : list DependencyEdge :=
  concat ((fun table => foreign_key_edge table <$> TableMetadata.foreign_keys table)
            <$> SchemaMetadata.tables schema)
  ++ concat (view_edges (SchemaMetadata.tables schema) <$> SchemaMetadata.views schema)
  ++ (trigger_edge <$> SchemaMetadata.triggers schema).

(** The [migration_order] of the graph [run] stores in the state. *)
Definition migration_order (schema : SchemaMetadata.t) : res (list string) :=
  _topological_sort (nodes_of schema) (edges_of schema).

(** Two tables, a view and a trigger of Sakila. *)
Definition film_actor_schema : SchemaMetadata.t :=
  SchemaMetadata.mk
    [TableMetadata.mk "film_actor" [] ["actor_id"; "film_id"] []
       [ForeignKey.mk (Some "fk_film_actor_actor") ["actor_id"] (Some "actor")
          ["actor_id"]] None;
     TableMetadata.mk "actor" [] ["actor_id"] [] [] (Some 200)]
    [ViewMetadata.mk "actor_info" "select a.actor_id from actor a"]
    []
    [TriggerMetadata.mk "upd_actor" "actor" "BEFORE" "UPDATE" ""].

Definition film_actor_rank (node_id : string) : nat :=
  if String.eqb node_id "table:actor" then 0%nat
  else if String.eqb node_id "table:film_actor" then 1%nat
  else 2%nat.

End DependencyGraphBuilder.

(** * Grouping triggers by table (src/agents/blueprint_agent.py) *)

Module TriggerEntry.
(** The dictionary [_map_triggers_to_tables] stores for a trigger. *)
Record t : Type := mk {
  name : string;
  timing : string;
  event : string;
  source : string
}.
End TriggerEntry.

Module BlueprintMaps.

Definition entry_of (trigger : TriggerMetadata.t) : TriggerEntry.t :=
  TriggerEntry.mk (TriggerMetadata.name trigger) (TriggerMetadata.timing trigger)
    (TriggerMetadata.event trigger) (TriggerMetadata.source_code trigger).

(** Body of [for trigger in triggers]. *)
Definition add_trigger (triggers_by_table : PyDict.t (list TriggerEntry.t))
    (trigger : TriggerMetadata.t) : res (PyDict.t (list TriggerEntry.t)) :=
  let table_name := TriggerMetadata.table_name trigger in
  let triggers_by_table :=
    if negb (PyDict.mem table_name triggers_by_table)
    then PyDict.set table_name [] triggers_by_table
    else triggers_by_table in
  let* entries := PyDict.getitem table_name triggers_by_table in
  Ok (PyDict.set table_name (entries ++ [entry_of trigger]) triggers_by_table).

(** [_map_triggers_to_tables] *)
Definition _map_triggers_to_tables (triggers : list TriggerMetadata.t)
    : res (PyDict.t (list TriggerEntry.t)) :=
  foldM add_trigger triggers PyDict.empty.

(** The entries of the triggers on a table, in the order of the triggers. *)
Definition entries_on (table_name : string) (triggers : list TriggerMetadata.t)
    : list TriggerEntry.t :=
  entry_of <$> filter (fun g => TriggerMetadata.table_name g = table_name) triggers.

End BlueprintMaps.

(** * Executing one DDL in the sandbox (src/agents/sandbox_agent.py)

    The sandbox database and the regular-expression engine are outside
    the program: [execute_ddl] answers a statement, given the statements
    executed before, with the text of the exception or with [None]; the
    two [re.sub] calls are functions on strings. *)

Module SandboxExec.
Import PyStr.

(** A statement executed in the sandbox and the executor's answer. *)
Definition execution : Type := (string * option string)%type.

Definition with_status (ddl : TransformedDDL.t) (status : MigrationStatus)
    : TransformedDDL.t :=
  TransformedDDL.mk (TransformedDDL.object_name ddl) (TransformedDDL.object_type ddl)
    (TransformedDDL.source_ddl ddl) (TransformedDDL.target_ddl ddl) status.

Definition with_target_ddl (ddl : TransformedDDL.t) (target_ddl : string)
    : TransformedDDL.t :=
  TransformedDDL.mk (TransformedDDL.object_name ddl) (TransformedDDL.object_type ddl)
    (TransformedDDL.source_ddl ddl) target_ddl (TransformedDDL.status ddl).

Section Executor.

(** [self.executor.execute_ddl(ddl)["error"]]; [None] means success. *)
Variable execute_ddl : list execution -> string -> option string.

(** [re.sub(r'\bsakila\.(\w+)', r'\1', s)] *)
Variable sub_schema_prefix : string -> string.

(** [re.sub(r'\s*ENGINE\s*=\s*\w+', '', s, flags=re.IGNORECASE)] *)
Variable sub_engine_clause : string -> string.

Definition run_ddl (executed : list execution) (ddl : string)
    : option string * list execution :=
  let error := execute_ddl executed ddl in
  (error, executed ++ [(ddl, error)]).

(** [_fix_view_schema_references] *)
Definition _fix_view_schema_references (ddl : string) : string :=
  sub_schema_prefix ddl.

(** [_attempt_fix] *)
Definition _attempt_fix (ddl error : string) : string :=
  let fixed_ddl := ddl in
  let fixed_ddl :=
    if contains "sakila." fixed_ddl then sub_schema_prefix fixed_ddl else fixed_ddl in
  let fixed_ddl :=
    if contains "unsigned" (lower error) || contains "UNSIGNED" ddl
    then replace " unsigned" "" (replace " UNSIGNED" "" fixed_ddl)
    else fixed_ddl in
  let fixed_ddl :=
    if contains backtick fixed_ddl then replace backtick dquote fixed_ddl
    else fixed_ddl in
  let fixed_ddl :=
    if contains "engine" (lower error) || contains "ENGINE" ddl
    then sub_engine_clause fixed_ddl
    else fixed_ddl in
  fixed_ddl.

(** [_execute_and_record]: the DDL object after the call, the results
    with the new one appended, and the statements executed so far. *)
Definition _execute_and_record (ddl : TransformedDDL.t)
    (sandbox_results : list SandboxResult.t) (executed : list execution)
    : TransformedDDL.t * list SandboxResult.t * list execution :=
  let record executed_ok errors retry_count :=
    SandboxResult.mk (TransformedDDL.object_name ddl) (TransformedDDL.object_type ddl)
      executed_ok errors retry_count in
  let '(result, executed) := run_ddl executed (TransformedDDL.target_ddl ddl) in
  match result with
  | None =>
      (with_status ddl SUCCESS, sandbox_results ++ [record true [] 0], executed)
  | Some error =>
      let errors := if String.eqb error "" then [] else [error] in
      let fixed_ddl := _attempt_fix (TransformedDDL.target_ddl ddl) error in
      if negb (String.eqb fixed_ddl (TransformedDDL.target_ddl ddl)) then
        let '(retry_result, executed) := run_ddl executed fixed_ddl in
        match retry_result with
        | None =>
            (with_status (with_target_ddl ddl fixed_ddl) SUCCESS,
             sandbox_results ++ [record true [] 1], executed)
        | Some retry_error =>
            (with_status ddl FAILED,
             sandbox_results ++ [record false (errors ++ [retry_error]) 1], executed)
        end
      else
        (with_status ddl FAILED, sandbox_results ++ [record false errors 0], executed)
  end.

End Executor.
End SandboxExec.

(** * A sandbox pass (src/agents/sandbox_agent.py, [SandboxAgent.run])

    The DDL objects and procedures of the state are records; the pass
    writes the status, and the repaired DDL, into the objects it tests,
    which the model returns in the order in which they were tested.  The
    statements of the pass are the calls of [executor.execute_ddl]; the
    reset before them drops what an earlier pass left and catches its own
    errors.  Writing the results file may fail. *)

Module SandboxRun.
Import PyStr SandboxExec SandboxAgent.

(** [[d for d in state.transformed_ddl if d.object_type == object_type]] *)
Definition of_type (object_type : string) (transformed_ddl : list TransformedDDL.t)
    : list TransformedDDL.t :=
  List.filter (fun d => String.eqb (TransformedDDL.object_type d) object_type)
              transformed_ddl.

Definition with_procedure_status (proc : ConvertedProcedure.t) (status : MigrationStatus)
    : ConvertedProcedure.t :=
  ConvertedProcedure.mk (ConvertedProcedure.name proc)
    (ConvertedProcedure.procedure_type proc) (ConvertedProcedure.source_code proc)
    (ConvertedProcedure.target_code proc) status.

(** What [run] leaves behind. *)
Record pass : Type := mk_pass {
  (** the DDL objects tested, in the order of the tests, as the tests left
      them *)
  tested_ddl : list TransformedDDL.t;
  tested_procedures : list ConvertedProcedure.t;
  (** every call of [execute_ddl], in order, with its answer *)
  executed : list execution;
  (** the new [state.sandbox_results]; [None] when the pass ended in the
      [except] branch and the state keeps the old results *)
  stored_results : option (list SandboxResult.t)
}.

Section Pass.

Variable execute_ddl : list execution -> string -> option string.
Variable sub_schema_prefix : string -> string.
Variable sub_engine_clause : string -> string.

(** [artifact_manager.save_sandbox_results] returns, or raises. *)
Variable save_sandbox_results : list SandboxResult.t -> bool.

(** The variables of the loops: objects tested, results, statements. *)
Definition progress (T : Type) : Type :=
  (list T * list SandboxResult.t * list execution)%type.

(** Body of [for ddl in ordered_tables], [in indexes], [in deferred_fks]. *)
Definition test_ddl (p : progress TransformedDDL.t) (ddl : TransformedDDL.t)
    : progress TransformedDDL.t :=
  let '(tested, sandbox_results, executed) := p in
  let '(ddl, sandbox_results, executed) :=
    _execute_and_record execute_ddl sub_schema_prefix sub_engine_clause
      ddl sandbox_results executed in
  (tested ++ [ddl], sandbox_results, executed).

(** Body of [for ddl in views]. *)
Definition fixed_view (ddl : TransformedDDL.t) : TransformedDDL.t :=
  with_target_ddl ddl
    (_fix_view_schema_references sub_schema_prefix (TransformedDDL.target_ddl ddl)).

Definition test_view (p : progress TransformedDDL.t) (ddl : TransformedDDL.t)
    : progress TransformedDDL.t :=
  test_ddl p (fixed_view ddl).

(** Body of [for proc in state.converted_procedures]. *)
Definition test_procedure (p : progress ConvertedProcedure.t)
    (proc : ConvertedProcedure.t) : progress ConvertedProcedure.t :=
  let '(tested, sandbox_results, executed) := p in
  let '(error, executed) :=
    run_ddl execute_ddl executed (ConvertedProcedure.target_code proc) in
  let sandbox_result :=
    SandboxResult.mk (ConvertedProcedure.name proc)
      (ConvertedProcedure.procedure_type proc)
      (match error with None => true | Some _ => false end)
      (match error with
       | None => []
       | Some error => if String.eqb error "" then [] else [error]
       end)
      0 in
  let proc :=
    with_procedure_status proc
      (match error with None => SUCCESS | Some _ => FAILED end) in
  (tested ++ [proc], sandbox_results ++ [sandbox_result], executed).

(** [run] *)
Definition run (state : MigrationState.t) : pass :=
  let sandbox_results : list SandboxResult.t := [] in
  let dependency_order := MigrationState.migration_order state in
  let transformed_ddl := MigrationState.transformed_ddl state in
  let tables := of_type "table" transformed_ddl in
  let indexes := of_type "index" transformed_ddl in
  let views := of_type "view" transformed_ddl in
  let deferred_fks := of_type "constraint" transformed_ddl in
  let ordered_tables := _sort_by_dependency tables dependency_order in
  let p := fold_left test_ddl ordered_tables ([], sandbox_results, []) in
  let p := fold_left test_ddl indexes p in
  let p := fold_left test_ddl deferred_fks p in
  let '(tested, sandbox_results, executed) := fold_left test_view views p in
  let '(tested_procedures, sandbox_results, executed) :=
    fold_left test_procedure (MigrationState.converted_procedures state)
              ([], sandbox_results, executed) in
  mk_pass tested tested_procedures executed
    (if save_sandbox_results sandbox_results then Some sandbox_results else None).

(** The statements one test of a DDL object executes: its [target_ddl],
    and, when that fails and [_attempt_fix] changes it, the changed DDL. *)
Definition runs_ddl (ddl : TransformedDDL.t) (statements : list execution) : Prop :=
  let target_ddl := TransformedDDL.target_ddl ddl in
  statements = [(target_ddl, None)]
  \/ exists error,
       let fixed_ddl := _attempt_fix sub_schema_prefix sub_engine_clause
                          target_ddl error in
       (fixed_ddl = target_ddl /\ statements = [(target_ddl, Some error)])
       \/ (fixed_ddl <> target_ddl
           /\ exists answer,
                statements = [(target_ddl, Some error); (fixed_ddl, answer)]).

(** The one statement the test of a procedure executes. *)
Definition runs_procedure (proc : ConvertedProcedure.t) (statements : list execution)
    : Prop :=
  exists answer, statements = [(ConvertedProcedure.target_code proc, answer)].

End Pass.

(** A sandbox that accepts every statement, and a state that lists its
    DDL objects against the order of the phases. *)
Definition accepting_sandbox (executed : list execution) (ddl : string)
    : option string := None.

Definition unordered_state : MigrationState.t :=
  MigrationState.mk []
    [ TransformedDDL.mk "actor_info" "view" "" "CREATE VIEW actor_info" PENDING;
      TransformedDDL.mk "fk_city_country" "constraint" "" "ALTER TABLE city" PENDING;
      TransformedDDL.mk "idx_city" "index" "" "CREATE INDEX idx_city" PENDING;
      TransformedDDL.mk "city" "table" "" "CREATE TABLE city" PENDING;
      TransformedDDL.mk "country" "table" "" "CREATE TABLE country" PENDING ]
    [ ConvertedProcedure.mk "film_in_stock" "procedure" "" "CREATE FUNCTION film_in_stock"
        PENDING ]
    [] 0 0.

End SandboxRun.

(** * One table of the data migration agent
      (src/agents/data_migration_agent.py, [DataMigrationAgent._migrate_table])

    The source and the target are outside the program, as for the data
    migrator.  The values of a source row are objects of the database
    driver; what [_insert_batch] makes of them (the handlers of
    [SPECIAL_COLUMN_HANDLERS] and [TYPE_CONVERTERS], chosen by the cached
    column types) is a parameter that gives the row dictionaries or
    raises.  The duration is left out of the result. *)

Module MigrateTableResult.
Record t : Type := mk {
  table : string;
  success : bool;
  rows_migrated : Z;
  error : option string
}.
End MigrateTableResult.

Module DataMigrationAgentRun.
Import PyStr PyVal.
Export DataMigrator (row, db_result, DbOk, DbError, outcome, Returns, Throws, Unfinished).

(** A row as the source cursor yields it. *)
Definition source_row : Type := list PyVal.t.

(** The statements the agent sends to the target for a table. *)
Inductive target_statement : Type :=
| DeleteFrom (table_name : string)
| InsertInto (table_name : string) (columns : list string).

(** The table a statement names. *)
Definition table_of_statement (statement : target_statement) : string :=
  match statement with
  | DeleteFrom table_name => table_name
  | InsertInto table_name _ => table_name
  end.

(** The text of a statement, as the f-strings build it. *)
Definition sql_text (statement : target_statement) : string :=
  match statement with
  | DeleteFrom table_name => "DELETE FROM " +:+ quoted table_name
  | InsertInto table_name columns =>
      let pg_cols := join ", " (quoted <$> columns) in
      let placeholders := join ", " ((fun c => ":" +:+ c) <$> columns) in
      "INSERT INTO " +:+ quoted table_name +:+ " (" +:+ pg_cols +:+ ") VALUES ("
        +:+ placeholders +:+ ")"
  end.

(** A statement sent to the target with its rows, and the answer: the
    text of the exception, or [None]. *)
Record target_call : Type := mk_target_call {
  statement : target_statement;
  parameters : list row;
  answer : option string
}.

(** [self.batch_size] *)
Definition batch_size : Z := 1000.

(** The query for the column names, and the page query. *)
Definition select_sql (table_name : string) (columns : list string) : string :=
  let mysql_cols := join ", " ((fun c => backtick +:+ c +:+ backtick) <$> columns) in
  "SELECT " +:+ mysql_cols +:+ " FROM " +:+ backtick +:+ table_name +:+ backtick
    +:+ " LIMIT :limit OFFSET :offset".

Section Agent.

(** The source's answer to the query for the column names of a table. *)
Variable column_names : string -> db_result (list string).

(** The source's answer to a page query with its limit and offset. *)
Variable select_page : string -> Z -> Z -> db_result (list source_row).

(** The row dictionaries [_insert_batch] builds for a batch. *)
Variable convert_rows : string -> list string -> list source_row -> db_result (list row).

(** The target's answer to the text of a statement and its rows, given
    the calls made before. *)
Variable target_error : list target_call -> string -> list row -> option string.

Definition execute (statement : target_statement) (rows : list row)
    (calls : list target_call) : option string * list target_call :=
  let answer := target_error calls (sql_text statement) rows in
  (answer, calls ++ [mk_target_call statement rows answer]).

(** [_insert_batch]: it returns, or an exception leaves it. *)
Definition _insert_batch (table_name : string) (columns : list string)
    (rows : list source_row) (calls : list target_call)
    : db_result unit * list target_call :=
  match rows with
  | [] => (DbOk tt, calls)
  | _ =>
      match convert_rows table_name columns rows with
      | DbError e => (DbError e, calls)
      | DbOk transformed_rows =>
          match execute (InsertInto table_name columns) transformed_rows calls with
          | (None, calls) => (DbOk tt, calls)
          | (Some e, calls) => (DbError e, calls)
          end
      end
  end.

(** The loop [while True] of [_migrate_table]: the number of rows, or the
    exception that leaves the loop. *)
Fixpoint stream_batches (fuel : nat) (table_name : string) (columns : list string)
    (offset total_rows : Z) (calls : list target_call)
    : outcome (db_result Z * list target_call) :=
  match fuel with
  | O => Unfinished
  | S fuel' =>
      match select_page (select_sql table_name columns) batch_size offset with
      | DbError e => Returns (DbError e, calls)
      | DbOk [] => Returns (DbOk total_rows, calls)
      | DbOk rows =>
          match _insert_batch table_name columns rows calls with
          | (DbError e, calls) => Returns (DbError e, calls)
          | (DbOk _, calls) =>
              stream_batches fuel' table_name columns (offset + batch_size)
                             (total_rows + Z.of_nat (length rows)) calls
          end
      end
  end.

(** [_migrate_table]: every exception ends in the result. *)
Definition _migrate_table (fuel : nat) (table_name : string) (calls : list target_call)
    : outcome (MigrateTableResult.t * list target_call) :=
  let failed error := MigrateTableResult.mk table_name false 0 (Some error) in
  match column_names table_name with
  | DbError e => Returns (failed e, calls)
  | DbOk [] => Returns (failed "No columns found", calls)
  | DbOk columns =>
      match execute (DeleteFrom table_name) [] calls with
      | (Some e, calls) => Returns (failed e, calls)
      | (None, calls) =>
          match stream_batches fuel table_name columns 0 0 calls with
          | Unfinished => Unfinished
          | Throws e => Throws e
          | Returns (DbError e, calls) => Returns (failed e, calls)
          | Returns (DbOk total_rows, calls) =>
              Returns (MigrateTableResult.mk table_name true total_rows None, calls)
          end
      end
  end.

End Agent.

(** ** A destination that does what the statements say

    The rows of its tables after a call: a statement that raised changes
    nothing, [DELETE FROM] a table leaves the table without rows, [INSERT
    INTO] a table adds the rows of the call to it. *)
Notation destination := (gmap string (list row)) (only parsing).

Definition rows_of (db : destination) (table_name : string) : list row :=
  default [] (db !! table_name).

Definition apply_call (db : destination) (call : target_call) : destination :=
  match answer call with
  | Some _ => db
  | None =>
      match statement call with
      | DeleteFrom table_name => <[table_name := []]> db
      | InsertInto table_name _ =>
          <[table_name := rows_of db table_name ++ parameters call]> db
      end
  end.

Definition after (db : destination) (calls : list target_call) : destination :=
  fold_left apply_call calls db.

(** The rows of the calls the target accepted. *)
Definition accepted (calls : list target_call) : list row :=
  flat_map (fun call => match answer call with
                        | None => parameters call
                        | Some _ => []
                        end) calls.

(** A source with the three actors, a conversion that names the values of
    a row by the columns, and a target that accepts every statement. *)
Definition actor_column_names (table_name : string) : db_result (list string) :=
  DbOk ["actor_id"; "first_name"].

Definition actor_pages (query : string) (limit offset : Z)
    : db_result (list source_row) :=
  DbOk (firstn (Z.to_nat limit)
          (skipn (Z.to_nat offset)
             [[VInt 1; VStr "PENELOPE"]; [VInt 2; VStr "NICK"]; [VInt 3; VStr "ED"]])).

Definition name_values (table_name : string) (columns : list string)
    (rows : list source_row) : db_result (list row) :=
  DbOk ((fun values =>
           fold_left (fun d '(col, value) => PyDict.set col value d)
                     (zip columns values) PyDict.empty) <$> rows).

Definition accepting_target (calls : list target_call) (sql : string) (rows : list row)
    : option string := None.

End DataMigrationAgentRun.
(** * Properties *)

Ltac splits := repeat match goal with |- _ /\ _ => split end.

(** ** Outcome monad *)

Lemma res_bind_Ok {A B} (m : res A) (k : A -> res B) (b : B) :
  res_bind m k = Ok b -> exists a, m = Ok a /\ k a = Ok b.
Proof. destruct m; simpl; intros H; try discriminate. eauto. Qed.

(** ** Ordered dictionaries *)

Module PyDictFacts.
Import PyDict.

Lemma mem_true {V} (k : string) (d : t V) :
  wf d -> mem k d = true <-> k ∈ keys d.
Proof.
  intros [_ Hk]. unfold mem. rewrite bool_decide_eq_true. symmetry. apply Hk.
Qed.

Lemma mem_false {V} (k : string) (d : t V) :
  wf d -> mem k d = false <-> k ∉ keys d.
Proof.
  intros Hwf. rewrite <- (mem_true k d Hwf). destruct (mem k d); split; congruence.
Qed.

Lemma store_set {V} (k : string) (v : V) (d : t V) :
  store (set k v d) = <[k:=v]> (store d).
Proof. unfold set. destruct (mem k d); reflexivity. Qed.

Lemma keys_set_in {V} (k : string) (v : V) (d : t V) :
  wf d -> k ∈ keys d -> keys (set k v d) = keys d.
Proof.
  intros Hwf Hin. unfold set. apply (mem_true k d Hwf) in Hin. rewrite Hin. reflexivity.
Qed.

Lemma keys_set_notin {V} (k : string) (v : V) (d : t V) :
  wf d -> k ∉ keys d -> keys (set k v d) = keys d ++ [k].
Proof.
  intros Hwf Hin. unfold set. apply (mem_false k d Hwf) in Hin. rewrite Hin. reflexivity.
Qed.

Lemma wf_empty {V} : wf (@empty V).
Proof.
  split; [constructor|]. intros k. simpl. rewrite lookup_empty.
  split; [intros H; inversion H | intros [x Hx]; discriminate].
Qed.

Lemma wf_set {V} (k : string) (v : V) (d : t V) : wf d -> wf (set k v d).
Proof.
  intros Hwf. destruct (decide (k ∈ keys d)) as [Hin|Hin].
  - split.
    + rewrite keys_set_in by assumption. apply Hwf.
    + intros k'. rewrite keys_set_in, store_set by assumption.
      destruct (decide (k = k')) as [<-|Hne].
      * rewrite lookup_insert_eq. split; eauto.
      * rewrite lookup_insert_ne by assumption. apply Hwf.
  - split.
    + rewrite keys_set_notin by assumption.
      apply NoDup_app. split; [apply Hwf|]. split.
      * intros x Hx Hx'. apply list_elem_of_singleton in Hx'. congruence.
      * apply NoDup_singleton.
    + intros k'. rewrite keys_set_notin, store_set by assumption.
      rewrite elem_of_app, list_elem_of_singleton.
      destruct (decide (k = k')) as [<-|Hne].
      * rewrite lookup_insert_eq. split; eauto.
      * rewrite lookup_insert_ne by assumption.
        destruct Hwf as [_ Hk]. rewrite Hk. split; [intros [?|?]; [assumption|congruence] | auto].
Qed.

Lemma getitem_Some {V} (k : string) (d : t V) (v : V) :
  store d !! k = Some v -> getitem k d = Ok v.
Proof. unfold getitem. intros ->. reflexivity. Qed.

End PyDictFacts.

(** ** Positions in a list *)

Module GraphFacts.
Import Graph.

Lemma index_of_Some (x : string) (l : list string) :
  x ∈ l -> exists i, index_of x l = Some i /\ (i < length l)%nat.
Proof.
  induction l as [|y l IH]; intros Hin.
  - inversion Hin.
  - simpl. destruct (decide (x = y)) as [->|Hne].
    + exists 0%nat. split; [reflexivity | lia].
    + apply elem_of_cons in Hin as [?|Hin]; [congruence|].
      destruct (IH Hin) as (i & -> & Hi). exists (S i). split; [reflexivity | lia].
Qed.

Lemma index_of_app_l (x : string) (l l' : list string) (i : nat) :
  index_of x l = Some i -> index_of x (l ++ l') = Some i.
Proof.
  revert i. induction l as [|y l IH]; intros i; simpl; [discriminate|].
  destruct (decide (x = y)); [trivial|].
  destruct (index_of x l) as [j|]; simpl; [|discriminate].
  intros [= <-]. rewrite (IH j eq_refl). reflexivity.
Qed.

Lemma index_of_app_r (x : string) (l l' : list string) :
  x ∉ l -> index_of x (l ++ l') = (fun i => (length l + i)%nat) <$> index_of x l'.
Proof.
  induction l as [|y l IH]; intros Hnin; simpl.
  - destruct (index_of x l'); reflexivity.
  - apply not_elem_of_cons in Hnin as [Hne Hnin].
    destruct (decide (x = y)); [congruence|].
    rewrite (IH Hnin). destruct (index_of x l'); reflexivity.
Qed.

Lemma precedes_app_l (l l' : list string) (b a : string) :
  precedes l b a -> precedes (l ++ l') b a.
Proof.
  intros (i & j & Hi & Hj & Hlt). exists i, j.
  split; [|split]; auto using index_of_app_l.
Qed.

Lemma precedes_snoc (l : list string) (b a : string) :
  b ∈ l -> a ∉ l -> precedes (l ++ [a]) b a.
Proof.
  intros Hb Ha. destruct (index_of_Some b l Hb) as (i & Hi & Hlt).
  exists i, (length l + 0)%nat. split; [|split].
  - apply index_of_app_l, Hi.
  - rewrite index_of_app_r by assumption. simpl.
    destruct (decide (a = a)); [reflexivity | congruence].
  - lia.
Qed.

(** *** First occurrences *)

Lemma elem_of_first_occ (x : string) (l : list string) :
  x ∈ first_occ l <-> x ∈ l.
Proof.
  induction l as [|y l IH]; simpl; [reflexivity|].
  rewrite !elem_of_cons, list_elem_of_filter, IH.
  destruct (decide (x = y)); tauto.
Qed.

Lemma NoDup_first_occ (l : list string) : NoDup (first_occ l).
Proof.
  induction l as [|y l IH]; simpl; constructor.
  - rewrite list_elem_of_filter. tauto.
  - apply NoDup_filter, IH.
Qed.

Lemma filter_ext_in (P Q : string -> Prop) `{!forall x, Decision (P x)}
    `{!forall x, Decision (Q x)} (l : list string) :
  (forall x, x ∈ l -> P x <-> Q x) -> filter P l = filter Q l.
Proof.
  induction l as [|y l IH]; intros Hext; [reflexivity|].
  rewrite !filter_cons.
  assert (Hy : P y <-> Q y) by (apply Hext; left).
  rewrite IH by (intros x Hx; apply Hext; right; exact Hx).
  destruct (decide (P y)), (decide (Q y)); tauto.
Qed.

Lemma filter_filter (P Q : string -> Prop) `{!forall x, Decision (P x)}
    `{!forall x, Decision (Q x)} (l : list string) :
  filter P (filter Q l) = filter (fun x => P x /\ Q x) l.
Proof.
  induction l as [|y l IH]; [reflexivity|].
  rewrite !(filter_cons _ y).
  destruct (decide (Q y)) as [HQ|HQ].
  - rewrite filter_cons, IH.
    destruct (decide (P y)), (decide (P y /\ Q y)); tauto.
  - rewrite IH. destruct (decide (P y /\ Q y)); tauto.
Qed.

End GraphFacts.

(** ** Building the adjacency lists and the in-degrees *)

Module BuildFacts.
Import PyDict PyDictFacts Graph GraphFacts DependencyAgent.

Lemma filter_notin_nil (l : list string) : filter (fun y => y ∉ []) l = l.
Proof.
  induction l as [|y l IH]; [reflexivity|].
  rewrite filter_cons, IH. destruct (decide (y ∉ [])) as [_|Hn]; [reflexivity|].
  exfalso. apply Hn. intros Hin. inversion Hin.
Qed.

(** A dict comprehension [{node.id: v for node in nodes}], started from
    any dictionary. *)
Lemma comprehension_spec {V} (v : V) (nodes : list DependencyNode) (d : t V) :
  wf d ->
  let d' := fold_left (fun d n => set (id n) v d) nodes d in
  wf d'
  /\ keys d' = keys d ++ filter (fun y => y ∉ keys d) (first_occ (id <$> nodes))
  /\ forall k, store d' !! k
               = if decide (k ∈ id <$> nodes) then Some v else store d !! k.
Proof.
  revert d. induction nodes as [|n ns IH]; intros d Hwf; simpl.
  - split; [assumption|]. split; [rewrite filter_nil, app_nil_r; reflexivity|].
    intros k. destruct (decide (k ∈ [])) as [Hin|_]; [inversion Hin | reflexivity].
  - destruct (IH (set (id n) v d) (wf_set _ _ _ Hwf)) as (Hwf' & Hkeys & Hstore).
    split; [assumption|]. split.
    + rewrite Hkeys, filter_cons.
      destruct (decide (id n ∈ keys d)) as [Hin|Hnin].
      * rewrite keys_set_in by assumption.
        destruct (decide (id n ∉ keys d)) as [?|_]; [contradiction|].
        rewrite filter_filter. f_equal. apply filter_ext_in.
        intros x _. split; [|tauto]. intros Hx. split; [exact Hx|congruence].
      * rewrite keys_set_notin by assumption.
        destruct (decide (id n ∉ keys d)) as [_|?]; [|contradiction].
        rewrite filter_filter, <- app_assoc. simpl. do 2 f_equal.
        apply filter_ext_in. intros x _.
        rewrite not_elem_of_app, list_elem_of_singleton. reflexivity.
    + intros k. rewrite Hstore, store_set. change (id <$> n :: ns) with (id n :: (id <$> ns)).
      destruct (decide (k = id n)) as [->|Hne];
        [rewrite lookup_insert_eq | rewrite lookup_insert_ne by congruence];
        repeat case_decide; try reflexivity; exfalso; set_solver.
Qed.

Lemma init_spec {V} (v : V) (nodes : list DependencyNode) :
  let d := fold_left (fun d n => set (id n) v d) nodes empty in
  wf d /\ keys d = first_occ (id <$> nodes)
  /\ forall k, k ∈ keys d -> store d !! k = Some v.
Proof.
  destruct (comprehension_spec v nodes empty wf_empty) as (Hwf & Hkeys & Hstore).
  simpl in *. rewrite filter_notin_nil in Hkeys.
  split; [assumption|]. split; [assumption|].
  intros k Hk. rewrite Hstore. rewrite Hkeys, elem_of_first_occ in Hk.
  destruct (decide (k ∈ id <$> nodes)); [reflexivity|contradiction].
Qed.

Lemma deps_of_cons K e L x :
  deps_of K (e :: L) x
  = if decide (valid K e /\ to_id e = x) then from_id e :: deps_of K L x
    else deps_of K L x.
Proof.
  unfold deps_of. rewrite filter_cons.
  destruct (decide (valid K e /\ to_id e = x)); reflexivity.
Qed.

Lemma pending_cons K e L done k :
  pending K (e :: L) done k
  = ((if decide (valid K e /\ from_id e = k /\ to_id e ∉ done) then 1 else 0)
     + pending K L done k)%nat.
Proof.
  unfold pending. rewrite filter_cons.
  destruct (decide (valid K e /\ from_id e = k /\ to_id e ∉ done)); reflexivity.
Qed.

(** The loop over the edges never raises; afterwards [graph[x]] lists the
    dependents of [x] and [in_degree[k]] counts the edges out of [k]. *)
Lemma build_spec (K : list string) (L : list DependencyEdge)
    (g : t (list string)) (i : t Z) :
  wf g -> wf i -> keys g = K -> keys i = K ->
  exists g' i',
    foldM add_edge L (g, i) = Ok (g', i')
    /\ wf g' /\ wf i' /\ keys g' = K /\ keys i' = K
    /\ (forall k, store g' !! k = (fun l => l ++ deps_of K L k) <$> store g !! k)
    /\ (forall k, store i' !! k
                  = (fun z => z + Z.of_nat (pending K L [] k)) <$> store i !! k).
Proof.
  revert g i. induction L as [|e L IH]; intros g i Hg Hi Kg Ki.
  - exists g, i. simpl. splits; try assumption; try reflexivity.
    + intros k. unfold deps_of. rewrite filter_nil. simpl.
      destruct (store g !! k); simpl; [rewrite app_nil_r|]; reflexivity.
    + intros k. unfold pending. rewrite filter_nil. simpl.
      destruct (store i !! k); simpl; [rewrite Z.add_0_r|]; reflexivity.
  - simpl. destruct (decide (valid K e)) as [Hv|Hv].
    + destruct Hv as [Hf Ht].
      assert (Hmf : mem (from_id e) g = true) by (apply mem_true; [|rewrite Kg]; assumption).
      assert (Hmt : mem (to_id e) g = true) by (apply mem_true; [|rewrite Kg]; assumption).
      rewrite Hmf, Hmt. simpl.
      destruct (proj1 (proj2 Hg (to_id e))) as [targets Htg]; [rewrite Kg; exact Ht|].
      destruct (proj1 (proj2 Hi (from_id e))) as [d Hd]; [rewrite Ki; exact Hf|].
      rewrite (getitem_Some _ _ _ Htg). simpl.
      rewrite (getitem_Some _ _ _ Hd). simpl.
      destruct (IH (set (to_id e) (targets ++ [from_id e]) g)
                   (set (from_id e) (d + 1) i)) as (g' & i' & Hrun & Hg' & Hi' & Kg' & Ki' & Sg & Si).
      * apply wf_set, Hg.
      * apply wf_set, Hi.
      * rewrite keys_set_in; [assumption.. | rewrite Kg; exact Ht].
      * rewrite keys_set_in; [assumption.. | rewrite Ki; exact Hf].
      * exists g', i'. split; [exact Hrun|]. splits; try assumption.
        -- intros k. rewrite Sg, store_set, deps_of_cons.
           destruct (decide (to_id e = k)) as [<-|Hne].
           ++ rewrite lookup_insert_eq, Htg. simpl.
              destruct (decide (valid K e /\ to_id e = to_id e)) as [_|Hn].
              ** rewrite <- app_assoc. reflexivity.
              ** exfalso. apply Hn. split; [split; assumption | reflexivity].
           ++ rewrite lookup_insert_ne by assumption.
              destruct (decide (valid K e /\ to_id e = k)) as [[_ ?]|_]; [contradiction|].
              reflexivity.
        -- intros k. rewrite Si, store_set, pending_cons.
           destruct (decide (from_id e = k)) as [<-|Hne].
           ++ rewrite lookup_insert_eq, Hd. simpl.
              destruct (decide (valid K e /\ from_id e = from_id e /\ to_id e ∉ [])) as [_|Hn].
              ** f_equal. lia.
              ** exfalso. apply Hn. split; [split; assumption|].
                 split; [reflexivity|]. intros Hin. inversion Hin.
           ++ rewrite lookup_insert_ne by assumption.
              destruct (decide (valid K e /\ from_id e = k /\ to_id e ∉ [])) as [(_ & ? & _)|_];
                [contradiction|]. reflexivity.
    + assert (Hm : mem (from_id e) g && mem (to_id e) g = false).
      { apply andb_false_iff.
        destruct (decide (from_id e ∈ K)) as [Hf|Hf].
        - right. apply mem_false; [assumption|]. rewrite Kg. intros Ht. apply Hv. split; assumption.
        - left. apply mem_false; [assumption|]. rewrite Kg. exact Hf. }
      rewrite Hm. simpl.
      destruct (IH g i Hg Hi Kg Ki) as (g' & i' & Hrun & Hg' & Hi' & Kg' & Ki' & Sg & Si).
      exists g', i'. split; [exact Hrun|]. splits; try assumption.
      * intros k. rewrite Sg, deps_of_cons.
        destruct (decide (valid K e /\ to_id e = k)) as [[? _]|_]; [contradiction|reflexivity].
      * intros k. rewrite Si, pending_cons.
        destruct (decide (valid K e /\ from_id e = k /\ to_id e ∉ [])) as [[? _]|_];
          [contradiction|reflexivity].
Qed.

End BuildFacts.

(** ** The queue loop *)

Module LoopFacts.
Import PyDict PyDictFacts Graph GraphFacts DependencyAgent BuildFacts.

Lemma occ_cons k d ds :
  occ k (d :: ds) = ((if decide (d = k) then 1 else 0) + occ k ds)%nat.
Proof. unfold occ. rewrite filter_cons. destruct (decide (d = k)); reflexivity. Qed.

Lemma occ_pos_elem k ds : (1 <= occ k ds)%nat -> k ∈ ds.
Proof.
  induction ds as [|d ds IH]; [unfold occ; simpl; lia|].
  rewrite occ_cons. destruct (decide (d = k)) as [->|_]; [left|].
  intros H. right. apply IH. lia.
Qed.

(** The loop over the dependents of a dequeued node: every in-degree
    drops by the number of edges into the node, and the nodes whose
    in-degree becomes zero join the queue, each once. *)
Lemma visit_spec (K : list string) (deps : list string) (i : t Z) (q : list string) :
  wf i -> keys i = K -> (forall d, d ∈ deps -> d ∈ K) ->
  exists i' new,
    foldM visit_dependent deps (i, q) = Ok (i', q ++ new)
    /\ wf i' /\ keys i' = K
    /\ (forall k, store i' !! k = (fun z => z - Z.of_nat (occ k deps)) <$> store i !! k)
    /\ NoDup new
    /\ (forall k, k ∈ new <->
          exists z, store i !! k = Some z /\ 1 <= z <= Z.of_nat (occ k deps)).
Proof.
  revert i q. induction deps as [|d ds IH]; intros i q Hwf Hk Hin.
  - exists i, []. simpl. rewrite app_nil_r. splits; try assumption; try reflexivity.
    + intros k. destruct (store i !! k); simpl; [f_equal; unfold occ; simpl; lia | reflexivity].
    + constructor.
    + intros k. split; [intros H; inversion H|].
      intros (z & _ & Hz). unfold occ in Hz. simpl in Hz. lia.
  - simpl.
    assert (Hd : d ∈ keys i) by (rewrite Hk; apply Hin; left).
    destruct (proj1 (proj2 Hwf d) Hd) as [z Hz].
    rewrite (getitem_Some _ _ _ Hz). simpl.
    assert (Hz1 : store (set d (z - 1) i) !! d = Some (z - 1))
      by (rewrite store_set; apply lookup_insert_eq).
    rewrite (getitem_Some _ _ _ Hz1). simpl.
    destruct (IH (set d (z - 1) i) (if z - 1 =? 0 then q ++ [d] else q))
      as (i' & new' & Hrun & Hwf' & Hk' & Hst & Hnd & Hnew).
    + apply wf_set, Hwf.
    + rewrite keys_set_in; assumption.
    + intros d' Hd'. apply Hin. right. exact Hd'.
    + exists i', ((if z - 1 =? 0 then [d] else []) ++ new').
      split.
      { rewrite Hrun. f_equal. f_equal.
        destruct (z - 1 =? 0); [rewrite <- app_assoc|]; reflexivity. }
      split; [assumption|]. split; [assumption|]. split; [|split].
      * intros k. rewrite Hst, store_set, occ_cons.
        destruct (decide (d = k)) as [<-|Hne].
        -- rewrite lookup_insert_eq, Hz. simpl. f_equal. lia.
        -- rewrite lookup_insert_ne by assumption.
           destruct (store i !! k); simpl; [f_equal; lia | reflexivity].
      * destruct (Z.eqb_spec (z - 1) 0) as [Hz0|Hz0]; simpl; [|assumption].
        constructor; [|assumption].
        rewrite Hnew. intros (z' & Hz' & Hle).
        rewrite Hz1 in Hz'. injection Hz' as <-. lia.
      * intros k. rewrite elem_of_app, Hnew, store_set, occ_cons.
        destruct (decide (d = k)) as [<-|Hne].
        -- rewrite lookup_insert_eq, Hz. split.
           ++ intros [Hin1|(z' & [= <-] & Hle)].
              ** destruct (Z.eqb_spec (z - 1) 0); [|inversion Hin1].
                 exists z. split; [reflexivity|lia].
              ** exists z. split; [reflexivity|lia].
           ++ intros (z' & [= <-] & Hle).
              destruct (Z.eqb_spec (z - 1) 0) as [Hz0|Hz0]; [left; left|].
              right. exists (z - 1). split; [reflexivity|lia].
        -- rewrite lookup_insert_ne by assumption. split.
           ++ intros [Hin1|Hr]; [|exact Hr].
              destruct (z - 1 =? 0); [|inversion Hin1].
              apply list_elem_of_singleton in Hin1. congruence.
           ++ intros Hr. right. exact Hr.
Qed.

Lemma deps_of_in_K K E x d : d ∈ deps_of K E x -> d ∈ K.
Proof.
  unfold deps_of. rewrite list_elem_of_fmap.
  intros (e & -> & He). apply list_elem_of_filter in He as [[[Hf _] _] _]. exact Hf.
Qed.

(** Moving [x] into the finished part removes exactly the edges into
    [x] from the pending count of every node. *)
Lemma pending_snoc K E done x k :
  x ∉ done ->
  pending K E done k
  = (pending K E (done ++ [x]) k + occ k (deps_of K E x))%nat.
Proof.
  intros Hx. induction E as [|e E IH].
  - reflexivity.
  - rewrite !pending_cons, deps_of_cons, IH.
    assert (Hsn : to_id e ∉ done ++ [x] <-> (to_id e ∉ done) /\ to_id e <> x)
      by (rewrite not_elem_of_app, list_elem_of_singleton; reflexivity).
    destruct (decide (valid K e /\ to_id e = x)) as [[Hv Ht]|Hn1];
      [rewrite occ_cons|];
      repeat case_decide; try lia; exfalso; try tauto; subst x; tauto.
Qed.

Lemma NoDup_length_le (l K : list string) :
  NoDup l -> (forall x, x ∈ l -> x ∈ K) -> (length l <= length K)%nat.
Proof. intros Hnd Hsub. apply submseteq_length, NoDup_submseteq; assumption. Qed.

Section Loop.
Context (K : list string) (E : list DependencyEdge) (graph : t (list string)).
Hypothesis Hgraph : forall k, k ∈ K -> store graph !! k = Some (deps_of K E k).

(** One iteration: dequeue [x], visit its dependents. *)
Lemma kahn_step (i : t Z) (x : string) (q done : list string) :
  kahn_inv K E i (x :: q) done ->
  exists i' new,
    foldM visit_dependent (default [] (get x graph)) (i, q) = Ok (i', q ++ new)
    /\ kahn_inv K E i' (q ++ new) (done ++ [x]).
Proof.
  intros (Hwf & Hk & Hnd & Hsub & Hst & Hzero & Hord).
  assert (HxK : x ∈ K) by (apply Hsub; rewrite elem_of_app; right; left).
  assert (Hxnd : x ∉ done).
  { apply NoDup_app in Hnd as (_ & Hd & _). intros Hin. apply (Hd x Hin). left. }
  assert (Hx0 : pending K E done x = 0%nat).
  { apply (Hzero x HxK). rewrite elem_of_app. right. left. }
  unfold get. rewrite (Hgraph x HxK). simpl.
  destruct (visit_spec K (deps_of K E x) i q Hwf Hk (deps_of_in_K K E x))
    as (i' & new & Hrun & Hwf' & Hk' & Hst' & Hndn & Hnew).
  exists i', new. split; [exact Hrun|].
  assert (HnewK : forall k, k ∈ new -> k ∈ K /\ (1 <= pending K E done k)%nat
                               /\ (pending K E done k <= occ k (deps_of K E x))%nat).
  { intros k Hin. apply Hnew in Hin as (z & Hz & Hle).
    assert (HkK : k ∈ K) by (rewrite <- Hk; apply (proj2 Hwf); eauto).
    rewrite (Hst k HkK) in Hz. injection Hz as <-. split; [assumption|]. lia. }
  assert (Heq : (done ++ [x]) ++ q ++ new = (done ++ x :: q) ++ new)
    by (rewrite <- !app_assoc; reflexivity).
  unfold kahn_inv. rewrite Heq. splits; try assumption.
  - apply NoDup_app. split; [assumption|]. split; [|assumption].
    intros k Hold Hknew. destruct (HnewK k Hknew) as (HkK & Hpos & _).
    apply (Hzero k HkK) in Hold. lia.
  - intros k. rewrite elem_of_app. intros [Hold|Hknew]; [auto|].
    apply (HnewK k Hknew).
  - intros k HkK. rewrite Hst', (Hst k HkK). simpl. f_equal.
    rewrite (pending_snoc K E done x k Hxnd). lia.
  - intros k HkK. rewrite elem_of_app.
    pose proof (pending_snoc K E done x k Hxnd) as Hps.
    split.
    + intros [Hold|Hknew].
      * apply (Hzero k HkK) in Hold. lia.
      * destruct (HnewK k Hknew) as (_ & _ & Hle). lia.
    + intros Hz.
      destruct (decide (pending K E done k = 0%nat)) as [H0|Hpos].
      * left. apply (Hzero k HkK). exact H0.
      * right. apply Hnew. exists (Z.of_nat (pending K E done k)).
        split; [apply Hst, HkK | lia].
  - intros e He Hv. rewrite elem_of_app, list_elem_of_singleton.
    intros [Hfd|Hfx].
    + apply precedes_app_l, Hord; assumption.
    + rewrite Hfx. apply precedes_snoc; [|exact Hxnd].
      destruct (decide (to_id e ∈ done)) as [Hin|Hnin]; [exact Hin|].
      exfalso.
      assert (Hpos : (1 <= pending K E done x)%nat); [|lia].
      unfold pending.
      assert (Hef : e ∈ filter (fun e => valid K e /\ from_id e = x /\ to_id e ∉ done) E)
        by (apply list_elem_of_filter; auto).
      destruct (filter _ E); [inversion Hef | simpl; lia].
Qed.

(** The loop runs to an empty queue within the fuel and keeps the
    invariant. *)
Lemma kahn_loop_spec (fuel : nat) (i : t Z) (q done : list string) :
  NoDup K ->
  kahn_inv K E i q done ->
  (length K <= fuel + length done)%nat ->
  exists i' done' rest,
    kahn_loop fuel graph i q done = Ok (i', done')
    /\ done' = done ++ rest
    /\ kahn_inv K E i' [] done'.
Proof.
  intros HK. revert i q done.
  induction fuel as [|fuel IH]; intros i q done Hinv Hfuel.
  - destruct q as [|x q].
    + exists i, done, []. simpl. rewrite app_nil_r. auto.
    + exfalso. destruct Hinv as (_ & _ & Hnd & Hsub & _).
      pose proof (NoDup_length_le _ _ Hnd Hsub) as Hlen.
      rewrite length_app in Hlen. simpl in *. lia.
  - destruct q as [|x q].
    + exists i, done, []. simpl. rewrite app_nil_r. auto.
    + simpl. destruct (kahn_step i x q done Hinv) as (i' & new & Hrun & Hinv').
      rewrite Hrun. simpl.
      destruct (IH i' (q ++ new) (done ++ [x]) Hinv') as (i'' & done' & rest & Hloop & Hd & Hfin).
      * rewrite length_app. simpl. lia.
      * exists i'', done', (x :: rest). split; [exact Hloop|].
        split; [rewrite Hd, <- app_assoc; reflexivity | exact Hfin].
Qed.

  End Loop.

End LoopFacts.

(** ** The sort as a whole *)

Module SortFacts.
Import PyDict PyDictFacts Graph GraphFacts DependencyAgent BuildFacts LoopFacts.

Lemma length_first_occ (l : list string) : (length (first_occ l) <= length l)%nat.
Proof.
  induction l as [|x l IH]; simpl; [lia|].
  pose proof (length_filter (fun y => y <> x) (first_occ l)). lia.
Qed.

Lemma zero_degree_spec (i : t Z) (f : string -> nat) :
  (forall k, k ∈ keys i -> store i !! k = Some (Z.of_nat (f k))) ->
  zero_degree i = filter (fun k => f k = 0%nat) (keys i).
Proof.
  unfold zero_degree, items. generalize (keys i) as L.
  induction L as [|k L IH]; intros Hst; [reflexivity|].
  cbn. rewrite (Hst k) by left. cbn.
  rewrite IH by (intros k' Hk'; apply Hst; right; exact Hk').
  destruct (Z.eqb_spec (Z.of_nat (f k)) 0) as [Hz|Hz];
    destruct (decide (f k = 0%nat)) as [Hd|Hd]; try reflexivity; lia.
Qed.

Lemma valid_first_occ (ids : list string) (e : DependencyEdge) :
  valid (first_occ ids) e <-> valid ids e.
Proof. unfold valid. rewrite !elem_of_first_occ. reflexivity. Qed.

Lemma chain_first_occ (ids : list string) (E : list DependencyEdge) n x :
  chain (first_occ ids) E n x -> chain ids E n x.
Proof.
  induction 1 as [x|n e He Hv _ IH]; [constructor|].
  apply chain_S; [assumption | apply valid_first_occ; assumption | exact IH].
Qed.

(** A node left out of the finished part still waits for another such
    node, and so on without end. *)
Lemma leftover_chain (K : list string) (E : list DependencyEdge) (i : t Z)
    (done : list string) :
  kahn_inv K E i [] done ->
  forall n x, x ∈ K -> x ∉ done -> chain K E n x.
Proof.
  intros (_ & _ & _ & _ & _ & Hzero & _).
  induction n as [|n IH]; intros x HxK Hx; [constructor|].
  assert (Hpos : pending K E done x <> 0%nat).
  { intros H0. apply Hx. apply (Hzero x HxK) in H0.
    rewrite app_nil_r in H0. exact H0. }
  unfold pending in Hpos.
  destruct (filter _ E) as [|e l] eqn:Hf; [contradiction|].
  assert (He : e ∈ e :: l) by left. rewrite <- Hf in He.
  apply list_elem_of_filter in He as [(Hv & Hfrom & Hto) He].
  rewrite <- Hfrom. apply chain_S; [assumption..|].
  apply IH; [apply Hv | exact Hto].
Qed.

(** The queue part of the sort: it never raises, never runs out of fuel,
    and ends in the invariant with an empty queue. *)
Lemma sort_core_spec (nodes : list DependencyNode) (edges : list DependencyEdge) :
  let K := first_occ (id <$> nodes) in
  exists i done,
    sort_core nodes edges = Ok (i, done) /\ kahn_inv K edges i [] done.
Proof.
  intros K. unfold sort_core.
  destruct (init_spec ([] : list string) nodes) as (Hg & Kg & Sg).
  destruct (init_spec 0 nodes) as (Hi & Ki & Si).
  fold (init_graph nodes) in Hg, Kg, Sg. fold (init_in_degree nodes) in Hi, Ki, Si.
  destruct (build_spec K edges _ _ Hg Hi Kg Ki)
    as (g' & i' & Hrun & Hg' & Hi' & Kg' & Ki' & Sg' & Si').
  rewrite Hrun. simpl.
  assert (Hst : forall k, k ∈ K -> store i' !! k = Some (Z.of_nat (pending K edges [] k))).
  { intros k Hk. rewrite Si', Si by (rewrite Ki; exact Hk). simpl. f_equal. }
  assert (Hgr : forall k, k ∈ K -> store g' !! k = Some (deps_of K edges k)).
  { intros k Hk. rewrite Sg', Sg by (rewrite Kg; exact Hk). reflexivity. }
  assert (Hq : zero_degree i' = filter (fun k => pending K edges [] k = 0%nat) K).
  { rewrite (zero_degree_spec i' (fun k => pending K edges [] k)).
    - rewrite Ki'. reflexivity.
    - intros k Hk. apply Hst. rewrite <- Ki'. exact Hk. }
  assert (HK : NoDup K) by apply NoDup_first_occ.
  destruct (kahn_loop_spec K edges g' Hgr (length nodes) i' (zero_degree i') [] HK)
    as (i'' & done & rest & Hloop & _ & Hfin).
  - unfold kahn_inv. simpl. rewrite Hq. splits; try assumption.
    + apply NoDup_filter, HK.
    + intros x Hx. apply list_elem_of_filter in Hx. tauto.
    + intros k Hk. rewrite list_elem_of_filter. tauto.
    + intros e _ _ Hin. inversion Hin.
  - simpl. pose proof (length_first_occ (id <$> nodes)) as Hlen.
    rewrite length_fmap in Hlen. unfold K. lia.
  - exists i'', done. split; [exact Hloop | exact Hfin].
Qed.

End SortFacts.

(** ** Python strings *)

Module PyStrFacts.
Import PyStr.

Lemma append_cons (c : ascii) (s t : string) :
  String c s +:+ t = String c (s +:+ t).
Proof. reflexivity. Qed.

Lemma append_nil_l (t : string) : "" +:+ t = t.
Proof. reflexivity. Qed.

Lemma append_nil_r (s : string) : s +:+ "" = s.
Proof.
  induction s as [|c s IH]; [reflexivity|]. rewrite append_cons, IH. reflexivity.
Qed.

Lemma append_assoc (a b c : string) : (a +:+ b) +:+ c = a +:+ (b +:+ c).
Proof.
  induction a as [|x a IH]; [reflexivity|]. rewrite !append_cons, IH. reflexivity.
Qed.

Lemma prefix_nil_l (s : string) : String.prefix "" s = true.
Proof. destruct s; reflexivity. Qed.

Lemma prefix_cons (a c : ascii) (p s : string) :
  String.prefix (String a p) (String c s) = Ascii.eqb a c && String.prefix p s.
Proof.
  simpl. destruct (Ascii.ascii_dec a c) as [->|Hne].
  - rewrite Ascii.eqb_refl. reflexivity.
  - apply Ascii.eqb_neq in Hne. rewrite Hne. reflexivity.
Qed.

(** *** Occurrences survive what is cut off in front *)

Lemma contains_cons_ne (pat : string) (c : ascii) (s : string) :
  first_char pat <> None -> first_char pat <> Some c ->
  contains pat (String c s) = contains pat s.
Proof.
  destruct pat as [|a p]; simpl; [congruence|]. intros _ Hne.
  destruct (Ascii.ascii_dec a c) as [->|Hac]; [congruence|]. reflexivity.
Qed.

Lemma startswith_split (p s : string) :
  startswith p s = true -> s = p +:+ drop (String.length p) s.
Proof.
  unfold startswith. revert s. induction p as [|a p IH]; intros s; [reflexivity|].
  destruct s as [|c s]; [discriminate|].
  rewrite prefix_cons. intros H. apply andb_true_iff in H as [Hac Hp].
  apply Ascii.eqb_eq in Hac. subst c. cbn [String.length drop].
  rewrite append_cons. f_equal. apply IH, Hp.
Qed.

Lemma contains_drop_prefix (pat p s : string) :
  first_char pat <> None ->
  all_chars (fun c => negb (bool_decide (first_char pat = Some c))) p = true ->
  contains pat (p +:+ s) = contains pat s.
Proof.
  intros Hpat. induction p as [|c p IH]; cbn [all_chars]; [reflexivity|].
  intros H. apply andb_true_iff in H as [Hc Hp].
  apply negb_true_iff, bool_decide_eq_false in Hc.
  rewrite append_cons, contains_cons_ne by assumption. apply IH, Hp.
Qed.

Lemma contains_lstrip (pat s : string) :
  first_char pat <> None ->
  (forall c, first_char pat = Some c -> is_space c = false) ->
  contains pat (lstrip s) = contains pat s.
Proof.
  intros Hpat Hsp. induction s as [|c s IH]; [reflexivity|].
  cbn [lstrip]. destruct (is_space c) eqn:Hc; [|reflexivity].
  rewrite IH. symmetry. apply contains_cons_ne; [assumption|].
  intros Hf. rewrite (Hsp c Hf) in Hc. discriminate.
Qed.

(** *** Occurrences survive what is cut off or added at the end *)

Lemma prefix_snoc (pat u : string) (c : ascii) :
  pat <> "" -> last_char pat <> Some c ->
  String.prefix pat (u +:+ String c "") = String.prefix pat u.
Proof.
  revert pat. induction u as [|d u IH]; intros pat Hne Hlast.
  - destruct pat as [|a p]; [congruence|].
    rewrite append_nil_l, prefix_cons. simpl.
    destruct p as [|b p]; simpl.
    + simpl in Hlast. destruct (Ascii.eqb_spec a c); [congruence|reflexivity].
    + apply andb_false_r.
  - destruct pat as [|a p]; [congruence|].
    rewrite append_cons, !prefix_cons. destruct p as [|b p].
    + rewrite !prefix_nil_l. reflexivity.
    + rewrite IH; [reflexivity | discriminate | exact Hlast].
Qed.

Lemma contains_snoc_ne (pat t : string) (c : ascii) :
  pat <> "" -> last_char pat <> Some c ->
  contains pat (t +:+ String c "") = contains pat t.
Proof.
  intros Hne Hlast. induction t as [|d t IH].
  - rewrite append_nil_l. cbn [contains].
    rewrite <- (append_nil_l (String c "")), prefix_snoc by assumption.
    rewrite orb_false_r. destruct pat; [congruence | reflexivity].
  - rewrite append_cons. cbn [contains].
    rewrite <- append_cons, prefix_snoc, IH by assumption. reflexivity.
Qed.

Lemma contains_drop_suffix (pat suf t : string) :
  pat <> "" ->
  all_chars (fun c => negb (bool_decide (last_char pat = Some c))) suf = true ->
  contains pat (t +:+ suf) = contains pat t.
Proof.
  intros Hne. revert t. induction suf as [|c suf IH]; intros t; cbn [all_chars].
  - intros _. rewrite append_nil_r. reflexivity.
  - intros H. apply andb_true_iff in H as [Hc Hs].
    apply negb_true_iff, bool_decide_eq_false in Hc.
    replace (t +:+ String c suf) with ((t +:+ String c "") +:+ suf)
      by (rewrite append_assoc; reflexivity).
    rewrite IH by exact Hs. apply contains_snoc_ne; assumption.
Qed.

Lemma length_ge_endswith (suf s : string) :
  endswith suf s = true -> (String.length suf <= String.length s)%nat.
Proof.
  induction s as [|c s IH]; cbn [endswith].
  - rewrite orb_false_r. intros H. apply String.eqb_eq in H. subst. simpl. lia.
  - intros H. apply orb_true_iff in H as [H|H].
    + apply String.eqb_eq in H. subst. simpl. lia.
    + specialize (IH H). simpl. lia.
Qed.

Lemma endswith_split (suf s : string) :
  endswith suf s = true -> s = drop_end (String.length suf) s +:+ suf.
Proof.
  unfold drop_end. induction s as [|c s IH].
  - cbn [endswith]. rewrite orb_false_r. intros H. apply String.eqb_eq in H.
    subst. reflexivity.
  - intros H. cbn [endswith] in H. apply orb_true_iff in H as [H|H].
    + apply String.eqb_eq in H. subst suf. rewrite Nat.sub_diag. reflexivity.
    + pose proof (length_ge_endswith _ _ H) as Hlen.
      replace (String.length (String c s) - String.length suf)%nat
        with (S (String.length s - String.length suf)) by (simpl; lia).
      cbn [take]. rewrite append_cons. f_equal. apply IH, H.
Qed.

Lemma rstrip_split (s : string) :
  exists w, s = rstrip s +:+ w /\ all_chars is_space w = true.
Proof.
  induction s as [|c s (w & Hs & Hw)].
  - exists "". split; reflexivity.
  - cbn [rstrip]. destruct (rstrip s) as [|r0 r] eqn:Hr.
    + rewrite append_nil_l in Hs. subst w. destruct (is_space c) eqn:Hc.
      * exists (String c s). split; [reflexivity|]. simpl. rewrite Hc. exact Hw.
      * exists s. split; [reflexivity | exact Hw].
    + exists w. split; [|exact Hw]. rewrite append_cons. f_equal. exact Hs.
Qed.

Lemma all_chars_impl (p q : ascii -> bool) (s : string) :
  (forall c, p c = true -> q c = true) -> all_chars p s = true -> all_chars q s = true.
Proof.
  intros Hpq. induction s as [|c s IH]; simpl; [reflexivity|].
  intros H. apply andb_true_iff in H as [Hc Hs].
  rewrite (Hpq c Hc), (IH Hs). reflexivity.
Qed.

Lemma contains_rstrip (pat s : string) :
  pat <> "" ->
  (forall c, last_char pat = Some c -> is_space c = false) ->
  contains pat (rstrip s) = contains pat s.
Proof.
  intros Hne Hsp. destruct (rstrip_split s) as (w & Hs & Hw).
  rewrite Hs at 2. symmetry. apply contains_drop_suffix; [assumption|].
  apply (all_chars_impl is_space); [|exact Hw].
  intros c Hc. apply negb_true_iff, bool_decide_eq_false.
  intros Hl. rewrite (Hsp c Hl) in Hc. discriminate.
Qed.

Lemma contains_strip (pat s : string) :
  pat <> "" ->
  (forall c, first_char pat = Some c -> is_space c = false) ->
  (forall c, last_char pat = Some c -> is_space c = false) ->
  contains pat (strip s) = contains pat s.
Proof.
  intros Hne Hf Hl. unfold strip.
  rewrite contains_rstrip, contains_lstrip; try assumption; [reflexivity|].
  destruct pat; [congruence | discriminate].
Qed.

End PyStrFacts.

(** ** The sandbox and repair loop *)

Module WorkflowFacts.
Import Workflow.


Lemma fix_all_results fix_error failed ddl procs :
  exists ddl' procs' n, fix_all fix_error failed ddl procs = (ddl', procs', n).
Proof.
  destruct (fix_all fix_error failed ddl procs) as [[ddl' procs'] n]. eauto.
Qed.

(** The fixer adds one to the counter, however many objects failed, and
    leaves the sandbox results alone. *)
Lemma error_fixer_run_count fix_error state :
  count (error_fixer_run fix_error state) = count state + 1
  /\ MigrationState.current_retry_count (error_fixer_run fix_error state)
     = count state + 1
  /\ MigrationState.sandbox_results (error_fixer_run fix_error state)
     = MigrationState.sandbox_results state.
Proof.
  unfold error_fixer_run.
  destruct (failures (MigrationState.sandbox_results state)) as [|r rs]; [simpl; auto|].
  destruct (fix_all_results fix_error (r :: rs) (MigrationState.transformed_ddl state)
              (MigrationState.converted_procedures state)) as (d & p & n & ->).
  simpl. auto.
Qed.

Lemma route_error_fixer state :
  should_continue_after_sandbox state = error_fixer ->
  failures (MigrationState.sandbox_results state) <> [] /\ count state < max_retries.
Proof.
  unfold should_continue_after_sandbox.
  destruct (failures _) as [|r rs]; [discriminate|].
  destruct (Z.ltb_spec (count state) max_retries); [|discriminate].
  intros _. split; [discriminate | assumption].
Qed.

Lemma route_validation state :
  should_continue_after_sandbox state = validation ->
  failures (MigrationState.sandbox_results state) = [] \/ max_retries <= count state.
Proof.
  unfold should_continue_after_sandbox.
  destruct (failures _) as [|r rs]; [auto|].
  destruct (Z.ltb_spec (count state) max_retries); [discriminate | auto].
Qed.

Lemma route_not_sandbox state : should_continue_after_sandbox state <> sandbox.
Proof.
  unfold should_continue_after_sandbox.
  destruct (failures _); [discriminate|].
  destruct (_ <? _); discriminate.
Qed.

(** Only the error fixer moves the counter, by one. *)
Lemma step_count c c' :
  step c c' ->
  count c'.2 = count c.2 + (match c.1 with error_fixer => 1 | _ => 0 end).
Proof.
  intros Hs. inversion Hs as [state ddl procs results state' | fix_error state state']; subst; simpl.
  - lia.
  - apply error_fixer_run_count.
Qed.

Lemma step_within_bound c c' : step c c' -> within_bound c -> within_bound c'.
Proof.
  intros Hs [Hle Hlt].
  inversion Hs as [state ddl procs results state' | fix_error state state']; subst; simpl in *.
  - split; [exact Hle|]. intros Hr. apply route_error_fixer in Hr as [_ Hr]. exact Hr.
  - destruct (error_fixer_run_count fix_error state) as (Hc & _).
    unfold within_bound. simpl. fold state' in Hc. rewrite Hc.
    split; [specialize (Hlt eq_refl); lia | discriminate].
Qed.

Lemma run_count n c c' :
  run n c c' -> within_bound c ->
  count c'.2 = count c.2 + Z.of_nat n /\ within_bound c'.
Proof.
  induction 1 as [c | n state c' c'' Hs _ IH | n state c' c'' Hs _ IH]; intros Hb.
  - split; [lia | exact Hb].
  - destruct (IH (step_within_bound _ _ Hs Hb)) as [Hc Hb'].
    pose proof (step_count _ _ Hs) as Hsc. simpl in *.
    split; [lia | exact Hb'].
  - destruct (IH (step_within_bound _ _ Hs Hb)) as [Hc Hb'].
    pose proof (step_count _ _ Hs) as Hsc. simpl in *.
    split; [lia | exact Hb'].
Qed.

Lemma step_exhausted c c' : step c c' -> exhausted c'.
Proof.
  intros Hs.
  inversion Hs as [state ddl procs results state' | fix_error state state']; subst.
  - intros Hv Hf. simpl in *. apply route_validation in Hv as [Hv|Hv]; [contradiction|exact Hv].
  - intros Hv. discriminate.
Qed.

Lemma run_exhausted n c c' : run n c c' -> exhausted c -> exhausted c'.
Proof.
  induction 1 as [c | n state c' c'' Hs _ IH | n state c' c'' Hs _ IH]; intros He.
  - exact He.
  - apply IH, (step_exhausted _ _ Hs).
  - apply IH, (step_exhausted _ _ Hs).
Qed.

(** From the sandbox node every run reaches validation: the distance of
    the counter from the bound decreases with every repair cycle. *)
Lemma halts_sandbox_measure (k : nat) (state : MigrationState.t) :
  (Z.to_nat (max_retries - count state) <= k)%nat -> halts (sandbox, state).
Proof.
  revert state. induction k as [|k IH]; intros state Hk.
  - apply halts_step.
    + eexists. apply (step_sandbox state [] [] []).
    + intros c' Hs.
      inversion Hs as [st ddl procs results state' |]; subst.
      destruct (should_continue_after_sandbox state') eqn:Hr.
      * exfalso. exact (route_not_sandbox _ Hr).
      * apply route_error_fixer in Hr as [_ Hr]. subst state'. simpl in Hr. lia.
      * apply halts_validation.
  - apply halts_step.
    + eexists. apply (step_sandbox state [] [] []).
    + intros c' Hs.
      inversion Hs as [st ddl procs results state' |]; subst.
      destruct (should_continue_after_sandbox state') eqn:Hr.
      * exfalso. exact (route_not_sandbox _ Hr).
      * apply route_error_fixer in Hr as [_ Hr].
        apply halts_step.
        -- eexists. apply (step_error_fixer (fun _ d p => (d, p, false)) state').
        -- intros c'' Hs'.
           inversion Hs' as [| fix_error st state'']; subst.
           unfold should_continue_after_error_fixer. apply IH.
           destruct (error_fixer_run_count fix_error state') as (Hc & _).
           fold state'' in Hc. rewrite Hc. subst state'. simpl in *. lia.
      * apply halts_validation.
Qed.

End WorkflowFacts.

(** ** Circular foreign keys *)

Module BlueprintFacts.
Import BlueprintAgent.

Lemma ltb_asym (a b : string) : String.ltb a b = true -> String.ltb b a = false.
Proof.
  unfold String.ltb. rewrite (String.compare_antisym a b).
  destruct (String.compare b a); simpl; congruence.
Qed.

Lemma ltb_total (a b : string) :
  String.ltb a b = false -> String.ltb b a = false -> a = b.
Proof.
  unfold String.ltb. rewrite (String.compare_antisym a b).
  destruct (String.compare b a) eqn:Hc; simpl; try congruence.
  intros _ _. symmetry. apply String.compare_eq_iff, Hc.
Qed.

Lemma ltb_irrefl (a : string) : String.ltb a a = false.
Proof.
  destruct (String.ltb a a) eqn:H; [|reflexivity].
  pose proof (ltb_asym a a H). congruence.
Qed.

Lemma sorted_pair_comm (a b : string) : sorted_pair a b = sorted_pair b a.
Proof.
  unfold sorted_pair.
  destruct (String.ltb b a) eqn:Hba, (String.ltb a b) eqn:Hab; try reflexivity.
  - rewrite (ltb_asym _ _ Hba) in Hab. discriminate.
  - rewrite (ltb_total _ _ Hab Hba). reflexivity.
Qed.

Lemma sorted_pair_inv (a b a' b' : string) :
  sorted_pair a' b' = sorted_pair a b ->
  (a' = a /\ b' = b) \/ (a' = b /\ b' = a).
Proof.
  unfold sorted_pair.
  destruct (String.ltb b' a'), (String.ltb b a); intros [= -> ->]; auto.
Qed.

Lemma sorted_pair_eq (a b a' b' : string) :
  (a, b) = sorted_pair a' b' ->
  (a' = a /\ b' = b) \/ (a' = b /\ b' = a).
Proof.
  unfold sorted_pair. destruct (String.ltb b' a'); intros [= -> ->]; auto.
Qed.

Lemma sorted_pair_ordered (a b : string) :
  a <> b -> String.ltb (sorted_pair a b).1 (sorted_pair a b).2 = true.
Proof.
  intros Hne. unfold sorted_pair.
  destruct (String.ltb b a) eqn:Hba; simpl; [exact Hba|].
  destruct (String.ltb a b) eqn:Hab; [reflexivity|].
  exfalso. apply Hne, ltb_total; assumption.
Qed.

Lemma truthy_Some (s : string) : truthy (Some s) = true <-> s <> "".
Proof. destruct s; simpl; split; congruence. Qed.

Lemma elem_of_fold_add_reference (n b : string) (fks : list ForeignKey.t)
    (acc : gset string) :
  b ∈ fold_left (add_reference n) fks acc <->
  b ∈ acc \/ (exists fk, fk ∈ fks /\ ForeignKey.referred_table fk = Some b
                         /\ b <> "" /\ b <> n).
Proof.
  revert acc. induction fks as [|fk fks IH]; intros acc; simpl.
  - split; [auto|]. intros [H|(fk & H & _)]; [exact H | inversion H].
  - rewrite IH. unfold add_reference.
    split.
    + intros [Hacc|(fk' & Hin & Hrest)].
      * destruct (ForeignKey.referred_table fk) as [r|] eqn:Hr; [|auto].
        destruct (truthy (Some r) && negb (String.eqb r n)) eqn:Hc; [|auto].
        apply elem_of_union in Hacc as [Hacc|Hb]; [auto|].
        apply elem_of_singleton in Hb. subst r.
        apply andb_true_iff in Hc as [Ht Hn].
        apply truthy_Some in Ht. apply negb_true_iff, String.eqb_neq in Hn.
        right. exists fk. split; [left|]. auto.
      * right. exists fk'. split; [right; exact Hin | exact Hrest].
    + intros [Hacc|(fk' & Hin & Hr & Hne & Hn)].
      * left. destruct (ForeignKey.referred_table fk) as [r|]; [|exact Hacc].
        destruct (truthy (Some r) && negb (String.eqb r n)); [|exact Hacc].
        apply elem_of_union. left. exact Hacc.
      * apply elem_of_cons in Hin as [->|Hin].
        -- left. rewrite Hr.
           apply truthy_Some in Hne. apply String.eqb_neq, negb_true_iff in Hn.
           rewrite Hne, Hn. simpl. apply elem_of_union. right.
           apply elem_of_singleton. reflexivity.
        -- right. exists fk'. auto.
Qed.

Lemma elem_of_references_of (table : TableMetadata.t) (b : string) :
  b ∈ references_of table <->
  exists fk, fk ∈ TableMetadata.foreign_keys table
             /\ ForeignKey.referred_table fk = Some b
             /\ b <> "" /\ b <> TableMetadata.name table.
Proof.
  unfold references_of. rewrite elem_of_fold_add_reference.
  split; [intros [H|H]; [|exact H] | auto].
  exfalso. revert H. apply not_elem_of_empty.
Qed.

Lemma fk_graph_fold_notin (tables : list TableMetadata.t)
    (g : gmap string (gset string)) (a : string) :
  a ∉ TableMetadata.name <$> tables ->
  fold_left (fun g table => <[TableMetadata.name table := references_of table]> g)
            tables g !! a = g !! a.
Proof.
  revert g. induction tables as [|t ts IH]; intros g Hnin; [reflexivity|].
  simpl in *. apply not_elem_of_cons in Hnin as [Hne Hnin].
  rewrite IH by exact Hnin. apply lookup_insert_ne. congruence.
Qed.

Lemma fk_graph_fold_in (tables : list TableMetadata.t)
    (g : gmap string (gset string)) (table : TableMetadata.t) :
  NoDup (TableMetadata.name <$> tables) -> table ∈ tables ->
  fold_left (fun g table => <[TableMetadata.name table := references_of table]> g)
            tables g !! TableMetadata.name table = Some (references_of table).
Proof.
  revert g. induction tables as [|t ts IH]; intros g Hnd Hin; [inversion Hin|].
  simpl in *. apply NoDup_cons in Hnd as [Hnin Hnd].
  apply elem_of_cons in Hin as [->|Hin].
  - rewrite fk_graph_fold_notin by exact Hnin. apply lookup_insert_eq.
  - apply IH; assumption.
Qed.

Lemma build_fk_graph_lookup (tables : list TableMetadata.t) (a : string)
    (refs : gset string) :
  NoDup (TableMetadata.name <$> tables) ->
  build_fk_graph tables !! a = Some refs <->
  exists table, table ∈ tables /\ TableMetadata.name table = a
                /\ refs = references_of table.
Proof.
  intros Hnd. unfold build_fk_graph. split.
  - intros Hl. destruct (decide (a ∈ TableMetadata.name <$> tables)) as [Hin|Hnin].
    + apply list_elem_of_fmap in Hin as (t & -> & Ht).
      rewrite (fk_graph_fold_in tables ∅ t Hnd Ht) in Hl.
      exists t. split; [exact Ht|]. split; congruence.
    + rewrite fk_graph_fold_notin, lookup_empty in Hl by exact Hnin. discriminate.
  - intros (t & Ht & <- & ->). apply fk_graph_fold_in; assumption.
Qed.

(** What the second pass collects, in terms of the graph alone. *)
Lemma elem_of_detect (tables : list TableMetadata.t) (p : string * string) :
  p ∈ _detect_circular_fks tables <->
  exists a b ra rb,
    build_fk_graph tables !! a = Some ra /\ b ∈ ra
    /\ build_fk_graph tables !! b = Some rb /\ a ∈ rb
    /\ p = sorted_pair a b.
Proof.
  unfold _detect_circular_fks. set (g := build_fk_graph tables).
  rewrite elem_of_list_to_set, list_elem_of_In, in_flat_map.
  split.
  - intros ([a ra] & Hentry & Hp).
    apply list_elem_of_In, elem_of_map_to_list in Hentry.
    apply list_elem_of_In in Hp. unfold pairs_of in Hp.
    apply list_elem_of_omap in Hp as (b & Hb & Hsome).
    apply elem_of_elements in Hb.
    destruct (bool_decide (is_Some (g !! b))) eqn:H1; [|discriminate].
    destruct (bool_decide (a ∈ default ∅ (g !! b))) eqn:H2; [|discriminate].
    simpl in Hsome. injection Hsome as <-.
    apply bool_decide_eq_true in H1 as [rb Hrb].
    apply bool_decide_eq_true in H2. rewrite Hrb in H2. simpl in H2.
    exists a, b, ra, rb. auto.
  - intros (a & b & ra & rb & Ha & Hb & Hrb & Hab & ->).
    exists (a, ra). split.
    + apply list_elem_of_In, elem_of_map_to_list. exact Ha.
    + apply list_elem_of_In. unfold pairs_of.
      apply list_elem_of_omap. exists b. split; [apply elem_of_elements, Hb|].
      assert (H1 : bool_decide (is_Some (g !! b)) = true)
        by (apply bool_decide_eq_true; eauto).
      assert (H2 : bool_decide (a ∈ default ∅ (g !! b)) = true)
        by (apply bool_decide_eq_true; rewrite Hrb; exact Hab).
      rewrite H1, H2. reflexivity.
Qed.

End BlueprintFacts.

(** ** C1: the migration order *)

Section TopologicalSort.
Import PyDict Graph GraphFacts DependencyAgent SortFacts.

Definition sample_node (s : string) : DependencyNode :=
  {| id := s; name := s; type := "table"; complexity := "low" |}.

Definition fk_edge (a b : string) : DependencyEdge :=
  {| from_id := a; to_id := b; edge_type := "foreign_key" |}.

(** [a -> b], [b -> c], [c -> b]: [a] references a table of a circular
    pair without being on the cycle itself. *)
Definition cycle_nodes : list DependencyNode :=
  [sample_node "table:a"; sample_node "table:b"; sample_node "table:c"].

Definition cycle_edges : list DependencyEdge :=
  [fk_edge "table:a" "table:b"; fk_edge "table:b" "table:c";
   fk_edge "table:c" "table:b"].

Example topological_sort_cycle_run :
  _topological_sort cycle_nodes cycle_edges
  = Ok ["table:a"; "table:b"; "table:c"].
Proof. vm_compute. reflexivity. Qed.

Example topological_sort_acyclic_run :
  _topological_sort
    [sample_node "a"; sample_node "b"; sample_node "c"; sample_node "d"]
    [fk_edge "a" "b"; fk_edge "b" "c"; fk_edge "a" "c"; fk_edge "d" "x"]
  = Ok ["c"; "d"; "b"; "a"].
Proof. vm_compute. reflexivity. Qed.

Lemma nothing_reaches_a (x y : string) :
  reach cycle_edges x y -> y <> "table:a".
Proof.
  induction 1 as [e He|e c He _ IH]; [|exact IH].
  unfold cycle_edges in He.
  repeat (apply elem_of_cons in He as [->|He]); try discriminate.
  inversion He.
Qed.

(** C1, as stated, fails: the foreign-key edge [a -> b] lies on no cycle,
    yet the sort puts [a] before [b], because [b] is on a cycle and both
    are appended in their original order. *)
Lemma topological_sort_cycle_dependent_counterexample :
  ~ (forall nodes edges order,
        _topological_sort nodes edges = Ok order ->
        forall e, e ∈ edges -> edge_type e = "foreign_key" ->
                  from_id e ∈ id <$> nodes -> to_id e ∈ id <$> nodes ->
                  ~ circular edges e ->
                  precedes order (to_id e) (from_id e)).
Proof.
  intros H.
  specialize (H cycle_nodes cycle_edges _ topological_sort_cycle_run
                (fk_edge "table:a" "table:b")).
  destruct H as (i & j & Hi & Hj & Hlt).
  - left.
  - reflexivity.
  - left.
  - right. left.
  - intros [Heq|Hr]; [discriminate|].
    apply nothing_reaches_a in Hr. apply Hr. reflexivity.
  - vm_compute in Hi, Hj. injection Hi as <-. injection Hj as <-. lia.
Qed.

(** C1, amended.  The sort always returns; its result lists every node id
    exactly once; an edge between node ids whose source does not depend on
    a cycle (some length bounds the walks that start at it) has its target
    before its source; the nodes that never reach in-degree zero come last,
    in the order of their first occurrence in the input, and from each of
    them walks of every length start. *)
Theorem topological_sort_order (nodes : list DependencyNode)
    (edges : list DependencyEdge) :
  let ids := id <$> nodes in
  exists processed,
    let remaining := filter (fun n => n ∉ processed) (first_occ ids) in
    _topological_sort nodes edges = Ok (processed ++ remaining)
    /\ NoDup (processed ++ remaining)
    /\ (forall x, x ∈ processed ++ remaining <-> x ∈ ids)
    /\ (forall e, e ∈ edges -> valid ids e ->
          (exists n, ~ chain ids edges n (from_id e)) ->
          precedes (processed ++ remaining) (to_id e) (from_id e))
    /\ (forall e, e ∈ edges -> valid ids e -> from_id e ∈ processed ->
          precedes (processed ++ remaining) (to_id e) (from_id e))
    /\ (forall x n, x ∈ remaining -> chain ids edges n x).
Proof.
  intros ids.
  destruct (sort_core_spec nodes edges) as (i & done & Hcore & Hinv).
  fold ids in Hinv. set (K := first_occ ids) in *.
  pose proof (leftover_chain K edges i done Hinv) as Hleft.
  destruct Hinv as (_ & Hk & Hnd & Hsub & _ & _ & Hord).
  rewrite app_nil_r in Hnd, Hsub.
  exists done. cbn zeta.
  assert (Hrem : forall x, x ∈ filter (fun n => n ∉ done) K <-> x ∈ K /\ x ∉ done)
    by (intros x; rewrite list_elem_of_filter; tauto).
  assert (Hchain : forall x n, x ∈ filter (fun n => n ∉ done) K -> chain ids edges n x).
  { intros x n Hx. apply Hrem in Hx as [HxK Hxd].
    apply chain_first_occ. apply Hleft; assumption. }
  assert (Hproc : forall e, e ∈ edges -> valid ids e -> from_id e ∈ done ->
            precedes (done ++ filter (fun n => n ∉ done) K) (to_id e) (from_id e)).
  { intros e He Hv Hin. apply precedes_app_l, Hord; [assumption| |assumption].
    apply valid_first_occ. exact Hv. }
  splits.
  - unfold _topological_sort. rewrite Hcore. simpl.
    unfold remaining_of. rewrite Hk. reflexivity.
  - apply NoDup_app. split; [exact Hnd|]. split.
    + intros x Hx Hx'. apply Hrem in Hx'. tauto.
    + apply NoDup_filter, NoDup_first_occ.
  - intros x. rewrite elem_of_app, Hrem. unfold K. rewrite elem_of_first_occ.
    split.
    + intros [Hx|[Hx _]]; [|exact Hx].
      apply Hsub in Hx. unfold K in Hx. rewrite elem_of_first_occ in Hx. exact Hx.
    + intros Hx. destruct (decide (x ∈ done)); [left|right]; tauto.
  - intros e He Hv [n Hn].
    destruct (decide (from_id e ∈ done)) as [Hin|Hnin]; [apply Hproc; assumption|].
    exfalso. apply Hn, Hchain, Hrem. split; [|exact Hnin].
    unfold K. rewrite elem_of_first_occ. apply Hv.
  - exact Hproc.
  - exact Hchain.
Qed.

End TopologicalSort.

(** ** C2: what pass 1 puts into a CREATE TABLE statement *)

Section TwoPass.
Import PyStr PyStrFacts SchemaAgent.

(** A pattern whose first and last characters are neither whitespace nor
    part of a code fence or of the closing semicolon. *)
Definition fence_safe (pat : string) : Prop :=
  pat <> ""
  /\ (forall c, first_char pat = Some c -> is_space c = false)
  /\ (forall c, last_char pat = Some c -> is_space c = false)
  /\ all_chars (fun c => negb (bool_decide (first_char pat = Some c))) "```sql" = true
  /\ all_chars (fun c => negb (bool_decide (first_char pat = Some c))) "```" = true
  /\ all_chars (fun c => negb (bool_decide (last_char pat = Some c))) "```" = true
  /\ all_chars (fun c => negb (bool_decide (last_char pat = Some c))) ";" = true.

Lemma fence_safe_foreign_key : fence_safe "FOREIGN KEY".
Proof.
  unfold fence_safe. splits; try (vm_compute; reflexivity); try discriminate.
  - intros c [= <-]. reflexivity.
  - intros c [= <-]. reflexivity.
Qed.

Lemma fence_safe_create_index : fence_safe "CREATE INDEX".
Proof.
  unfold fence_safe. splits; try (vm_compute; reflexivity); try discriminate.
  - intros c [= <-]. reflexivity.
  - intros c [= <-]. reflexivity.
Qed.

(** Cleaning neither removes nor creates an occurrence of such a pattern. *)
Lemma clean_sql_output_contains (pat response : string) :
  fence_safe pat ->
  contains pat (_clean_sql_output response) = contains pat response.
Proof.
  intros (Hne & Hf & Hl & Hp6 & Hp3 & Hs3 & Hs1).
  assert (Hfirst : first_char pat <> None) by (destruct pat; [congruence|discriminate]).
  unfold _clean_sql_output.
  set (s0 := strip response).
  set (s1 := if startswith "```sql" s0 then drop 6 s0
             else if startswith "```" s0 then drop 3 s0 else s0).
  set (s2 := if endswith "```" s1 then drop_end 3 s1 else s1).
  set (s3 := strip s2).
  assert (H0 : contains pat s0 = contains pat response)
    by (apply contains_strip; assumption).
  assert (H1 : contains pat s1 = contains pat s0).
  { unfold s1. destruct (startswith "```sql" s0) eqn:E6.
    - rewrite (startswith_split _ _ E6) at 2.
      symmetry. apply contains_drop_prefix; assumption.
    - destruct (startswith "```" s0) eqn:E3; [|reflexivity].
      rewrite (startswith_split _ _ E3) at 2.
      symmetry. apply contains_drop_prefix; assumption. }
  assert (H2 : contains pat s2 = contains pat s1).
  { unfold s2. destruct (endswith "```" s1) eqn:E; [|reflexivity].
    rewrite (endswith_split _ _ E) at 2.
    symmetry. apply contains_drop_suffix; assumption. }
  assert (H3 : contains pat s3 = contains pat s2)
    by (apply contains_strip; assumption).
  rewrite <- H0, <- H1, <- H2, <- H3.
  destruct (endswith ";" s3); simpl; [reflexivity|].
  apply contains_drop_suffix; assumption.
Qed.

(** A model that answers with a table body carrying an inline foreign key
    and a trailing index statement, inside a code fence. *)
Definition careless_response : string :=
     ("```sql" +:+ newline
      +:+ "CREATE TABLE " +:+ quoted "city" +:+ " (" +:+ quoted "country_id"
      +:+ " SMALLINT, FOREIGN KEY (" +:+ quoted "country_id" +:+ ") REFERENCES "
      +:+ quoted "country" +:+ ");" +:+ newline
      +:+ "CREATE INDEX " +:+ quoted "idx_city_country_id" +:+ " ON "
      +:+ quoted "city" +:+ " (" +:+ quoted "country_id" +:+ ")" +:+ newline
      +:+ "```").

Definition careless_llm (system_prompt prompt : string) : res string :=
  Ok careless_response.

(** An occurrence of a pattern stays one when text is put around it. *)
Lemma contains_here (pat post : string) : contains pat (pat +:+ post) = true.
Proof.
  assert (H : String.prefix pat (pat +:+ post) = true).
  { induction pat as [|c pat IH]; [apply prefix_nil_l|].
    rewrite append_cons, prefix_cons, Ascii.eqb_refl. exact IH. }
  destruct (pat +:+ post); cbn [contains]; rewrite H; reflexivity.
Qed.

Lemma contains_app_r (pat pre s : string) :
  contains pat s = true -> contains pat (pre +:+ s) = true.
Proof.
  intros H. induction pre as [|c pre IH]; [exact H|].
  rewrite append_cons. cbn [contains]. rewrite IH. apply orb_true_r.
Qed.

(** The user prompt of pass 1 asks for foreign keys and indexes, for every
    table. *)
Lemma table_prompt_asks_for_constraints (table_name metadata_context : string) :
  contains "4. Include all constraints (PK, FK, indexes)"
           (table_prompt table_name metadata_context) = true.
Proof.
  unfold table_prompt. do 18 apply contains_app_r. apply contains_here.
Qed.

(** With the careless answer the statement of pass 1 for [city] has a
    FOREIGN KEY and a CREATE INDEX clause: nothing in pass 1 removes what
    the model wrote. *)
Lemma create_table_ddl_foreign_key_counterexample :
  ~ (forall (llm : string -> string -> res string)
            (system_prompt table_name metadata_context sql : string),
        create_table_ddl llm system_prompt table_name metadata_context = Ok sql ->
        contains "FOREIGN KEY" sql = false /\ contains "CREATE INDEX" sql = false).
Proof.
  intros H.
  destruct (H careless_llm "" "city" "" _ eq_refl) as [Hfk _].
  vm_compute in Hfk. discriminate.
Qed.

(** C2 fails on the code.  Pass 1 is meant to give CREATE TABLE statements
    without foreign keys and without indexes (the docstrings of
    [_generate_deferred_fks] and [_generate_indexes]: Pass 1, CREATE TABLE
    without ANY FKs, without ANY indexes, done by the model), but the code
    of pass 1 does nothing for it: its statement is the answer of the
    model with surrounding whitespace and code fence removed and a closing
    semicolon ensured, and it contains FOREIGN KEY, or CREATE INDEX,
    exactly when the answer does. *)
Theorem create_table_ddl_keeps_clauses
    (llm : string -> string -> res string)
    (system_prompt table_name metadata_context sql : string) :
  create_table_ddl llm system_prompt table_name metadata_context = Ok sql ->
  exists response,
    llm system_prompt (table_prompt table_name metadata_context) = Ok response
    /\ sql = _clean_sql_output response
    /\ contains "FOREIGN KEY" sql = contains "FOREIGN KEY" response
    /\ contains "CREATE INDEX" sql = contains "CREATE INDEX" response.
Proof.
  unfold create_table_ddl, _llm_convert_table. intros H.
  apply res_bind_Ok in H as (response & Hllm & Hsql).
  injection Hsql as <-. exists response. splits; try assumption; try reflexivity.
  - apply clean_sql_output_contains, fence_safe_foreign_key.
  - apply clean_sql_output_contains, fence_safe_create_index.
Qed.

(** The theorem at the careless answer above. *)
Lemma create_table_ddl_keeps_clauses_witness :
  let sql := _clean_sql_output careless_response in
  exists response,
    careless_llm "" (table_prompt "city" "") = Ok response
    /\ sql = _clean_sql_output response
    /\ contains "FOREIGN KEY" sql = contains "FOREIGN KEY" response
    /\ contains "CREATE INDEX" sql = contains "CREATE INDEX" response.
Proof.
  apply (create_table_ddl_keeps_clauses careless_llm "" "city" "").
  reflexivity.
Defined.

Example careless_statement :
  _clean_sql_output careless_response
  = "CREATE TABLE " +:+ quoted "city" +:+ " (" +:+ quoted "country_id"
    +:+ " SMALLINT, FOREIGN KEY (" +:+ quoted "country_id" +:+ ") REFERENCES "
    +:+ quoted "country" +:+ ");" +:+ newline
    +:+ "CREATE INDEX " +:+ quoted "idx_city_country_id" +:+ " ON "
    +:+ quoted "city" +:+ " (" +:+ quoted "country_id" +:+ ");".
Proof. vm_compute. reflexivity. Qed.

End TwoPass.

(** ** C3: the deferred foreign-key pass *)

Section DeferredFKs.
Import PyStr PyStrFacts BlueprintAgent BlueprintWriter SchemaAgent DeferredFkSpec.

Lemma mapM_Ok {A B} (f : A -> res B) (l : list A) (bs : list B) :
  mapM f l = Ok bs -> Forall2 (fun a b => f a = Ok b) l bs.
Proof.
  revert bs. induction l as [|a l IH]; intros bs; simpl.
  - intros [= <-]. constructor.
  - intros H. apply res_bind_Ok in H as (b & Hb & H).
    apply res_bind_Ok in H as (bs' & Hbs & H). injection H as <-.
    constructor; [exact Hb | apply IH, Hbs].
Qed.

(** [", ".join(f'"{c}"' for c in columns)] is the identifier list. *)
Lemma join_quoted (names : list string) :
  join ", " (quoted <$> names) = identifier_list names.
Proof.
  induction names as [|n [|m rest] IH]; [reflexivity | reflexivity |].
  change (join ", " (quoted <$> n :: m :: rest))
    with (quoted n +:+ ", " +:+ join ", " (quoted <$> m :: rest)).
  rewrite IH. unfold quoted. rewrite !append_assoc. reflexivity.
Qed.

(** What the loop body of [_generate_deferred_fks] does with the blueprint
    entry of a key is what the key's declared constraint asks for,
    whatever the deferred flag. *)
Lemma fk_statement_as_declared (table : TableMetadata.t) (fk : ForeignKey.t)
    (is_deferred : bool) :
  let entry := BlueprintFK.mk (ForeignKey.name fk) (ForeignKey.columns fk)
                 (ForeignKey.referred_table fk) (ForeignKey.referred_columns fk)
                 is_deferred in
  (if fk_incomplete entry then []
   else [alter_statement (TableMetadata.name table) entry])
  = match declared table fk with
    | Some c => [add_constraint_sql c]
    | None => []
    end.
Proof.
  destruct fk as [name columns ref ref_columns].
  unfold fk_incomplete, declared. cbn [BlueprintFK.columns BlueprintFK.references_table
    BlueprintFK.references_columns ForeignKey.columns ForeignKey.referred_table
    ForeignKey.referred_columns ForeignKey.name].
  destruct columns as [|c cs]; [reflexivity|].
  destruct ref as [[|r ref]|]; [reflexivity| |reflexivity].
  destruct ref_columns as [|rc rcs]; [reflexivity|].
  cbn [truthy negb orb]. f_equal.
  unfold alter_statement, add_constraint_sql.
  cbn [BlueprintFK.columns BlueprintFK.references_table BlueprintFK.references_columns
    BlueprintFK.name on_table constraint_name key_columns referenced_table
    referenced_columns str_of_option].
  rewrite !join_quoted. unfold quoted.
  destruct name as [n|]; cbn [str_of_option]; rewrite !append_assoc; reflexivity.
Qed.

(** The statements of a blueprint are those of the constraints its table
    declares. *)
Lemma fk_statements_of_table (pairs : gset (string * string))
    (table : TableMetadata.t) (blueprint : Blueprint.t) :
  _create_table_blueprint pairs table = Ok blueprint ->
  fk_statements blueprint = expected_fk_statements table.
Proof.
  unfold _create_table_blueprint. intros H.
  apply res_bind_Ok in H as (out & Hout & H). injection H as <-.
  unfold fk_statements, expected_fk_statements, declared_constraints.
  cbn [Blueprint.outgoing Blueprint.table_name].
  apply mapM_Ok in Hout.
  induction Hout as [|fk b fks out Hb _ IH]; [reflexivity|].
  cbn [flat_map]. rewrite IH.
  unfold fk_data in Hb. apply res_bind_Ok in Hb as (d & _ & Hb). injection Hb as <-.
  rewrite (fk_statement_as_declared table fk d).
  cbn [omap list_omap]. destruct (declared table fk); reflexivity.
Qed.

Lemma write_blueprints_fold (pairs : gset (string * string))
    (tables : list TableMetadata.t) (acc files : gmap string Blueprint.t) :
  NoDup (TableMetadata.name <$> tables) ->
  (forall t, t ∈ tables -> acc !! TableMetadata.name t = None) ->
  foldM (fun files table =>
           let* blueprint := _create_table_blueprint pairs table in
           Ok (<[TableMetadata.name table := blueprint]> files))
        tables acc = Ok files ->
  flat_map fk_statements (map_to_list files).*2
  ≡ₚ flat_map fk_statements (map_to_list acc).*2
     ++ flat_map expected_fk_statements tables.
Proof.
  revert acc. induction tables as [|t ts IH]; intros acc Hnd Hfresh; simpl.
  - intros [= <-]. rewrite app_nil_r. reflexivity.
  - intros H. apply res_bind_Ok in H as (acc' & Hstep & H).
    apply res_bind_Ok in Hstep as (bp & Hbp & Hacc). injection Hacc as <-.
    apply NoDup_cons in Hnd as [Hnin Hnd].
    assert (Hfresh' : forall t', t' ∈ ts ->
              <[TableMetadata.name t := bp]> acc !! TableMetadata.name t' = None).
    { intros t' Ht'. rewrite lookup_insert_ne; [apply Hfresh; right; exact Ht'|].
      intros Heq. apply Hnin. rewrite Heq. apply list_elem_of_fmap. eauto. }
    rewrite (IH (<[TableMetadata.name t := bp]> acc) Hnd Hfresh' H).
    rewrite (fmap_Permutation snd _ _
               (map_to_list_insert acc (TableMetadata.name t) bp
                  (Hfresh t (list_elem_of_here _ _)))).
    simpl. rewrite (fk_statements_of_table _ _ _ Hbp).
    rewrite <- !app_assoc. apply Permutation_app_swap_app.
Qed.

(** C3, as stated, fails: a foreign key that lists no column, names no
    referenced table or lists no referenced column is skipped without a
    trace. *)
Lemma deferred_fks_incomplete_counterexample :
  ~ (forall tables files,
        NoDup (TableMetadata.name <$> tables) ->
        write_blueprints tables = Ok files ->
        length (_generate_deferred_fks (glob_blueprints files))
        = length (flat_map TableMetadata.foreign_keys tables)).
Proof.
  intros H.
  assert (Hnd : NoDup (TableMetadata.name <$> columnless_fk_tables))
    by (apply (bool_decide_unpack _); vm_compute; exact I).
  destruct (write_blueprints columnless_fk_tables) as [files| |] eqn:Hw;
    try (vm_compute in Hw; discriminate).
  specialize (H columnless_fk_tables files Hnd Hw).
  assert (Hfiles : _generate_deferred_fks (glob_blueprints files) = []).
  { vm_compute in Hw. injection Hw as <-. vm_compute. reflexivity. }
  rewrite Hfiles in H. simpl in H. discriminate.
Qed.

(** C3, amended.  With table names unique and the blueprints written, the
    statements of the deferred-FK pass are, up to the order of the
    directory listing, the [ALTER TABLE ... ADD CONSTRAINT ... FOREIGN KEY
    ... REFERENCES ...] statements of the constraints the schema declares:
    one for every foreign key that lists at least one column, names a
    referenced table and lists at least one referenced column, flagged
    circular or not, with the key's table, name, columns, referenced table
    and referenced columns; a foreign key lacking one of these yields no
    statement. *)
Theorem deferred_fks_complete (tables : list TableMetadata.t)
    (files : gmap string Blueprint.t) :
  NoDup (TableMetadata.name <$> tables) ->
  write_blueprints tables = Ok files ->
  _generate_deferred_fks (glob_blueprints files)
  ≡ₚ flat_map expected_fk_statements tables.
Proof.
  intros Hnd Hw. unfold write_blueprints in Hw.
  unfold _generate_deferred_fks, glob_blueprints.
  rewrite (write_blueprints_fold (_detect_circular_fks tables) tables ∅ files Hnd);
    [| |exact Hw].
  - rewrite map_to_list_empty. reflexivity.
  - intros t _. apply lookup_empty.
Qed.

(** The theorem at Sakila's [address], [staff] and [store]. *)
Lemma deferred_fks_complete_witness :
  exists files,
    write_blueprints sakila_tables = Ok files
    /\ _generate_deferred_fks (glob_blueprints files)
       ≡ₚ flat_map expected_fk_statements sakila_tables.
Proof.
  destruct (write_blueprints sakila_tables) as [files| |] eqn:Hw;
    try (vm_compute in Hw; discriminate).
  exists files. split; [reflexivity|].
  apply (deferred_fks_complete sakila_tables files); [|exact Hw].
  apply (bool_decide_unpack _). vm_compute. exact I.
Defined.

Example deferred_fks_sakila_count :
  length (flat_map expected_fk_statements sakila_tables) = 4%nat.
Proof. reflexivity. Qed.

(** The four statements for Sakila's [staff] and [store], as the schema
    asks for them and as the pass emits them from the blueprint files. *)
Example deferred_fks_sakila_statements :
  let statement table_name fk_name column ref_table ref_column :=
    "ALTER TABLE " +:+ quoted table_name +:+ " ADD CONSTRAINT " +:+ quoted fk_name
    +:+ " " +:+ newline +:+ "    FOREIGN KEY (" +:+ quoted column
    +:+ ") REFERENCES " +:+ quoted ref_table +:+ " (" +:+ quoted ref_column +:+ ");" in
  flat_map expected_fk_statements sakila_tables
  = [ statement "staff" "fk_staff_address" "address_id" "address" "address_id";
      statement "staff" "fk_staff_store" "store_id" "store" "store_id";
      statement "store" "fk_store_staff" "manager_staff_id" "staff" "staff_id";
      statement "store" "fk_store_address" "address_id" "address" "address_id" ]
  /\ exists files,
       write_blueprints sakila_tables = Ok files
       /\ _generate_deferred_fks (glob_blueprints files)
          = [ statement "store" "fk_store_staff" "manager_staff_id" "staff" "staff_id";
              statement "store" "fk_store_address" "address_id" "address" "address_id";
              statement "staff" "fk_staff_address" "address_id" "address" "address_id";
              statement "staff" "fk_staff_store" "store_id" "store" "store_id" ].
Proof.
  split; [vm_compute; reflexivity|].
  destruct (write_blueprints sakila_tables) as [files| |] eqn:Hw;
    try (vm_compute in Hw; discriminate).
  exists files. split; [reflexivity|].
  vm_compute in Hw. injection Hw as <-. vm_compute. reflexivity.
Qed.

(** The key without columns stands for no constraint. *)
Example columnless_fk_declares_nothing :
  flat_map declared_constraints columnless_fk_tables = []
  /\ length (flat_map TableMetadata.foreign_keys columnless_fk_tables) = 1%nat.
Proof. split; reflexivity. Qed.

End DeferredFKs.

(** ** C4: the repair loop is bounded *)

Section RepairLoop.
Import Workflow WorkflowFacts.

(** With a sandbox that always fails [film_list] and a fixer that changes
    nothing, the pipeline runs five repair cycles and then validates. *)
Example always_failing_run :
  run 5 (sandbox, MigrationState.initial) (validation, stuck_state 5).
Proof.
  pose (no_fix := fun (_ : SandboxResult.t) (d : list TransformedDDL.t)
                      (p : list ConvertedProcedure.t) => (d, p, false)).
  eapply run_sandbox; [exact (step_sandbox _ [] [] [failing_result])|]. cbn.
  do 4 (eapply run_error_fixer; [exact (step_error_fixer no_fix _)|]; cbn;
        eapply run_sandbox; [exact (step_sandbox _ [] [] [failing_result])|]; cbn).
  eapply run_error_fixer; [exact (step_error_fixer no_fix _)|]. cbn.
  eapply run_sandbox; [exact (step_sandbox _ [] [] [failing_result])|]. cbn.
  apply run_done.
Qed.

(** C4.  The error fixer adds one to the retry counter each time it runs,
    whatever the number of failed objects, and nothing else changes the
    counter; once the counter is at the bound the sandbox hands over to
    validation with the failures still in the results; from the sandbox
    node every run reaches validation; a run started with a zero counter
    has at most [max_retries] repair cycles, and exactly that many when it
    arrives at validation with failures left. *)
Theorem sandbox_repair_loop_terminates :
  (forall fix_error state,
      count (error_fixer_run fix_error state) = count state + 1)
  /\ (forall c c', step c c' ->
        count c'.2 = count c.2 + (match c.1 with error_fixer => 1 | _ => 0 end))
  /\ (forall state ddl procs results,
        max_retries <= count state ->
        let state' := after_sandbox state ddl procs results in
        should_continue_after_sandbox state' = validation
        /\ failures (MigrationState.sandbox_results state') = failures results)
  /\ (forall state, halts (sandbox, state))
  /\ (forall n state c',
        count state = 0 -> run n (sandbox, state) c' ->
        Z.of_nat n <= max_retries /\ count c'.2 = Z.of_nat n)
  /\ (forall n state state',
        count state = 0 -> run n (sandbox, state) (validation, state') ->
        failures (MigrationState.sandbox_results state') <> [] ->
        Z.of_nat n = max_retries).
Proof.
  assert (Hstart : forall state, count state = 0 -> within_bound (sandbox, state)).
  { intros state H0. split; simpl; [rewrite H0; unfold max_retries; lia | discriminate]. }
  splits.
  - intros fix_error state. apply error_fixer_run_count.
  - exact step_count.
  - intros state ddl procs results Hmax state'. split; [|reflexivity].
    unfold should_continue_after_sandbox.
    destruct (failures _); [reflexivity|].
    destruct (Z.ltb_spec (count state') max_retries) as [Hlt|_]; [|reflexivity].
    subst state'. simpl in Hlt. lia.
  - intros state. apply (halts_sandbox_measure _ state (Nat.le_refl _)).
  - intros n state c' H0 Hrun.
    destruct (run_count _ _ _ Hrun (Hstart state H0)) as [Hc [Hle _]].
    simpl in Hc. lia.
  - intros n state state' H0 Hrun Hfail.
    destruct (run_count _ _ _ Hrun (Hstart state H0)) as [Hc [Hle _]].
    assert (Hex : exhausted (validation, state')).
    { apply (run_exhausted _ _ _ Hrun). intros Hv. discriminate. }
    specialize (Hex eq_refl Hfail). simpl in *. lia.
Qed.

End RepairLoop.

(** ** C5: decoding a well-known-binary point *)

Section PointDecoding.
Import PyStr PyFloat WKB.

Lemma length_slice (start stop : nat) (bs : list byte) :
  (stop <= length bs)%nat -> length (slice start stop bs) = (stop - start)%nat.
Proof. intros H. unfold slice. rewrite length_take, length_drop. lia. Qed.

Lemma length_slice_short (start stop : nat) (bs : list byte) :
  (length bs < stop)%nat -> (length (slice start stop bs) < stop - start)%nat
                            \/ (stop <= start)%nat.
Proof. intros H. unfold slice. rewrite length_take, length_drop. lia. Qed.

Lemma unpack_le_double_eight (bs : list byte) :
  length bs = 8%nat -> unpack_le_double bs = Ok (decode (le_uint bs)).
Proof. intros H. unfold unpack_le_double. rewrite H. reflexivity. Qed.

Lemma unpack_le_double_other (bs : list byte) :
  length bs <> 8%nat -> unpack_le_double bs = Raise StructError.
Proof.
  intros H. unfold unpack_le_double.
  destruct (Nat.eqb_spec (length bs) 8); [contradiction | reflexivity].
Qed.

Example truncated_point_is_null :
  convert_wkb_to_point (Some truncated_point) = None.
Proof. vm_compute. reflexivity. Qed.

Example sample_point_decodes :
  convert_wkb_to_point (Some sample_point) = Some "(12.5, -3.25)".
Proof. vm_compute. reflexivity. Qed.

(** [bs[start:stop]] of a buffer that has [mid] at that place. *)
Lemma slice_middle (start stop : nat) (pre mid post : list byte) :
  length pre = start -> length mid = (stop - start)%nat ->
  slice start stop (pre ++ mid ++ post) = mid.
Proof.
  intros Hpre Hmid. unfold slice.
  rewrite (drop_app_length' pre (mid ++ post) start (eq_sym Hpre)).
  apply take_app_length'. symmetry. exact Hmid.
Qed.

(** C5.  A buffer laid out as four SRID bytes, one byte-order byte, four
    geometry-type bytes, the eight bytes [xs] of X at offset 9 and the
    eight bytes [ys] of Y at offset 17, with anything after them, has at
    least 21 bytes and decodes to ["(x, y)"], where x and y are the
    little-endian doubles of [xs] and [ys]; the 25-byte sample buffer
    gives ["(12.5, -3.25)"].  A buffer of fewer than 21 bytes gives null,
    and so does a longer one that ends before the 25 bytes of the layout;
    a null input gives null.  The result is a string or null for every
    input: no input raises. *)
Theorem convert_wkb_to_point_spec :
  (forall srid byte_order geometry_type xs ys rest : list byte,
      length srid = 4%nat -> length byte_order = 1%nat ->
      length geometry_type = 4%nat ->
      length xs = 8%nat -> length ys = 8%nat ->
      let wkb_bytes := srid ++ byte_order ++ geometry_type ++ xs ++ ys ++ rest in
      (21 <= length wkb_bytes)%nat
      /\ slice 9 17 wkb_bytes = xs
      /\ slice 17 25 wkb_bytes = ys
      /\ convert_wkb_to_point (Some wkb_bytes)
         = Some ("(" +:+ repr (decode (le_uint xs)) +:+ ", "
                     +:+ repr (decode (le_uint ys)) +:+ ")"))
  /\ (forall wkb_bytes : list byte,
        (25 <= length wkb_bytes)%nat ->
        exists srid byte_order geometry_type xs ys rest,
          wkb_bytes = srid ++ byte_order ++ geometry_type ++ xs ++ ys ++ rest
          /\ length srid = 4%nat /\ length byte_order = 1%nat
          /\ length geometry_type = 4%nat
          /\ length xs = 8%nat /\ length ys = 8%nat)
  /\ (forall wkb_bytes : list byte,
        (length wkb_bytes < 21)%nat -> convert_wkb_to_point (Some wkb_bytes) = None)
  /\ (forall wkb_bytes : list byte,
        (length wkb_bytes < 25)%nat -> convert_wkb_to_point (Some wkb_bytes) = None)
  /\ convert_wkb_to_point None = None
  /\ length sample_point = 25%nat
  /\ convert_wkb_to_point (Some sample_point) = Some "(12.5, -3.25)".
Proof.
  split; [|split; [|split; [|split; [|split; [|split]]]]].
  - intros srid byte_order geometry_type xs ys rest H1 H2 H3 H4 H5 wkb_bytes.
    assert (Hx : slice 9 17 wkb_bytes = xs).
    { unfold wkb_bytes.
      replace (srid ++ byte_order ++ geometry_type ++ xs ++ ys ++ rest)
        with ((srid ++ byte_order ++ geometry_type) ++ xs ++ (ys ++ rest))
        by (rewrite <- !app_assoc; reflexivity).
      apply slice_middle; [rewrite !length_app; lia | simpl; lia]. }
    assert (Hy : slice 17 25 wkb_bytes = ys).
    { unfold wkb_bytes.
      replace (srid ++ byte_order ++ geometry_type ++ xs ++ ys ++ rest)
        with ((srid ++ byte_order ++ geometry_type ++ xs) ++ ys ++ rest)
        by (rewrite <- !app_assoc; reflexivity).
      apply slice_middle; [rewrite !length_app; lia | simpl; lia]. }
    assert (Hlen : (21 <= length wkb_bytes)%nat).
    { unfold wkb_bytes. rewrite !length_app. lia. }
    split; [exact Hlen|]. split; [exact Hx|]. split; [exact Hy|].
    unfold convert_wkb_to_point, decode_point.
    destruct (Nat.ltb_spec (length wkb_bytes) 21) as [Hlt|_]; [lia|].
    rewrite Hx, Hy.
    rewrite (unpack_le_double_eight xs H4), (unpack_le_double_eight ys H5).
    unfold res_bind. reflexivity.
  - intros bs Hlen.
    exists (firstn 4 bs), (firstn 1 (skipn 4 bs)), (firstn 4 (skipn 5 bs)),
      (firstn 8 (skipn 9 bs)), (firstn 8 (skipn 17 bs)), (skipn 25 bs).
    split.
    + symmetry.
      replace (skipn 25 bs) with (skipn 8 (skipn 17 bs))
        by (rewrite drop_drop; reflexivity).
      rewrite (take_drop 8 (skipn 17 bs)).
      replace (skipn 17 bs) with (skipn 8 (skipn 9 bs))
        by (rewrite drop_drop; reflexivity).
      rewrite (take_drop 8 (skipn 9 bs)).
      replace (skipn 9 bs) with (skipn 4 (skipn 5 bs))
        by (rewrite drop_drop; reflexivity).
      rewrite (take_drop 4 (skipn 5 bs)).
      replace (skipn 5 bs) with (skipn 1 (skipn 4 bs))
        by (rewrite drop_drop; reflexivity).
      rewrite (take_drop 1 (skipn 4 bs)).
      apply take_drop.
    + rewrite !length_take, !length_drop. lia.
  - intros bs Hlen. unfold convert_wkb_to_point, decode_point.
    destruct (Nat.ltb_spec (length bs) 21) as [_|Hge]; [reflexivity | lia].
  - intros bs Hlen. unfold convert_wkb_to_point, decode_point.
    destruct (Nat.ltb_spec (length bs) 21) as [_|Hge]; [reflexivity|].
    rewrite (unpack_le_double_eight (slice 9 17 bs)) by (apply length_slice; lia).
    rewrite (unpack_le_double_other (slice 17 25 bs)).
    + unfold res_bind. reflexivity.
    + destruct (length_slice_short 17 25 bs Hlen) as [Hs|Hs]; lia.
  - reflexivity.
  - reflexivity.
  - exact sample_point_decodes.
Qed.

End PointDecoding.

(** ** C6: index names *)

Section IndexNames.
Import PyStr SchemaAgent.

(** An index name that already starts with [idx_] is rewritten to carry
    the table name. *)
Example rename_index_old_style :
  rename_index "rental" "idx_fk_inventory_id" = "idx_rental_inventory_id".
Proof. reflexivity. Qed.

(** C6 fails on the code: an index whose name does not start with [idx_]
    keeps its name.  On Sakila's [rental] the unique index [rental_date] is
    created as [rental_date], not as [idx_rental_...]. *)
Theorem generate_indexes_keeps_unprefixed_name :
  _generate_indexes_named [rental_blueprint]
  = [ ("rental_date",
       "CREATE UNIQUE INDEX " +:+ quoted "rental_date" +:+ " ON " +:+ quoted "rental"
       +:+ " (" +:+ quoted "rental_date" +:+ ", " +:+ quoted "inventory_id" +:+ ", "
       +:+ quoted "customer_id" +:+ ");");
      ("idx_rental_inventory_id",
       "CREATE INDEX " +:+ quoted "idx_rental_inventory_id" +:+ " ON "
       +:+ quoted "rental" +:+ " (" +:+ quoted "inventory_id" +:+ ");") ]
  /\ startswith "idx_rental_" "rental_date" = false.
Proof. split; vm_compute; reflexivity. Qed.

(** What the renaming does guarantee: a name that starts with [idx_]
    comes out with the prefix [idx_{table_name}]. *)
Lemma rename_index_prefixed (table_name idx_name : string) :
  startswith "idx_" idx_name = true ->
  startswith ("idx_" +:+ table_name) (rename_index table_name idx_name) = true.
Proof.
  intros Hidx. unfold rename_index.
  destruct (startswith ("idx_" +:+ table_name) idx_name) eqn:Hp; simpl; [exact Hp|].
  rewrite Hidx, orb_true_r.
  unfold startswith. rewrite <- PyStrFacts.append_assoc.
  generalize ("idx_" +:+ table_name) as p.
  generalize ("_" +:+ replace "idx_" "" (replace "idx_fk_" "" idx_name)) as q.
  intros q p. induction p as [|c p IH]; [apply PyStrFacts.prefix_nil_l|].
  rewrite PyStrFacts.append_cons, PyStrFacts.prefix_cons, Ascii.eqb_refl. exact IH.
Qed.

End IndexNames.

(** ** C7: circular foreign-key pairs *)

Section CircularFKs.
Import BlueprintAgent BlueprintFacts.

Lemma graph_mutual (tables : list TableMetadata.t) (a b : string) :
  NoDup (TableMetadata.name <$> tables) ->
  "" ∉ TableMetadata.name <$> tables ->
  (exists ra rb, build_fk_graph tables !! a = Some ra /\ b ∈ ra
                 /\ build_fk_graph tables !! b = Some rb /\ a ∈ rb)
  <-> a <> b /\ fk_references tables a b /\ fk_references tables b a.
Proof.
  intros Hnd Hne. split.
  - intros (ra & rb & Ha & Hb & Hrb & Hab).
    apply (build_fk_graph_lookup tables a ra Hnd) in Ha as (ta & Hta & Hna & ->).
    apply (build_fk_graph_lookup tables b rb Hnd) in Hrb as (tb & Htb & Hnb & ->).
    apply elem_of_references_of in Hb as (fk & Hfk & Hr & _ & Hself).
    apply elem_of_references_of in Hab as (fk' & Hfk' & Hr' & _ & _).
    split; [congruence|]. split.
    + exists ta, fk. auto.
    + exists tb, fk'. auto.
  - intros (Hab & (ta & fk & Hta & Hna & Hfk & Hr) & (tb & fk' & Htb & Hnb & Hfk' & Hr')).
    assert (Ha : a <> "").
    { intros ->. apply Hne. apply list_elem_of_fmap. exists ta. auto. }
    assert (Hb : b <> "").
    { intros ->. apply Hne. apply list_elem_of_fmap. exists tb. auto. }
    exists (references_of ta), (references_of tb). splits.
    + apply build_fk_graph_lookup; [assumption|]. exists ta. auto.
    + apply elem_of_references_of. exists fk. splits; congruence.
    + apply build_fk_graph_lookup; [assumption|]. exists tb. auto.
    + apply elem_of_references_of. exists fk'. splits; congruence.
Qed.

(** C7.  With table names unique and non-empty: the stored pairs are
    exactly the name pairs [(a, b)], [a] before [b] in string order, of
    tables that reference each other; the lookup answers true exactly for
    two different tables that reference each other; and the lookup does not
    depend on the order of its arguments. *)
Theorem detect_circular_fks_spec (tables : list TableMetadata.t) :
  NoDup (TableMetadata.name <$> tables) ->
  "" ∉ TableMetadata.name <$> tables ->
  let circular_pairs := _detect_circular_fks tables in
  (forall a b, (a, b) ∈ circular_pairs <->
               String.ltb a b = true
               /\ fk_references tables a b /\ fk_references tables b a)
  /\ (forall a b, is_circular_fk circular_pairs a b = true <->
                  a <> b /\ fk_references tables a b /\ fk_references tables b a)
  /\ (forall a b, is_circular_fk circular_pairs a b
                  = is_circular_fk circular_pairs b a).
Proof.
  intros Hnd Hne circular_pairs.
  assert (Hmem : forall p, p ∈ circular_pairs <->
            exists a b, (a <> b /\ fk_references tables a b /\ fk_references tables b a)
                        /\ p = sorted_pair a b).
  { intros p. unfold circular_pairs. rewrite elem_of_detect. split.
    - intros (a & b & ra & rb & Ha & Hb & Hrb & Hab & ->).
      exists a, b. split; [|reflexivity]. apply graph_mutual; eauto 10.
    - intros (a & b & Hm & ->). apply graph_mutual in Hm as (ra & rb & H); [|assumption..].
      exists a, b, ra, rb. tauto. }
  splits.
  - intros a b. rewrite Hmem. split.
    + intros (a' & b' & (Hab & H1 & H2) & Hp).
      split.
      * pose proof (sorted_pair_ordered a' b' Hab) as Hord.
        rewrite <- Hp in Hord. exact Hord.
      * destruct (sorted_pair_eq _ _ _ _ Hp) as [[-> ->]|[-> ->]]; auto.
    + intros (Hlt & H1 & H2). exists a, b. split.
      * split; [|auto]. intros ->. rewrite ltb_irrefl in Hlt. discriminate.
      * unfold sorted_pair. rewrite (ltb_asym _ _ Hlt). reflexivity.
  - intros a b. unfold is_circular_fk. rewrite bool_decide_eq_true, Hmem. split.
    + intros (a' & b' & (Hab & H1 & H2) & Hp).
      destruct (sorted_pair_inv _ _ _ _ (eq_sym Hp)) as [[-> ->]|[-> ->]]; auto.
    + intros Hm. exists a, b. auto.
  - intros a b. unfold is_circular_fk. rewrite (sorted_pair_comm a b). reflexivity.
Qed.

(** The theorem at Sakila's [staff]/[store] pair. *)
Lemma detect_circular_fks_spec_witness :
  let circular_pairs := _detect_circular_fks sakila_tables in
  (forall a b, (a, b) ∈ circular_pairs <->
               String.ltb a b = true
               /\ fk_references sakila_tables a b /\ fk_references sakila_tables b a)
  /\ (forall a b, is_circular_fk circular_pairs a b = true <->
                  a <> b /\ fk_references sakila_tables a b
                  /\ fk_references sakila_tables b a)
  /\ (forall a b, is_circular_fk circular_pairs a b
                  = is_circular_fk circular_pairs b a).
Proof.
  apply (detect_circular_fks_spec sakila_tables).
  - apply (bool_decide_unpack _). vm_compute. exact I.
  - apply (bool_decide_unpack _). vm_compute. exact I.
Defined.

Example detect_circular_fks_sakila :
  elements (_detect_circular_fks sakila_tables) = [("staff", "store")].
Proof. vm_compute. reflexivity. Qed.

End CircularFKs.

(** ** C9: the type mapping *)

Section TypeMapping.
Import PyStr PyStrFacts SQLTransformer.

Lemma rstrip_cons_nonspace (c : ascii) (s : string) :
  is_space c = false -> rstrip (String c s) = String c (rstrip s).
Proof. intros Hc. cbn [rstrip]. rewrite Hc. destruct (rstrip s); reflexivity. Qed.

(** No key of the table starts with ENUM or with SET. *)
Lemma lookup_enum_none (r : string) : TYPE_MAPPINGS !! ("ENUM" +:+ r) = None.
Proof.
  unfold TYPE_MAPPINGS. apply not_elem_of_list_to_map_1.
  rewrite !append_cons, append_nil_l. simpl. intros Hin.
  repeat (apply elem_of_cons in Hin as [Hin|Hin]; [discriminate|]).
  inversion Hin.
Qed.

Lemma lookup_set_none (r : string) : TYPE_MAPPINGS !! ("SET" +:+ r) = None.
Proof.
  unfold TYPE_MAPPINGS. apply not_elem_of_list_to_map_1.
  rewrite !append_cons, append_nil_l. simpl. intros Hin.
  repeat (apply elem_of_cons in Hin as [Hin|Hin]; [discriminate|]).
  inversion Hin.
Qed.

Lemma base_type_enum (r : string) :
  strip (before_char "(" ("ENUM" +:+ r)) = "ENUM" +:+ rstrip (before_char "(" r).
Proof.
  rewrite !append_cons, append_nil_l. unfold strip. cbn [before_char Ascii.eqb].
  simpl. destruct (rstrip (before_char "(" r)); reflexivity.
Qed.

Lemma base_type_set (r : string) :
  strip (before_char "(" ("SET" +:+ r)) = "SET" +:+ rstrip (before_char "(" r).
Proof.
  rewrite !append_cons, append_nil_l. unfold strip. cbn [before_char Ascii.eqb].
  simpl. destruct (rstrip (before_char "(" r)); reflexivity.
Qed.

Lemma map_type_exact (mysql_type pg : string) :
  TYPE_MAPPINGS !! strip (upper mysql_type) = Some pg -> map_type mysql_type = pg.
Proof. unfold map_type. intros ->. reflexivity. Qed.

Lemma map_type_enum (mysql_type : string) :
  startswith "ENUM" (strip (upper mysql_type)) = true -> map_type mysql_type = "TEXT".
Proof.
  intros H. unfold map_type. rewrite H.
  rewrite (startswith_split _ _ H).
  rewrite lookup_enum_none, base_type_enum, lookup_enum_none. reflexivity.
Qed.

Lemma map_type_set (mysql_type : string) :
  startswith "SET" (strip (upper mysql_type)) = true -> map_type mysql_type = "TEXT[]".
Proof.
  intros H. unfold map_type. rewrite H.
  assert (He : startswith "ENUM" (strip (upper mysql_type)) = false).
  { rewrite (startswith_split _ _ H). reflexivity. }
  rewrite He. rewrite (startswith_split _ _ H).
  rewrite lookup_set_none, base_type_set, lookup_set_none. reflexivity.
Qed.

(** C9, as stated, fails: GEOMETRY is mapped to GEOMETRY, not to the point
    type. *)
Lemma map_type_geometry_counterexample :
  ~ (map_type "TINYINT" = "SMALLINT"
     /\ map_type "TINYINT(1)" = "BOOLEAN"
     /\ map_type "BLOB" = "BYTEA"
     /\ map_type "JSON" = "JSONB"
     /\ map_type "SET('a','b')" = "TEXT[]"
     /\ map_type "POINT" = "POINT"
     /\ map_type "GEOMETRY" = "POINT").
Proof. intros (_ & _ & _ & _ & _ & _ & H). vm_compute in H. discriminate. Qed.

(** C9, amended.  A type string that, upper-cased and stripped, is a key of
    the table maps to the table's entry: TINYINT to SMALLINT, TINYINT(1) to
    BOOLEAN, the four BLOB types to BYTEA, JSON to JSONB, POINT to POINT and
    GEOMETRY to GEOMETRY; every ENUM type maps to TEXT, with no check
    constraint in the result, and every SET type to TEXT[]. *)
Theorem map_type_table :
  (forall mysql_type pg,
      TYPE_MAPPINGS !! strip (upper mysql_type) = Some pg -> map_type mysql_type = pg)
  /\ TYPE_MAPPINGS !! "TINYINT" = Some "SMALLINT"
  /\ TYPE_MAPPINGS !! "TINYINT(1)" = Some "BOOLEAN"
  /\ (forall t, t ∈ ["TINYBLOB"; "BLOB"; "MEDIUMBLOB"; "LONGBLOB"] ->
        TYPE_MAPPINGS !! t = Some "BYTEA")
  /\ TYPE_MAPPINGS !! "JSON" = Some "JSONB"
  /\ TYPE_MAPPINGS !! "POINT" = Some "POINT"
  /\ TYPE_MAPPINGS !! "GEOMETRY" = Some "GEOMETRY"
  /\ (forall mysql_type,
        startswith "ENUM" (strip (upper mysql_type)) = true ->
        map_type mysql_type = "TEXT" /\ contains "CHECK" (map_type mysql_type) = false)
  /\ (forall mysql_type,
        startswith "SET" (strip (upper mysql_type)) = true ->
        map_type mysql_type = "TEXT[]").
Proof.
  split; [exact map_type_exact|].
  split; [vm_compute; reflexivity|].
  split; [vm_compute; reflexivity|].
  split.
  { intros t Ht.
    repeat (apply elem_of_cons in Ht as [->|Ht]; [vm_compute; reflexivity|]).
    inversion Ht. }
  split; [vm_compute; reflexivity|].
  split; [vm_compute; reflexivity|].
  split; [vm_compute; reflexivity|].
  split; [|exact map_type_set].
  intros mysql_type H. rewrite (map_type_enum _ H). split; reflexivity.
Qed.

Example map_type_samples :
  map_type "TINYINT" = "SMALLINT" /\ map_type "tinyint(1)" = "BOOLEAN"
  /\ map_type "LongBlob" = "BYTEA" /\ map_type "JSON" = "JSONB"
  /\ map_type "ENUM('a','b')" = "TEXT" /\ map_type "set('x','y')" = "TEXT[]"
  /\ map_type " point " = "POINT" /\ map_type "GEOMETRY" = "GEOMETRY"
  /\ map_type "decimal(10,2)" = "NUMERIC(10,2)".
Proof. vm_compute. repeat split. Qed.

End TypeMapping.

(** * Further properties: state reducers and comparison results *)

Module DictByFacts.
Import PyDict PyDictFacts Graph GraphFacts BuildFacts.

Section DictBy.
Context {T : Type} (key : T -> string).

Lemma latest_key (k : string) (items : list T) (y : T) :
  latest key k items = Some y -> key y = k /\ y ∈ items.
Proof.
  induction items as [|x rest IH]; simpl; [discriminate|].
  destruct (latest key k rest) as [z|].
  - intros [= ->]. destruct (IH eq_refl) as [? ?]. split; [assumption|set_solver].
  - case_decide; [|discriminate]. intros [= ->]. split; [assumption|set_solver].
Qed.

Lemma latest_None (k : string) (items : list T) :
  latest key k items = None <-> k ∉ key <$> items.
Proof.
  induction items as [|x rest IH]; simpl.
  - split; [intros _ Hin; inversion Hin | reflexivity].
  - rewrite not_elem_of_cons. destruct (latest key k rest) as [z|].
    + split; [discriminate|]. intros [_ Hn]. apply IH in Hn. discriminate.
    + case_decide; split; try discriminate; try reflexivity.
      * intros [Hn _]. congruence.
      * intros _. split; [congruence | apply IH; reflexivity].
Qed.

(** The last item with key [k], by position. *)
Lemma latest_Some (k : string) (items : list T) (y : T) :
  latest key k items = Some y <->
  exists i, items !! i = Some y /\ key y = k
            /\ forall j z, (i < j)%nat -> items !! j = Some z -> key z <> k.
Proof.
  revert y. induction items as [|x rest IH]; intros y; simpl.
  - split; [discriminate|]. intros (i & Hi & _). rewrite lookup_nil in Hi. discriminate.
  - destruct (latest key k rest) as [z|] eqn:Hl.
    + split.
      * intros [= ->]. destruct (proj1 (IH y) eq_refl) as (i & Hi & Hk & Hlast).
        exists (S i). split; [exact Hi|]. split; [exact Hk|].
        intros [|j] w Hj Hw; [lia|]. apply (Hlast j w); [lia|exact Hw].
      * intros (i & Hi & Hk & Hlast). f_equal.
        destruct (proj1 (IH z) eq_refl) as (i' & Hi' & Hk' & Hlast').
        destruct i as [|i].
        -- exfalso. apply (Hlast (S i') z); [lia|exact Hi'|exact Hk'].
        -- simpl in Hi. destruct (lt_eq_lt_dec i i') as [[Hlt|Heq]|Hgt].
           ++ exfalso. apply (Hlast (S i') z); [lia|exact Hi'|exact Hk'].
           ++ subst i'. congruence.
           ++ exfalso. apply (Hlast' i y); [lia|exact Hi|exact Hk].
    + apply latest_None in Hl. case_decide as Hx.
      * split.
        -- intros [= ->]. exists 0%nat. split; [reflexivity|]. split; [exact Hx|].
           intros [|j] w Hj Hw; [lia|]. simpl in Hw. intros Hkw. apply Hl.
           apply list_elem_of_fmap. exists w. split; [auto|].
           apply list_elem_of_lookup. eauto.
        -- intros (i & Hi & Hk & _). destruct i as [|i]; [simpl in Hi; congruence|].
           exfalso. apply Hl. apply list_elem_of_fmap. exists y. split; [auto|].
           apply list_elem_of_lookup. eauto.
      * split; [discriminate|]. intros (i & Hi & Hk & _).
        destruct i as [|i]; [simpl in Hi; congruence|].
        exfalso. apply Hl. apply list_elem_of_fmap. exists y. split; [auto|].
        apply list_elem_of_lookup. eauto.
Qed.

Lemma dict_by_spec (items : list T) (d : t T) :
  wf d ->
  let d' := dict_by key items d in
  wf d'
  /\ keys d' = keys d ++ filter (fun y => y ∉ keys d) (first_occ (key <$> items))
  /\ forall k, store d' !! k
               = match latest key k items with
                 | Some y => Some y
                 | None => store d !! k
                 end.
Proof.
  revert d. induction items as [|x rest IH]; intros d Hwf; simpl.
  - split; [assumption|]. split; [rewrite filter_nil, app_nil_r; reflexivity|].
    reflexivity.
  - destruct (IH (set (key x) x d) (wf_set _ _ _ Hwf)) as (Hwf' & Hkeys & Hstore).
    unfold dict_by in *. simpl.
    split; [assumption|]. split.
    + rewrite Hkeys, filter_cons.
      destruct (decide (key x ∈ keys d)) as [Hin|Hnin].
      * rewrite keys_set_in by assumption.
        destruct (decide (key x ∉ keys d)) as [?|_]; [contradiction|].
        rewrite filter_filter. f_equal. apply filter_ext_in.
        intros y _. split; [|tauto]. intros Hy. split; [exact Hy|congruence].
      * rewrite keys_set_notin by assumption.
        destruct (decide (key x ∉ keys d)) as [_|?]; [|contradiction].
        rewrite filter_filter, <- app_assoc. simpl. do 2 f_equal.
        apply filter_ext_in. intros y _.
        rewrite not_elem_of_app, list_elem_of_singleton. reflexivity.
    + intros k. rewrite Hstore, store_set.
      destruct (latest key k rest); [reflexivity|].
      case_decide as Hx.
      * rewrite <- Hx, lookup_insert_eq. reflexivity.
      * rewrite lookup_insert_ne by assumption. reflexivity.
Qed.

End DictBy.
End DictByFacts.

Module StateFacts.
Import PyDict PyDictFacts Graph GraphFacts BuildFacts DictByFacts State.

Lemma dict_values_omap {T} (d : t T) :
  dict_values d = omap (fun k => store d !! k) (keys d).
Proof.
  unfold dict_values, items. induction (keys d) as [|k ks IH]; [reflexivity|].
  csimpl. destruct (store d !! k); csimpl; [f_equal|]; exact IH.
Qed.

Lemma omap_latest {T} (key : T -> string) (items : list T) (ks : list string) :
  (forall k, k ∈ ks -> k ∈ key <$> items) ->
  key <$> omap (fun k => latest key k items) ks = ks.
Proof.
  induction ks as [|k ks IH]; intros Hks; [reflexivity|]. csimpl.
  destruct (latest key k items) as [y|] eqn:Hl.
  - csimpl. f_equal; [|apply IH; intros; apply Hks; set_solver].
    apply latest_key in Hl as [-> _]. reflexivity.
  - apply latest_None in Hl. exfalso. apply Hl, Hks. set_solver.
Qed.

Lemma elem_of_omap_latest {T} (key : T -> string) (items : list T)
    (ks : list string) (y : T) :
  (forall k, k ∈ ks <-> k ∈ key <$> items) ->
  y ∈ omap (fun k => latest key k items) ks <-> latest key (key y) items = Some y.
Proof.
  intros Hks. rewrite list_elem_of_omap. split.
  - intros (k & _ & Hl). pose proof (latest_key _ _ _ _ Hl) as [Hk _].
    rewrite Hk. exact Hl.
  - intros Hl. exists (key y). split; [|exact Hl].
    apply Hks. apply latest_key in Hl as [_ Hin].
    apply list_elem_of_fmap. eauto.
Qed.

Lemma dict_values_dict_by {T} (key : T -> string) (items : list T) :
  dict_values (dict_by key items empty)
  = omap (fun k => latest key k items) (first_occ (key <$> items)).
Proof.
  destruct (dict_by_spec key items empty wf_empty) as (_ & Hkeys & Hstore).
  simpl in Hkeys. rewrite filter_notin_nil in Hkeys.
  rewrite dict_values_omap, Hkeys.
  apply list_omap_ext, Forall2_same_length_lookup_2; [reflexivity|].
  intros i k k' Hk Hk'. rewrite Hk in Hk'. injection Hk' as <-.
  rewrite Hstore. simpl. rewrite lookup_empty.
  destruct (latest key k items); reflexivity.
Qed.

(** [update_ddl_list] goes through [existing] and then [new] as one list. *)
Lemma update_ddl_list_app (existing new : list TransformedDDL.t) :
  update_ddl_list existing new
  = dict_values (dict_by TransformedDDL.object_name (existing ++ new) empty).
Proof. unfold update_ddl_list, dict_by. rewrite fold_left_app. reflexivity. Qed.

End StateFacts.

Section StateReducers.
Import PyDict PyDictFacts Graph GraphFacts DictByFacts State StateFacts.

(** X1.  [update_ddl_list] returns one entry for each object name of
    [existing + new], in the order in which the names first occur, and the
    entry of a name is the last item of [existing + new] carrying it: an
    item of [new] replaces the items of the same name before it, at the
    position of the first of them. *)
Theorem update_ddl_list_spec (existing new : list TransformedDDL.t) :
  let result := update_ddl_list existing new in
  let all := existing ++ new in
  TransformedDDL.object_name <$> result
    = first_occ (TransformedDDL.object_name <$> all)
  /\ NoDup (TransformedDDL.object_name <$> result)
  /\ forall item, item ∈ result <->
       exists i, all !! i = Some item
         /\ forall j item', (i < j)%nat -> all !! j = Some item' ->
              TransformedDDL.object_name item' <> TransformedDDL.object_name item.
Proof.
  simpl. rewrite update_ddl_list_app, dict_values_dict_by.
  assert (Hnames : TransformedDDL.object_name <$>
            omap (fun k => latest TransformedDDL.object_name k (existing ++ new))
              (first_occ (TransformedDDL.object_name <$> existing ++ new))
          = first_occ (TransformedDDL.object_name <$> existing ++ new)).
  { apply omap_latest. intros k. rewrite elem_of_first_occ. auto. }
  split; [exact Hnames|]. split; [rewrite Hnames; apply NoDup_first_occ|].
  intros item. rewrite elem_of_omap_latest by (intros k; apply elem_of_first_occ).
  rewrite latest_Some. split.
  - intros (i & Hi & _ & Hlast). eauto.
  - intros (i & Hi & Hlast). exists i. eauto.
Qed.

End StateReducers.

Section ComparisonResult.
Import SchemaComparisonResult.

Lemma after_snoc (calls : list call) (c : call) :
  after (calls ++ [c]) = apply (after calls) c.
Proof. unfold after. rewrite fold_left_app. reflexivity. Qed.

Lemma issues_of_snoc (calls : list call) (c : call) :
  issues_of (calls ++ [c])
  = issues_of calls ++ match c with AddIssue i => [i] | AddPass => [] end.
Proof. unfold issues_of. rewrite omap_app. destruct c; reflexivity. Qed.

Lemma passes_of_snoc (calls : list call) (c : call) :
  length (passes_of (calls ++ [c]))
  = (length (passes_of calls) + if is_pass c then 1 else 0)%nat.
Proof.
  unfold passes_of. rewrite List.filter_app, length_app. simpl.
  destruct (is_pass c); reflexivity.
Qed.

(** X2.  After any sequence of [add_issue] and [add_pass] calls on a fresh
    result: the issues are the ones added, in order; [failed_checks] is
    their number; [passed_checks] is the number of [add_pass] calls;
    [total_checks] equals [passed_checks], as [add_issue] never counts its
    check in the total; and [passed] holds exactly when no issue added was
    of severity critical. *)
Theorem comparison_result_counters (calls : list call) :
  let r := after calls in
  issues r = issues_of calls
  /\ failed_checks r = Z.of_nat (length (issues_of calls))
  /\ passed_checks r = Z.of_nat (length (passes_of calls))
  /\ total_checks r = passed_checks r
  /\ (passed r = true <->
      forall i, i ∈ issues_of calls -> ValidationIssue.severity i <> "critical").
Proof.
  simpl. induction calls as [|c calls IH] using rev_ind.
  - splits; try reflexivity. split; [|reflexivity]. intros _ i Hi. inversion Hi.
  - destruct IH as (Hi & Hf & Hp & Ht & Hpass).
    rewrite after_snoc, issues_of_snoc, passes_of_snoc.
    destruct c as [issue|]; simpl.
    + rewrite app_nil_r || idtac. splits.
      * rewrite Hi. reflexivity.
      * rewrite Hf, length_app. simpl. lia.
      * rewrite Hp. f_equal. lia.
      * exact Ht.
      * destruct (String.eqb (ValidationIssue.severity issue) "critical") eqn:He.
        -- split; [discriminate|]. intros H. apply String.eqb_eq in He.
           exfalso. apply (H issue); [set_solver|exact He].
        -- apply String.eqb_neq in He. rewrite Hpass. split.
           ++ intros H i Hin. apply elem_of_app in Hin as [Hin|Hin]; [auto|].
              apply list_elem_of_singleton in Hin. subst i. exact He.
           ++ intros H i Hin. apply H. set_solver.
    + rewrite app_nil_r. splits.
      * exact Hi.
      * exact Hf.
      * rewrite Hp. lia.
      * rewrite Ht. reflexivity.
      * exact Hpass.
Qed.

End ComparisonResult.

(** * Further properties: cleaning an LLM answer *)

Module PyStrMore.
Import PyStr PyStrFacts.

Lemma endswith_refl (s : string) : endswith s s = true.
Proof. destruct s; cbn [endswith]; rewrite String.eqb_refl; reflexivity. Qed.

Lemma endswith_app (t suf : string) : endswith suf (t +:+ suf) = true.
Proof.
  induction t as [|c t IH]; [apply endswith_refl|].
  rewrite append_cons. cbn [endswith]. rewrite IH. apply orb_true_r.
Qed.

Lemma startswith_app (p s : string) : startswith p (p +:+ s) = true.
Proof.
  unfold startswith. induction p as [|c p IH]; [apply prefix_nil_l|].
  rewrite append_cons, prefix_cons, Ascii.eqb_refl, IH. reflexivity.
Qed.

Lemma drop_app (p s : string) : drop (String.length p) (p +:+ s) = s.
Proof. induction p as [|c p IH]; [reflexivity|]. exact IH. Qed.

Lemma length_app (s t : string) :
  String.length (s +:+ t) = (String.length s + String.length t)%nat.
Proof.
  induction s as [|c s IH]; [reflexivity|]. rewrite append_cons. simpl. rewrite IH.
  reflexivity.
Qed.

Lemma take_app (s t : string) : take (String.length s) (s +:+ t) = s.
Proof.
  induction s as [|c s IH]; [destruct t; reflexivity|].
  rewrite append_cons. simpl. rewrite IH. reflexivity.
Qed.

Lemma drop_end_app (t suf : string) : drop_end (String.length suf) (t +:+ suf) = t.
Proof.
  unfold drop_end. rewrite length_app.
  replace (String.length t + String.length suf - String.length suf)%nat
    with (String.length t) by lia.
  apply take_app.
Qed.

Lemma last_char_snoc (t : string) (c : ascii) : last_char (t +:+ String c "") = Some c.
Proof.
  induction t as [|d t IH]; [reflexivity|]. rewrite append_cons.
  cbn [last_char]. destruct (t +:+ String c "") eqn:E; [|exact IH].
  destruct t; discriminate.
Qed.

Lemma last_char_app (t suf : string) (c : ascii) :
  last_char suf = Some c -> last_char (t +:+ suf) = Some c.
Proof.
  intros Hc. induction t as [|d t IH]; [exact Hc|]. rewrite append_cons.
  cbn [last_char]. destruct (t +:+ suf) eqn:E; [|exact IH].
  destruct t; [|discriminate]. rewrite append_nil_l in E. subst suf. discriminate.
Qed.

Lemma endswith_last_char (suf s : string) (c : ascii) :
  endswith suf s = true -> last_char suf = Some c -> last_char s = Some c.
Proof.
  intros H Hc. rewrite (endswith_split _ _ H). apply last_char_app. exact Hc.
Qed.

Lemma rstrip_snoc_nonspace (t : string) (c : ascii) :
  is_space c = false -> rstrip (t +:+ String c "") = t +:+ String c "".
Proof.
  intros Hc. induction t as [|d t IH].
  - simpl. rewrite Hc. reflexivity.
  - rewrite append_cons. cbn [rstrip]. rewrite IH.
    destruct (t +:+ String c "") eqn:E; [destruct t; discriminate|reflexivity].
Qed.

Lemma rstrip_all_space (w : string) : all_chars is_space w = true -> rstrip w = "".
Proof.
  induction w as [|c w IH]; [reflexivity|]. simpl.
  intros H. apply andb_true_iff in H as [Hc Hw]. rewrite (IH Hw), Hc. reflexivity.
Qed.

Lemma lstrip_all_space (w : string) : all_chars is_space w = true -> lstrip w = "".
Proof.
  induction w as [|c w IH]; [reflexivity|]. simpl.
  intros H. apply andb_true_iff in H as [Hc Hw]. rewrite Hc. exact (IH Hw).
Qed.

Lemma rstrip_app_space (s w : string) :
  all_chars is_space w = true -> rstrip (s +:+ w) = rstrip s.
Proof.
  intros Hw. induction s as [|c s IH].
  - rewrite append_nil_l. apply rstrip_all_space. exact Hw.
  - rewrite append_cons. cbn [rstrip]. rewrite IH. reflexivity.
Qed.

Lemma lstrip_first_nonspace (s : string) :
  (forall c, first_char s = Some c -> is_space c = false) -> lstrip s = s.
Proof.
  destruct s as [|c s]; [reflexivity|]. intros H. simpl.
  rewrite (H c eq_refl). reflexivity.
Qed.

Lemma first_char_lstrip (s : string) (c : ascii) :
  first_char (lstrip s) = Some c -> is_space c = false.
Proof.
  induction s as [|d s IH]; simpl; [discriminate|].
  destruct (is_space d) eqn:Hd; [exact IH|]. simpl. intros [= <-]. exact Hd.
Qed.

Lemma first_char_rstrip (s : string) (c : ascii) :
  first_char (rstrip s) = Some c -> first_char s = Some c.
Proof.
  destruct s as [|d s]; [discriminate|]. cbn [rstrip].
  destruct (rstrip s); [destruct (is_space d)|]; simpl; congruence.
Qed.

Lemma first_char_strip (s : string) (c : ascii) :
  first_char (strip s) = Some c -> is_space c = false.
Proof.
  unfold strip. intros H. apply first_char_rstrip in H.
  exact (first_char_lstrip _ _ H).
Qed.

Lemma first_char_app (s t : string) (c : ascii) :
  first_char s = Some c -> first_char (s +:+ t) = Some c.
Proof. destruct s; [discriminate|]. rewrite append_cons. intros H. exact H. Qed.

Lemma last_char_split (s : string) (c : ascii) :
  last_char s = Some c -> exists t, s = t +:+ String c "".
Proof.
  induction s as [|d s IH]; [discriminate|]. cbn [last_char].
  destruct s as [|e s].
  - intros [= ->]. exists "". reflexivity.
  - intros H. destruct (IH H) as (t & Ht). exists (String d t).
    rewrite append_cons, <- Ht. reflexivity.
Qed.

(** A string that neither starts nor ends with whitespace is its own
    [strip]. *)
Lemma strip_fixed (s : string) (c : ascii) :
  (forall a, first_char s = Some a -> is_space a = false) ->
  last_char s = Some c -> is_space c = false -> strip s = s.
Proof.
  intros Hfirst Hlast Hc. unfold strip. rewrite (lstrip_first_nonspace _ Hfirst).
  destruct (last_char_split _ _ Hlast) as (t & ->).
  apply rstrip_snoc_nonspace. exact Hc.
Qed.

Lemma startswith_app_l (p q s : string) :
  startswith (p +:+ q) s = true -> startswith p s = true.
Proof.
  unfold startswith. revert s. induction p as [|a p IH]; intros s; [intros _; apply prefix_nil_l|].
  rewrite append_cons. destruct s as [|c s]; [discriminate|].
  rewrite !prefix_cons. intros H. apply andb_true_iff in H as [Ha Hp].
  rewrite Ha, (IH _ Hp). reflexivity.
Qed.

End PyStrMore.

Section CleanSql.
Import PyStr PyStrFacts PyStrMore SchemaAgent ErrorFixerAgent.

(** X3.  Whatever the model answers, the statement [_clean_sql_output]
    returns ends with a semicolon and does not start with whitespace; an
    answer of whitespace only becomes the statement [;]. *)
Theorem clean_sql_output_shape (sql : string) :
  let r := _clean_sql_output sql in
  endswith ";" r = true
  /\ (forall c, first_char r = Some c -> is_space c = false)
  /\ (all_chars is_space sql = true -> r = ";").
Proof.
  simpl. unfold _clean_sql_output.
  set (body := if startswith "```sql" (strip sql) then drop 6 (strip sql)
               else if startswith "```" (strip sql) then drop 3 (strip sql)
               else strip sql).
  set (inner := if endswith "```" body then drop_end 3 body else body).
  splits.
  - destruct (endswith ";" (strip inner)) eqn:He; simpl; [exact He|].
    apply (endswith_app (strip inner) ";").
  - intros c. destruct (endswith ";" (strip inner)) eqn:He; simpl.
    + apply first_char_strip.
    + destruct (strip inner) as [|d s] eqn:Hs.
      * rewrite append_nil_l. simpl. intros [= <-]. reflexivity.
      * rewrite append_cons. simpl. intros [= <-].
        apply (first_char_strip inner). rewrite Hs. reflexivity.
  - intros Hw.
    assert (Hs : strip sql = "").
    { unfold strip. rewrite (lstrip_all_space _ Hw). reflexivity. }
    subst inner body. rewrite Hs. reflexivity.
Qed.

(** X4.  The error fixer's [_clean_sql] differs from the schema agent's
    [_clean_sql_output] only on an answer that is blank once the code
    fence is removed: there it returns the empty string, where
    [_clean_sql_output] returns [;]. *)
Theorem clean_sql_agrees (sql : string) :
  (_clean_sql sql <> "" -> _clean_sql sql = _clean_sql_output sql)
  /\ (_clean_sql sql = "" -> _clean_sql_output sql = ";").
Proof.
  unfold _clean_sql, _clean_sql_output.
  set (body := if startswith "```sql" (strip sql) then drop 6 (strip sql)
               else if startswith "```" (strip sql) then drop 3 (strip sql)
               else strip sql).
  set (inner := strip (if endswith "```" body then drop_end 3 body else body)).
  destruct (String.eqb inner "") eqn:He.
  - apply String.eqb_eq in He. rewrite He. simpl. split; [congruence|reflexivity].
  - simpl. split; [reflexivity|].
    apply String.eqb_neq in He.
    destruct (endswith ";" inner); simpl; [congruence|].
    destruct inner; [congruence|discriminate].
Qed.

(** X5.  A statement that ends with a semicolon, starts with no whitespace
    and with no code fence is returned unchanged by [_clean_sql_output],
    and the same statement is recovered from an answer that wraps it in a
    [```sql] or a bare [```] fence on lines of their own. *)
Theorem clean_sql_output_unwraps (body : string) :
  endswith ";" body = true ->
  (forall c, first_char body = Some c -> is_space c = false) ->
  startswith "```" body = false ->
  _clean_sql_output body = body
  /\ _clean_sql_output ("```sql" +:+ (newline +:+ (body +:+ (newline +:+ "```")))) = body
  /\ _clean_sql_output ("```" +:+ (newline +:+ (body +:+ (newline +:+ "```")))) = body.
Proof.
  intros Hsemi Hfirst Hfence.
  assert (Hlast : last_char body = Some ";"%char).
  { apply (endswith_last_char ";" body); [exact Hsemi|reflexivity]. }
  assert (Hstrip : strip body = body).
  { apply (strip_fixed body ";"%char); [exact Hfirst|exact Hlast|reflexivity]. }
  assert (Hinner : strip (newline +:+ (body +:+ newline)) = body).
  { unfold strip. change (lstrip (newline +:+ (body +:+ newline)))
      with (lstrip (body +:+ newline)).
    rewrite lstrip_first_nonspace.
    - rewrite rstrip_app_space by reflexivity.
      destruct (last_char_split _ _ Hlast) as (t & Ht). rewrite Ht.
      apply rstrip_snoc_nonspace. reflexivity.
    - intros c Hc. apply Hfirst. destruct body; [discriminate|exact Hc]. }
  assert (Hnoend : endswith "```" body = false).
  { destruct (endswith "```" body) eqn:He; [|reflexivity].
    pose proof (endswith_last_char _ _ "`"%char He eq_refl) as Hl. congruence. }
  assert (Hnosql : startswith "```sql" body = false).
  { destruct (startswith "```sql" body) eqn:He; [|reflexivity].
    rewrite (startswith_app_l "```" "sql" body He) in Hfence. discriminate. }
  assert (Htail : forall fence : string,
            fence +:+ (newline +:+ (body +:+ (newline +:+ "```")))
            = (fence +:+ (newline +:+ (body +:+ (newline +:+ "``")))) +:+ "`").
  { intros fence. rewrite !append_assoc. reflexivity. }
  assert (Hwrap : forall fence : string,
            (forall a, first_char fence = Some a -> is_space a = false) ->
            fence <> "" ->
            strip (fence +:+ (newline +:+ (body +:+ (newline +:+ "```"))))
            = fence +:+ (newline +:+ (body +:+ (newline +:+ "```")))).
  { intros fence Hf Hne. apply (strip_fixed _ "`"%char).
    - intros a Ha. apply Hf. destruct fence; [congruence|exact Ha].
    - rewrite Htail. apply last_char_snoc.
    - reflexivity. }
  assert (Hrest : newline +:+ (body +:+ (newline +:+ "```"))
                  = (newline +:+ (body +:+ newline)) +:+ "```").
  { rewrite !append_assoc. reflexivity. }
  splits.
  - unfold _clean_sql_output. rewrite Hstrip, Hnosql, Hfence, Hnoend, Hstrip, Hsemi.
    reflexivity.
  - unfold _clean_sql_output. rewrite Hwrap by (try discriminate; intros a [= <-]; reflexivity).
    rewrite startswith_app.
    change 6%nat with (String.length "```sql"). rewrite drop_app, Hrest.
    rewrite endswith_app. change 3%nat with (String.length "```").
    rewrite drop_end_app, Hinner, Hsemi. reflexivity.
  - unfold _clean_sql_output. rewrite Hwrap by (try discriminate; intros a [= <-]; reflexivity).
    change (startswith "```sql" ("```" +:+ (newline +:+ (body +:+ (newline +:+ "```")))))
      with false.
    rewrite startswith_app.
    change 3%nat with (String.length "```"). rewrite drop_app, Hrest.
    rewrite endswith_app, drop_end_app, Hinner, Hsemi. reflexivity.
Qed.

Lemma clean_sql_output_unwraps_witness :
  _clean_sql_output "SELECT 1;" = "SELECT 1;"
  /\ _clean_sql_output ("```sql" +:+ (newline +:+ ("SELECT 1;" +:+ (newline +:+ "```"))))
     = "SELECT 1;"
  /\ _clean_sql_output ("```" +:+ (newline +:+ ("SELECT 1;" +:+ (newline +:+ "```"))))
     = "SELECT 1;".
Proof.
  apply (clean_sql_output_unwraps "SELECT 1;").
  - reflexivity.
  - intros c [= <-]. reflexivity.
  - reflexivity.
Defined.

End CleanSql.

(** * Further properties: the data migrator *)

Module DataMigratorFacts.
Import PyStr PyVal DataMigrator.

Section Batches.
Variable batch_size : Z.
Variable tables : gmap string (list row).
Variable get_columns : string -> db_result (list Column.t).
Variable insert_error : list insert_call -> string -> list row -> option string.
Variable table_name : string.
Variable rows : list row.
Variable columns : list Column.t.
Hypothesis Hrows : tables !! table_name = Some rows.
Hypothesis Hbatch : 0 < batch_size.

Let transformed (rs : list row) : list row := (fun r => transform_row r columns) <$> rs.

Lemma migrate_batches_table_source (fuel : nat) :
  forall (rest : list row) (offset batch_num total_rows : Z) (errors : list string)
         (calls : list insert_call),
  0 <= offset ->
  skipn (Z.to_nat offset) rows = rest ->
  (length rest < fuel)%nat ->
  exists new,
    migrate_batches batch_size (table_source tables) insert_error fuel table_name
      columns offset batch_num total_rows errors calls
    = Returns (TableMigrationResult.mk table_name (total_rows + accepted_rows new)
                 (bool_decide (errors ++ batch_errors batch_num new = []))
                 (errors ++ batch_errors batch_num new),
               calls ++ new)
    /\ concat (parameters <$> new) = transformed rest
    /\ Forall (fun c => sql c = insert_sql table_name (Column.name <$> columns)
                        /\ (0 < length (parameters c) <= Z.to_nat batch_size)%nat
                        /\ exists before,
                             answer c = insert_error before (sql c) (parameters c)) new.
Proof.
  induction fuel as [|fuel IH]; intros rest offset batch_num total_rows errors calls
    Hoff Hskip Hfuel; [lia|].
  cbn [migrate_batches]. unfold table_source at 1. rewrite Hrows.
  replace ((batch_size <? 0) || (offset <? 0)) with false
    by (symmetry; apply orb_false_iff; split; apply Z.ltb_ge; lia).
  rewrite Hskip.
  destruct rest as [|r rest'].
  - rewrite firstn_nil. exists []. simpl. rewrite !app_nil_r, Z.add_0_r.
    split; [reflexivity|]. split; [reflexivity|constructor].
  - destruct (Z.to_nat batch_size) as [|b] eqn:Hb; [lia|].
    rewrite firstn_cons.
    assert (Hnext : skipn (Z.to_nat (offset + batch_size)) rows = skipn b rest').
    { rewrite Z2Nat.inj_add by lia. rewrite Hb, Nat.add_comm, <- skipn_skipn, Hskip.
      reflexivity. }
    assert (Hlen : (length (skipn b rest') < fuel)%nat).
    { rewrite length_skipn. simpl in Hfuel. lia. }
    assert (Hsplit : transformed (r :: firstn b rest') ++ transformed (skipn b rest')
                     = transformed (r :: rest')).
    { unfold transformed. rewrite <- fmap_app. simpl. rewrite firstn_skipn. reflexivity. }
    assert (Hsize : (0 < length (transformed (r :: firstn b rest')) <= S b)%nat).
    { unfold transformed. rewrite length_fmap. simpl. rewrite length_firstn. lia. }
    fold (transformed (r :: firstn b rest')).
    unfold bulk_insert. unfold transformed at 1. rewrite fmap_cons.
    fold (transformed (firstn b rest')).
    change (transform_row r columns :: transformed (firstn b rest'))
      with (transformed (r :: firstn b rest')).
    destruct (insert_error calls (insert_sql table_name (Column.name <$> columns))
                (transformed (r :: firstn b rest'))) as [e|] eqn:Hins.
    + destruct (IH (skipn b rest') (offset + batch_size) (batch_num + 1) total_rows
                  (errors ++ ["Batch " +:+ str_of_int batch_num +:+ ": "
                                +:+ str_of_option (Some e)])
                  (calls ++ [mk_call (insert_sql table_name (Column.name <$> columns))
                               (transformed (r :: firstn b rest')) (Some e)]))
        as (new & Hrun & Hcat & Hall); [lia|exact Hnext|exact Hlen|].
      exists (mk_call (insert_sql table_name (Column.name <$> columns))
                (transformed (r :: firstn b rest')) (Some e) :: new).
      split; [|split].
      * rewrite Hrun. cbn [batch_errors accepted_rows fold_right answer].
        rewrite <- !app_assoc. reflexivity.
      * rewrite fmap_cons. cbn [concat parameters]. rewrite Hcat. exact Hsplit.
      * constructor; [|exact Hall]. cbn [sql parameters answer].
        split; [reflexivity|]. split; [exact Hsize|]. exists calls. rewrite Hins.
        reflexivity.
    + destruct (IH (skipn b rest') (offset + batch_size) (batch_num + 1)
                  (total_rows + Z.of_nat (length (transformed (r :: firstn b rest'))))
                  errors
                  (calls ++ [mk_call (insert_sql table_name (Column.name <$> columns))
                               (transformed (r :: firstn b rest')) None]))
        as (new & Hrun & Hcat & Hall); [lia|exact Hnext|exact Hlen|].
      exists (mk_call (insert_sql table_name (Column.name <$> columns))
                (transformed (r :: firstn b rest')) None :: new).
      split; [|split].
      * rewrite Hrun. cbn [batch_errors accepted_rows fold_right answer parameters].
        rewrite <- !app_assoc, Z.add_assoc. reflexivity.
      * rewrite fmap_cons. cbn [concat parameters]. rewrite Hcat. exact Hsplit.
      * constructor; [|exact Hall]. cbn [sql parameters answer].
        split; [reflexivity|]. split; [exact Hsize|]. exists calls. rewrite Hins.
        reflexivity.
Qed.

End Batches.

Lemma accepted_all (calls : list insert_call) :
  Forall (fun c => answer c = None) calls ->
  accepted_rows calls = Z.of_nat (length (concat (parameters <$> calls)))
  /\ forall n, batch_errors n calls = [].
Proof.
  induction 1 as [|c calls Hc _ [IHa IHe]]; [split; reflexivity|].
  rewrite fmap_cons. cbn [accepted_rows fold_right batch_errors concat]. rewrite Hc.
  split.
  - fold (accepted_rows calls). rewrite IHa, length_app. lia.
  - intros n. apply IHe.
Qed.

End DataMigratorFacts.

Section MigrateTable.
Import PyStr PyVal DataMigrator DataMigratorFacts.

(** X6.  Reading a source table of fixed content with a positive batch
    size, [migrate_table] returns after sending the target one INSERT per
    batch and nothing else: the rows of the INSERTs, put end to end, are
    the transformed source rows in order, each INSERT carries between one
    and [batch_size] rows, a refused batch does not stop the later ones,
    [rows_migrated] counts the rows of the accepted INSERTs, and the
    result is a success exactly when no INSERT was refused.  When the
    target refuses nothing, every source row is counted. *)
Theorem migrate_table_batches (batch_size : Z) (tables : gmap string (list row))
    (get_columns : string -> db_result (list Column.t))
    (insert_error : list insert_call -> string -> list row -> option string)
    (table_name : string) (rows : list row) (columns : list Column.t)
    (fuel : nat) (calls : list insert_call) :
  tables !! table_name = Some rows ->
  0 < batch_size ->
  (length rows < fuel)%nat ->
  exists new,
    migrate_table batch_size (table_source tables) get_columns insert_error fuel
      table_name (Some columns) calls
    = Returns (TableMigrationResult.mk table_name (accepted_rows new)
                 (bool_decide (batch_errors 0 new = [])) (batch_errors 0 new),
               calls ++ new)
    /\ concat (parameters <$> new) = (fun r => transform_row r columns) <$> rows
    /\ Forall (fun c => sql c = insert_sql table_name (Column.name <$> columns)
                        /\ (0 < length (parameters c) <= Z.to_nat batch_size)%nat) new
    /\ ((forall before sql rs, insert_error before sql rs = None) ->
        accepted_rows new = Z.of_nat (length rows) /\ batch_errors 0 new = []).
Proof.
  intros Hrows Hbatch Hfuel. unfold migrate_table.
  destruct (migrate_batches_table_source batch_size tables insert_error table_name
              rows columns Hrows Hbatch fuel rows 0 0 0 [] calls)
    as (new & Hrun & Hcat & Hall); [lia|reflexivity|exact Hfuel|].
  exists new. rewrite Hrun, Z.add_0_l, app_nil_l.
  split; [reflexivity|]. split; [exact Hcat|]. split.
  - eapply Forall_impl; [exact Hall|]. intros c (Hsql & Hlen & _). split; assumption.
  - intros Hnone.
    assert (Hans : Forall (fun c => answer c = None) new).
    { eapply Forall_impl; [exact Hall|]. intros c (_ & _ & before & ->). apply Hnone. }
    destruct (accepted_all new Hans) as [Ha He].
    rewrite Ha, Hcat, length_fmap. split; [reflexivity|apply He].
Qed.

Lemma migrate_table_batches_witness :
  exists new,
    migrate_table 2 (table_source sakila_source) actor_inspector
      accept_all 4 "actor" (Some actor_columns) []
    = Returns (TableMigrationResult.mk "actor" (accepted_rows new)
                 (bool_decide (batch_errors 0 new = [])) (batch_errors 0 new),
               [] ++ new)
    /\ concat (parameters <$> new)
       = (fun r => transform_row r actor_columns) <$> actor_rows
    /\ Forall (fun c => sql c = insert_sql "actor" (Column.name <$> actor_columns)
                        /\ (0 < length (parameters c) <= Z.to_nat 2)%nat) new
    /\ ((forall before sql rs, accept_all before sql rs = None) ->
        accepted_rows new = Z.of_nat (length actor_rows) /\ batch_errors 0 new = []).
Proof.
  apply (migrate_table_batches 2 sakila_source actor_inspector
           accept_all "actor" actor_rows actor_columns 4 []).
  - vm_compute. reflexivity.
  - lia.
  - simpl. lia.
Defined.

(** X7.  Two ways [migrate_table] copies nothing.  With a batch size of 0
    the first page is empty, so no row is read or written and the result
    is a success with 0 rows, whatever the table holds.  When the caller
    gives no columns and the inspector fails on the table, the exception
    leaves [migrate_table]: no failed result is returned and the target is
    not touched. *)
Theorem migrate_table_copies_nothing (tables : gmap string (list row))
    (get_columns : string -> db_result (list Column.t))
    (insert_error : list insert_call -> string -> list row -> option string)
    (select_page : string -> Z -> Z -> db_result (list row))
    (batch_size : Z) (table_name e : string) (rows : list row)
    (columns : list Column.t) (fuel : nat) (calls : list insert_call) :
  tables !! table_name = Some rows ->
  get_columns table_name = DbError e ->
  migrate_table 0 (table_source tables) get_columns insert_error (S fuel)
    table_name (Some columns) calls
  = Returns (TableMigrationResult.mk table_name 0 true [], calls)
  /\ migrate_table batch_size select_page get_columns insert_error fuel
       table_name None calls
     = Throws e.
Proof.
  intros Hrows Hcols. split.
  - unfold migrate_table. cbn [migrate_batches]. unfold table_source.
    rewrite Hrows. reflexivity.
  - unfold migrate_table. rewrite Hcols. reflexivity.
Qed.

Lemma migrate_table_copies_nothing_witness :
  migrate_table 0 (table_source sakila_source) no_such_table
    accept_all 1 "actor" (Some actor_columns) []
  = Returns (TableMigrationResult.mk "actor" 0 true [], [])
  /\ migrate_table 1000 (table_source sakila_source) no_such_table
       accept_all 0 "actor" None []
     = Throws "NoSuchTableError".
Proof.
  apply (migrate_table_copies_nothing sakila_source no_such_table
           accept_all (table_source sakila_source) 1000 "actor"
           "NoSuchTableError" actor_rows actor_columns 0 []).
  - vm_compute. reflexivity.
  - reflexivity.
Defined.

End MigrateTable.

Module FullMigrationFacts.
Import PyStr PyVal DataMigrator.

Section Loop.
Variable batch_size : Z.
Variable select_page : string -> Z -> Z -> db_result (list row).
Variable get_columns : string -> db_result (list Column.t).
Variable insert_error : list insert_call -> string -> list row -> option string.

Lemma migrate_batches_name (fuel : nat) :
  forall table_name columns offset batch_num total_rows errors calls r calls',
  migrate_batches batch_size select_page insert_error fuel table_name columns
    offset batch_num total_rows errors calls = Returns (r, calls') ->
  TableMigrationResult.table_name r = table_name.
Proof.
  induction fuel as [|fuel IH]; intros table_name columns offset batch_num total_rows
    errors calls r calls'; cbn [migrate_batches]; [discriminate|].
  destruct (select_page table_name batch_size offset) as [[|row0 batch]|e].
  - intros [= <- _]. reflexivity.
  - destruct (bulk_insert insert_error table_name _ _ calls) as [[[] error] calls1];
      apply IH.
  - intros [= <- _]. reflexivity.
Qed.

Lemma migrate_table_name (fuel : nat) (table_name : string)
    (columns : option (list Column.t)) (calls : list insert_call)
    (r : TableMigrationResult.t) (calls' : list insert_call) :
  migrate_table batch_size select_page get_columns insert_error fuel table_name
    columns calls = Returns (r, calls') ->
  TableMigrationResult.table_name r = table_name.
Proof.
  unfold migrate_table.
  destruct (match columns with Some c => DbOk c | None => get_columns table_name end);
    [apply migrate_batches_name | discriminate].
Qed.

Lemma migrate_tables_spec (fuel : nat) (continue_on_error : bool) :
  forall tables results errors calls results' errors' calls',
  migrate_tables batch_size select_page get_columns insert_error fuel
    continue_on_error tables results errors calls
  = Returns (results', errors', calls') ->
  exists new,
    results' = results ++ new
    /\ (TableMigrationResult.table_name <$> new) `prefix_of` tables
    /\ (continue_on_error = true -> TableMigrationResult.table_name <$> new = tables)
    /\ (continue_on_error = false ->
        forall i r, new !! i = Some r -> (S i < length new)%nat ->
                    TableMigrationResult.success r = true)
    /\ (Forall (fun r => TableMigrationResult.success r = true) new ->
        TableMigrationResult.table_name <$> new = tables)
    /\ errors' = errors ++ concat (TableMigrationResult.errors <$> failed new).
Proof.
  induction tables as [|table rest IH]; intros results errors calls results' errors'
    calls'; cbn [migrate_tables].
  - intros [= <- <- <-]. exists []. rewrite !app_nil_r.
    splits; try reflexivity; try (intros; reflexivity).
    intros _ i r Hi. rewrite lookup_nil in Hi. discriminate.
  - destruct (migrate_table batch_size select_page get_columns insert_error fuel
                table None calls) as [[result calls1]|e|] eqn:Hrun; try discriminate.
    apply migrate_table_name in Hrun.
    destruct (TableMigrationResult.success result) eqn:Hok.
    + intros H. apply IH in H as (new & -> & Hpre & Hall & Hlast & Hgood & ->).
      exists (result :: new). unfold failed. cbn [List.filter]. rewrite Hok.
      cbn [negb]. rewrite fmap_cons, Hrun. splits.
      * rewrite <- app_assoc. reflexivity.
      * apply prefix_cons. exact Hpre.
      * intros Hc. rewrite (Hall Hc). reflexivity.
      * intros Hc [|i] r Hi Hlen.
        -- injection Hi as <-. exact Hok.
        -- apply (Hlast Hc i r Hi). simpl in Hlen. lia.
      * intros Hf. apply Forall_cons in Hf as [_ Hf]. rewrite (Hgood Hf). reflexivity.
      * reflexivity.
    + destruct continue_on_error.
      * intros H. apply IH in H as (new & -> & Hpre & Hall & Hlast & Hgood & ->).
        exists (result :: new). unfold failed. cbn [List.filter]. rewrite Hok.
        cbn [negb]. rewrite fmap_cons, Hrun. splits.
        -- rewrite <- app_assoc. reflexivity.
        -- apply prefix_cons. exact Hpre.
        -- intros _. rewrite (Hall eq_refl). reflexivity.
        -- discriminate.
        -- intros Hf. apply Forall_cons in Hf as [Hf _]. congruence.
        -- rewrite fmap_cons. cbn [concat]. rewrite <- !app_assoc. reflexivity.
      * intros [= <- <- <-]. exists [result]. unfold failed. cbn [List.filter].
        rewrite Hok. cbn [negb]. splits.
        -- reflexivity.
        -- rewrite fmap_cons, Hrun. apply prefix_cons, prefix_nil.
        -- discriminate.
        -- intros _ [|i] r Hi Hlen; simpl in Hlen; lia.
        -- intros Hf. apply Forall_cons in Hf as [Hf _]. congruence.
        -- simpl. rewrite app_nil_r. reflexivity.
Qed.

End Loop.
End FullMigrationFacts.

Module AcceptingFacts.
Import PyStr PyVal DataMigrator DataMigratorFacts.

Section Accepting.
Variable batch_size : Z.
Variable tables : gmap string (list row).
Variable get_columns : string -> db_result (list Column.t).
Variable insert_error : list insert_call -> string -> list row -> option string.
Variable fuel : nat.
Variable continue_on_error : bool.
Hypothesis Hbatch : 0 < batch_size.
Hypothesis Hnone : forall before sql rs, insert_error before sql rs = None.

Local Notation readable := (DataMigrator.readable tables get_columns fuel).
Local Notation copied := (DataMigrator.copied tables).
Local Notation sent := (DataMigrator.sent tables get_columns).

Lemma migrate_table_accepting (table_name : string) (calls : list insert_call) :
  readable table_name ->
  exists new,
    migrate_table batch_size (table_source tables) get_columns insert_error fuel
      table_name None calls
    = Returns (copied table_name, calls ++ new)
    /\ concat (parameters <$> new) = sent table_name.
Proof.
  intros (rows & columns & Hrows & Hfuel & Hcols).
  unfold migrate_table. rewrite Hcols.
  destruct (migrate_batches_table_source batch_size tables insert_error table_name
              rows columns Hrows Hbatch fuel rows 0 0 0 [] calls)
    as (new & Hrun & Hcat & Hall); [lia|reflexivity|exact Hfuel|].
  assert (Hans : Forall (fun c => answer c = None) new).
  { eapply Forall_impl; [exact Hall|]. intros c (_ & _ & before & ->). apply Hnone. }
  destruct (accepted_all new Hans) as [Ha He].
  exists new. rewrite Hrun, Ha, Hcat, He, length_fmap. split.
  - unfold DataMigrator.copied, source_rows. rewrite Hrows. reflexivity.
  - unfold DataMigrator.sent, source_rows, columns_of. rewrite Hrows, Hcols. reflexivity.
Qed.

Lemma migrate_tables_accepting (order : list string) :
  forall results errors calls,
  Forall readable order ->
  exists new,
    migrate_tables batch_size (table_source tables) get_columns insert_error fuel
      continue_on_error order results errors calls
    = Returns (results ++ (copied <$> order), errors, calls ++ new)
    /\ concat (parameters <$> new) = concat (sent <$> order).
Proof.
  induction order as [|table rest IH]; intros results errors calls Hread.
  - exists []. simpl. rewrite !app_nil_r. split; reflexivity.
  - apply Forall_cons in Hread as [Ht Hrest]. cbn [migrate_tables].
    destruct (migrate_table_accepting table calls Ht) as (new1 & -> & Hcat1).
    cbn [DataMigrator.copied TableMigrationResult.success]. fold (copied table).
    destruct (IH (results ++ [copied table]) errors (calls ++ new1) Hrest)
      as (new2 & -> & Hcat2).
    exists (new1 ++ new2). rewrite fmap_cons, <- !app_assoc. split; [reflexivity|].
    rewrite fmap_app, concat_app, Hcat1, Hcat2, fmap_cons. reflexivity.
Qed.

Lemma count_copied (order : list string) :
  count_results TableMigrationResult.success (copied <$> order)
  = Z.of_nat (length order)
  /\ count_results (fun r => negb (TableMigrationResult.success r)) (copied <$> order) = 0
  /\ sum_rows (copied <$> order)
     = Z.of_nat (length (concat (source_rows tables <$> order))).
Proof.
  unfold count_results. induction order as [|t order (IH1 & IH2 & IH3)];
    [splits; reflexivity|].
  rewrite !fmap_cons. cbn [List.filter DataMigrator.copied TableMigrationResult.success negb].
  fold (copied t). splits.
  - cbn [length]. rewrite !Nat2Z.inj_succ, IH1. reflexivity.
  - exact IH2.
  - cbn [sum_rows fold_right concat]. fold (sum_rows (copied <$> order)).
    cbn [DataMigrator.copied TableMigrationResult.rows_migrated]. rewrite IH3, length_app. lia.
Qed.

End Accepting.
End AcceptingFacts.

Section RunFullMigration.
Import PyStr PyVal DataMigrator FullMigrationFacts.

(** X8.  What a returned [run_full_migration] reports, for any behaviour
    of the two databases, once both connections answered: the table
    results are for a prefix of the migration order, in order; with
    [continue_on_error] every table has a result, without it every result
    but the last is a success, and in both cases all tables have a result
    when none failed; [tables_migrated] and [tables_failed] add up to the
    number of results, [total_rows] is the sum of their [rows_migrated],
    and [success] holds exactly when every table result is a success: a
    failure to disable or to re-enable the foreign keys is listed among
    the errors and does not make the migration fail. *)
Theorem run_full_migration_accounting (batch_size : Z)
    (select_page : string -> Z -> Z -> db_result (list row))
    (get_columns : string -> db_result (list Column.t))
    (insert_error : list insert_call -> string -> list row -> option string)
    (get_table_names : db_result (list string)) (fk_disabled fk_enabled : bool)
    (fuel : nat) (dependency_graph : option (list string)) (continue_on_error : bool)
    (calls calls' : list insert_call) (r : DataMigrationResult.t) :
  run_full_migration batch_size select_page get_columns insert_error true true
    get_table_names fk_disabled fk_enabled fuel dependency_graph continue_on_error calls
  = Returns (r, calls') ->
  let results := DataMigrationResult.table_results r in
  exists tables,
    get_migration_order get_table_names dependency_graph = Returns tables
    /\ (TableMigrationResult.table_name <$> results) `prefix_of` tables
    /\ (continue_on_error = true -> TableMigrationResult.table_name <$> results = tables)
    /\ (continue_on_error = false ->
        forall i tr, results !! i = Some tr -> (S i < length results)%nat ->
                     TableMigrationResult.success tr = true)
    /\ DataMigrationResult.tables_migrated r + DataMigrationResult.tables_failed r
       = Z.of_nat (length results)
    /\ DataMigrationResult.total_rows r = sum_rows results
    /\ (DataMigrationResult.success r = true <->
        Forall (fun tr => TableMigrationResult.success tr = true) results)
    /\ (DataMigrationResult.success r = true ->
        TableMigrationResult.table_name <$> results = tables)
    /\ DataMigrationResult.errors r
       = (if fk_disabled then [] else ["Failed to disable FK constraints"])
         ++ concat (TableMigrationResult.errors <$> failed results)
         ++ (if fk_enabled then [] else ["Failed to re-enable FK constraints"]).
Proof.
  unfold run_full_migration. cbn [negb orb].
  destruct (get_migration_order get_table_names dependency_graph) as [tables|e|];
    try discriminate.
  destruct (migrate_tables batch_size select_page get_columns insert_error fuel
              continue_on_error tables []
              (if fk_disabled then [] else ["Failed to disable FK constraints"]) calls)
    as [[[results errors] calls1]|e|] eqn:Hloop; try discriminate.
  apply migrate_tables_spec in Hloop as (new & Hres & Hpre & Hall & Hlast & Hgood & ->).
  rewrite app_nil_l in Hres. subst results.
  intros [= <- <-]. cbn [DataMigrationResult.table_results
    DataMigrationResult.tables_migrated DataMigrationResult.tables_failed
    DataMigrationResult.total_rows DataMigrationResult.success
    DataMigrationResult.errors].
  exists tables.
  assert (Hcount : forall l : list TableMigrationResult.t,
            count_results TableMigrationResult.success l
            + count_results (fun r => negb (TableMigrationResult.success r)) l
            = Z.of_nat (length l)).
  { unfold count_results. induction l as [|x l IH]; [reflexivity|].
    cbn [List.filter]. destruct (TableMigrationResult.success x); cbn [negb length];
      lia. }
  assert (Hzero : forall l : list TableMigrationResult.t,
            (count_results (fun r => negb (TableMigrationResult.success r)) l =? 0) = true
            <-> Forall (fun tr => TableMigrationResult.success tr = true) l).
  { unfold count_results. induction l as [|x l IH]; [split; [constructor|reflexivity]|].
    cbn [List.filter]. destruct (TableMigrationResult.success x) eqn:Hx; cbn [negb].
    - rewrite IH. split; [intros H; constructor; assumption|].
      intros H. apply Forall_cons in H as [_ H]. exact H.
    - split.
      + intros H. apply Z.eqb_eq in H. simpl in H. lia.
      + intros H. apply Forall_cons in H as [H _]. congruence. }
  splits; try assumption.
  - reflexivity.
  - apply Hcount.
  - reflexivity.
  - apply Hzero.
  - intros H. apply Hgood, Hzero, H.
  - destruct fk_enabled; [rewrite app_nil_r|rewrite <- app_assoc]; reflexivity.
Qed.

Lemma run_full_migration_accounting_witness :
  exists r calls',
    run_full_migration 2 (table_source sakila_source) actor_inspector accept_all
      true true actor_only true true 4 None true [] = Returns (r, calls')
    /\ let results := DataMigrationResult.table_results r in
       exists tables,
         get_migration_order actor_only None = Returns tables
         /\ (TableMigrationResult.table_name <$> results) `prefix_of` tables
         /\ (true = true -> TableMigrationResult.table_name <$> results = tables)
         /\ (true = false ->
             forall i tr, results !! i = Some tr -> (S i < length results)%nat ->
                          TableMigrationResult.success tr = true)
         /\ DataMigrationResult.tables_migrated r + DataMigrationResult.tables_failed r
            = Z.of_nat (length results)
         /\ DataMigrationResult.total_rows r = sum_rows results
         /\ (DataMigrationResult.success r = true <->
             Forall (fun tr => TableMigrationResult.success tr = true) results)
         /\ (DataMigrationResult.success r = true ->
             TableMigrationResult.table_name <$> results = tables)
         /\ DataMigrationResult.errors r
            = (if true then [] else ["Failed to disable FK constraints"])
              ++ concat (TableMigrationResult.errors <$> failed results)
              ++ (if true then [] else ["Failed to re-enable FK constraints"]).
Proof.
  eexists. eexists. split; [reflexivity|].
  eapply (run_full_migration_accounting 2 (table_source sakila_source) actor_inspector
            accept_all actor_only true true 4 None true []).
  reflexivity.
Defined.

End RunFullMigration.

Section CopiesAll.
Import PyStr PyVal DataMigrator AcceptingFacts.

(** X9.  When both connections answer, every table of the migration order
    is in the source and known to its inspector, the batch size is
    positive and the target refuses no INSERT, [run_full_migration]
    returns a success: one successful result per entry of the order, in
    order, each counting all rows of its table; [total_rows] is the number
    of source rows over the order, [tables_failed] is 0, and the INSERTs
    sent carry the transformed rows of the tables, table after table.  A
    table listed twice is copied twice. *)
Theorem run_full_migration_copies_all (batch_size : Z)
    (tables : gmap string (list row))
    (get_columns : string -> db_result (list Column.t))
    (insert_error : list insert_call -> string -> list row -> option string)
    (get_table_names : db_result (list string)) (fk_disabled fk_enabled : bool)
    (fuel : nat) (dependency_graph : option (list string)) (order : list string)
    (continue_on_error : bool) (calls : list insert_call) :
  0 < batch_size ->
  (forall before sql rs, insert_error before sql rs = None) ->
  get_migration_order get_table_names dependency_graph = Returns order ->
  Forall (readable tables get_columns fuel) order ->
  exists r new,
    run_full_migration batch_size (table_source tables) get_columns insert_error
      true true get_table_names fk_disabled fk_enabled fuel dependency_graph
      continue_on_error calls
    = Returns (r, calls ++ new)
    /\ DataMigrationResult.success r = true
    /\ DataMigrationResult.table_results r = copied tables <$> order
    /\ DataMigrationResult.tables_migrated r = Z.of_nat (length order)
    /\ DataMigrationResult.tables_failed r = 0
    /\ DataMigrationResult.total_rows r
       = Z.of_nat (length (concat (source_rows tables <$> order)))
    /\ concat (parameters <$> new) = concat (sent tables get_columns <$> order).
Proof.
  intros Hbatch Hnone Horder Hread. unfold run_full_migration. cbn [negb orb].
  rewrite Horder.
  destruct (migrate_tables_accepting batch_size tables get_columns insert_error fuel
              continue_on_error Hbatch Hnone order []
              (if fk_disabled then [] else ["Failed to disable FK constraints"])
              calls Hread) as (new & -> & Hcat).
  rewrite app_nil_l.
  destruct (count_copied tables order) as (Hc1 & Hc2 & Hc3).
  eexists. exists new. split; [reflexivity|].
  cbn [DataMigrationResult.table_results DataMigrationResult.tables_migrated
       DataMigrationResult.tables_failed DataMigrationResult.total_rows
       DataMigrationResult.success].
  rewrite Hc1, Hc2, Hc3. splits; try reflexivity. exact Hcat.
Qed.

Lemma run_full_migration_copies_all_witness :
  exists r new,
    run_full_migration 2 (table_source sakila_source) actor_inspector accept_all
      true true actor_only false false 4 (Some ["actor"; "actor"]) false []
    = Returns (r, [] ++ new)
    /\ DataMigrationResult.success r = true
    /\ DataMigrationResult.table_results r
       = copied sakila_source <$> ["actor"; "actor"]
    /\ DataMigrationResult.tables_migrated r = Z.of_nat (length ["actor"; "actor"])
    /\ DataMigrationResult.tables_failed r = 0
    /\ DataMigrationResult.total_rows r
       = Z.of_nat (length (concat (source_rows sakila_source <$> ["actor"; "actor"])))
    /\ concat (parameters <$> new)
       = concat (sent sakila_source actor_inspector <$> ["actor"; "actor"]).
Proof.
  apply (run_full_migration_copies_all 2 sakila_source actor_inspector accept_all
           actor_only false false 4 (Some ["actor"; "actor"]) ["actor"; "actor"]
           false []).
  - lia.
  - reflexivity.
  - reflexivity.
  - assert (Hactor : readable sakila_source actor_inspector 4 "actor").
    { exists actor_rows, actor_columns. split; [vm_compute; reflexivity|].
      split; [simpl; lia|reflexivity]. }
    constructor; [exact Hactor|]. constructor; [exact Hactor|]. constructor.
Defined.

End CopiesAll.

(** * Further properties: transforming a row *)

Module TransformFacts.
Import PyDict PyDictFacts PyStr PyVal DataMigrator.

Lemma items_cons_wf {V} (d : PyDict.t V) :
  wf d ->
  (items d).*1 = keys d
  /\ forall k v, (k, v) ∈ items d <-> store d !! k = Some v.
Proof.
  intros [Hnd Hk]. unfold items.
  assert (Hall : forall k, k ∈ keys d -> is_Some (store d !! k)) by (intros; apply Hk; auto).
  assert (Hin : forall k v, store d !! k = Some v -> k ∈ keys d).
  { intros k v Hs. apply Hk. eauto. }
  split.
  - clear Hnd Hk Hin. induction (keys d) as [|k ks IH]; [reflexivity|]. csimpl.
    destruct (Hall k) as [v Hv]; [set_solver|]. rewrite Hv. csimpl.
    f_equal. apply IH. intros k' Hk'. apply Hall. set_solver.
  - intros k v. rewrite list_elem_of_omap. split.
    + intros (k' & _ & Hkv). destruct (store d !! k') as [v'|] eqn:Hs; [|discriminate].
      simpl in Hkv. injection Hkv as <- <-. exact Hs.
    + intros Hs. exists k. split; [eapply Hin; eauto|]. rewrite Hs. reflexivity.
Qed.

(** Filling a dictionary from pairs with distinct new keys. *)
Lemma fold_set_pairs {V W} (h : string -> V -> W) (l : list (string * V)) :
  forall d : PyDict.t W,
  wf d -> NoDup l.*1 -> (forall k, k ∈ l.*1 -> k ∉ keys d) ->
  let d' := fold_left (fun d '(k, v) => set k (h k v) d) l d in
  wf d'
  /\ keys d' = keys d ++ l.*1
  /\ forall k, store d' !! k
               = match (list_to_map l : gmap string V) !! k with
                 | Some v => Some (h k v)
                 | None => store d !! k
                 end.
Proof.
  induction l as [|[k v] l IH]; intros d Hwf Hnd Hfresh.
  - simpl. rewrite app_nil_r. splits; [assumption|reflexivity|].
    intros k. rewrite lookup_empty. reflexivity.
  - rewrite fmap_cons in Hnd, Hfresh. cbn [fst] in Hnd, Hfresh.
    apply NoDup_cons in Hnd as [Hk Hnd].
    assert (Hkd : k ∉ keys d) by (apply Hfresh; set_solver).
    cbn [fold_left].
    destruct (IH (set k (h k v) d)) as (Hwf' & Hkeys & Hstore).
    + apply wf_set. exact Hwf.
    + exact Hnd.
    + intros k' Hk'. rewrite keys_set_notin by assumption.
      rewrite not_elem_of_app, list_elem_of_singleton. split.
      * apply Hfresh. set_solver.
      * intros ->. contradiction.
    + splits.
      * exact Hwf'.
      * rewrite Hkeys, keys_set_notin by assumption.
        rewrite fmap_cons, <- app_assoc. reflexivity.
      * intros k'. rewrite Hstore, store_set. cbn [list_to_map foldr uncurry].
        destruct (decide (k = k')) as [<-|Hne].
        -- rewrite !lookup_insert_eq.
           rewrite (not_elem_of_list_to_map_1 l k Hk). reflexivity.
        -- rewrite !lookup_insert_ne by assumption. reflexivity.
Qed.

(** The type [transform_row] finds for a column: that of the last entry
    of the metadata with the column's name. *)
Lemma column_types_lookup (columns : list Column.t) (k : string) :
  PyDict.get k (column_types columns) = Column.type <$> latest Column.name k columns.
Proof.
  unfold column_types, PyDict.get.
  assert (H : forall d : PyDict.t string,
            store (fold_left (fun d col => set (Column.name col) (Column.type col) d)
                     columns d) !! k
            = match latest Column.name k columns with
              | Some c => Some (Column.type c)
              | None => store d !! k
              end).
  { induction columns as [|c cs IH]; intros d; [reflexivity|]. cbn [fold_left latest].
    rewrite IH, store_set. destruct (latest Column.name k cs); [reflexivity|].
    case_decide as Hc.
    - rewrite <- Hc, lookup_insert_eq. reflexivity.
    - rewrite lookup_insert_ne by assumption. reflexivity. }
  rewrite H. simpl. rewrite lookup_empty.
  destruct (latest Column.name k columns); reflexivity.
Qed.

Lemma transform_value_untyped (value : PyVal.t) : transform_value value "" = value.
Proof. destruct value; reflexivity. Qed.

End TransformFacts.

Section TransformRow.
Import PyDict PyDictFacts PyStr PyVal DataMigrator TransformFacts DictByFacts.

(** X10.  [transform_row] keeps the columns of the row and their order,
    and replaces each value by its [transform_value] under the type the
    metadata gives for the column (with the empty type for a column the
    metadata does not list).  So a [None] stays [None], and the value of a
    column missing from the metadata is copied as it is. *)
Theorem transform_row_spec (r : row) (columns : list Column.t) :
  wf r ->
  let r' := transform_row r columns in
  wf r'
  /\ keys r' = keys r
  /\ (forall k, store r' !! k
                = (fun v => transform_value v (type_of columns k)) <$> store r !! k)
  /\ (forall k, store r !! k = Some VNone -> store r' !! k = Some VNone)
  /\ (forall k v, store r !! k = Some v -> k ∉ Column.name <$> columns ->
                  store r' !! k = Some v).
Proof.
  intros Hwf. destruct (items_cons_wf r Hwf) as [Hkeys Hitems].
  assert (Hnd : NoDup (items r).*1) by (rewrite Hkeys; apply Hwf).
  destruct (fold_set_pairs
              (fun k v => transform_value v
                            (default "" (PyDict.get k (column_types columns))))
              (items r) empty wf_empty Hnd) as (Hwf' & Hk' & Hs').
  { intros k _ Hin. inversion Hin. }
  assert (Hlook : forall k, (list_to_map (items r) : gmap string PyVal.t) !! k
                            = store r !! k).
  { intros k. apply option_eq. intros v.
    rewrite <- (elem_of_list_to_map _ _ _ Hnd). apply Hitems. }
  assert (Hstore : forall k, store (transform_row r columns) !! k
            = (fun v => transform_value v (type_of columns k)) <$> store r !! k).
  { intros k. unfold transform_row. rewrite (Hs' k), Hlook.
    unfold type_of. rewrite <- column_types_lookup.
    destruct (store r !! k); [reflexivity|]. simpl. apply lookup_empty. }
  simpl. splits.
  - exact Hwf'.
  - unfold transform_row. rewrite Hk'. simpl. exact Hkeys.
  - exact Hstore.
  - intros k Hk. rewrite Hstore, Hk. reflexivity.
  - intros k v Hk Hnot. rewrite Hstore, Hk. simpl. f_equal.
    unfold type_of. apply (latest_None Column.name) in Hnot. rewrite Hnot.
    apply transform_value_untyped.
Qed.

Lemma transform_row_spec_witness :
  let r' := transform_row (actor_row 1 "PENELOPE") actor_columns in
  wf r'
  /\ keys r' = keys (actor_row 1 "PENELOPE")
  /\ (forall k, store r' !! k
                = (fun v => transform_value v (type_of actor_columns k))
                    <$> store (actor_row 1 "PENELOPE") !! k)
  /\ (forall k, store (actor_row 1 "PENELOPE") !! k = Some VNone ->
                store r' !! k = Some VNone)
  /\ (forall k v, store (actor_row 1 "PENELOPE") !! k = Some v ->
                  k ∉ Column.name <$> actor_columns -> store r' !! k = Some v).
Proof.
  apply (transform_row_spec (actor_row 1 "PENELOPE") actor_columns).
  unfold actor_row. apply wf_set, wf_set, wf_empty.
Defined.

End TransformRow.

(** * Further properties: the table order of the data migration agent *)

Module ReplaceFacts.
Import PyStr PyStrFacts.

Lemma replace_from_absent (old new s : string) :
  contains old s = false -> replace_from old new O s = s.
Proof.
  induction s as [|c s IH]; [reflexivity|]. cbn [contains replace_from].
  intros H. apply orb_false_iff in H as [Hp Hs]. rewrite Hp, (IH Hs). reflexivity.
Qed.

Lemma replace_from_skip (old new p s : string) :
  replace_from old new (String.length p) (p +:+ s) = replace_from old new O s.
Proof.
  induction p as [|c p IH].
  - rewrite append_nil_l. reflexivity.
  - rewrite append_cons. cbn [String.length replace_from]. exact IH.
Qed.

(** Removing a prefix that does not occur again. *)
Lemma replace_prefix (c : ascii) (p s : string) :
  contains (String c p) s = false ->
  replace (String c p) "" (String c p +:+ s) = s.
Proof.
  intros H. unfold replace. rewrite append_cons. cbn [replace_from].
  assert (Hpre : String.prefix (String c p) (String c (p +:+ s)) = true).
  { rewrite <- append_cons. apply (PyStrMore.startswith_app (String c p) s). }
  rewrite Hpre, append_nil_l.
  replace (String.length (String c p) - 1)%nat with (String.length p)
    by (cbn [String.length]; lia).
  rewrite replace_from_skip. apply replace_from_absent. exact H.
Qed.

End ReplaceFacts.

Section TableOrder.
Import PyStr PyStrFacts ReplaceFacts DataMigrationAgent.

Lemma table_order_loop (objects : list (string * string)) :
  forall acc : list string,
  Forall (fun o => o.1 ∈ kinds /\ contains "table:" o.2 = false) objects ->
  fold_left
    (fun table_order obj_id =>
       if startswith "table:" obj_id
       then table_order ++ [replace "table:" "" obj_id]
       else table_order)
    ((fun o => object_id o.1 o.2) <$> objects) acc
  = acc ++ (snd <$> filter (fun o => o.1 = "table") objects).
Proof.
  induction objects as [|[kind name] objects IH]; intros acc Hall.
  - simpl. rewrite app_nil_r. reflexivity.
  - apply Forall_cons in Hall as [[Hkind Hname] Hall]. cbn [fst snd] in Hkind, Hname.
    rewrite fmap_cons. cbn [fold_left fst snd]. rewrite IH by exact Hall.
    rewrite filter_cons. cbn [fst].
    unfold kinds in Hkind.
    repeat (apply elem_of_cons in Hkind as [->|Hkind]);
      [| | | | inversion Hkind].
    + change (object_id "table" name) with ("table:" +:+ name).
      rewrite (PyStrMore.startswith_app "table:" name).
      rewrite (replace_prefix "t" "able:" name Hname).
      destruct (decide ("table" = "table")) as [_|Hne]; [|congruence].
      rewrite fmap_cons, <- app_assoc. reflexivity.
    + destruct (decide ("view" = "table")) as [He|_]; [discriminate|]. reflexivity.
    + destruct (decide ("procedure" = "table")) as [He|_]; [discriminate|]. reflexivity.
    + destruct (decide ("trigger" = "table")) as [He|_]; [discriminate|]. reflexivity.
Qed.

(** X11.  From a non-empty migration order made of the dependency graph's
    ids ([table:x], [view:x], [procedure:x], [trigger:x]), where no name
    contains the text [table:], [_get_table_order] returns the names of
    the tables, in the order of the graph, and drops every other object.
    With no graph or an empty order it returns the table names of the
    schema metadata, and the empty list when there is no metadata. *)
Theorem get_table_order_tables (objects : list (string * string))
    (schema_tables : option (list TableMetadata.t)) :
  objects <> [] ->
  Forall (fun o => o.1 ∈ kinds /\ contains "table:" o.2 = false) objects ->
  _get_table_order (Some ((fun o => object_id o.1 o.2) <$> objects)) schema_tables
  = snd <$> filter (fun o => o.1 = "table") objects
  /\ _get_table_order (Some []) schema_tables = _get_table_order None schema_tables
  /\ _get_table_order None schema_tables
     = match schema_tables with
       | Some tables => TableMetadata.name <$> tables
       | None => []
       end.
Proof.
  intros Hne Hall. splits; try reflexivity.
  destruct objects as [|o objects]; [congruence|].
  unfold _get_table_order. rewrite fmap_cons.
  rewrite <- (fmap_cons (fun o => object_id o.1 o.2) o objects).
  rewrite (table_order_loop (o :: objects) [] Hall). reflexivity.
Qed.

Lemma get_table_order_tables_witness :
  _get_table_order
    (Some ((fun o => object_id o.1 o.2)
             <$> [("table", "actor"); ("view", "actor_info"); ("table", "film")]))
    None
  = snd <$> filter (fun o => o.1 = "table")
              [("table", "actor"); ("view", "actor_info"); ("table", "film")]
  /\ _get_table_order (Some []) None = _get_table_order None None
  /\ _get_table_order None None
     = match @None (list TableMetadata.t) with
       | Some tables => TableMetadata.name <$> tables
       | None => []
       end.
Proof.
  apply (get_table_order_tables
           [("table", "actor"); ("view", "actor_info"); ("table", "film")] None).
  - discriminate.
  - repeat constructor; vm_compute; auto.
Defined.

End TableOrder.

(** * Further properties: the order in which the sandbox creates tables *)

Module SortedFacts.

Section ByKey.
Context {A : Type} (key : A -> Z).

Local Notation le := (fun a b => key a <=? key b).

Lemma insert_sorted_perm (x : A) (l : list A) : insert_sorted le x l ≡ₚ x :: l.
Proof.
  induction l as [|y l IH]; [reflexivity|]. cbn [insert_sorted].
  destruct (key x <=? key y); [reflexivity|].
  rewrite IH. apply Permutation_swap.
Qed.

Lemma sorted_by_perm (l : list A) : sorted_by le l ≡ₚ l.
Proof.
  induction l as [|x l IH]; [reflexivity|]. cbn [sorted_by fold_right].
  rewrite insert_sorted_perm. fold (sorted_by le l). rewrite IH. reflexivity.
Qed.

Lemma insert_sorted_sorted (x : A) (l : list A) :
  StronglySorted (fun a b => key a <= key b) l ->
  StronglySorted (fun a b => key a <= key b) (insert_sorted le x l).
Proof.
  induction 1 as [|y l Hs IH Hy]; cbn [insert_sorted].
  - repeat constructor.
  - destruct (key x <=? key y) eqn:Hle.
    + apply Z.leb_le in Hle. constructor; [constructor; assumption|].
      constructor; [exact Hle|]. eapply Forall_impl; [exact Hy|].
      intros z Hz. simpl in Hz. lia.
    + apply Z.leb_gt in Hle. constructor; [exact IH|].
      rewrite insert_sorted_perm. constructor; [lia|exact Hy].
Qed.

Lemma sorted_by_sorted (l : list A) :
  StronglySorted (fun a b => key a <= key b) (sorted_by le l).
Proof.
  induction l as [|x l IH]; [constructor|]. cbn [sorted_by fold_right].
  apply insert_sorted_sorted. exact IH.
Qed.

Lemma insert_sorted_stable (p : Z) (x : A) (l : list A) :
  filter (fun a => key a = p) (insert_sorted le x l)
  = filter (fun a => key a = p) (x :: l).
Proof.
  induction l as [|y l IH]; [reflexivity|]. cbn [insert_sorted].
  destruct (key x <=? key y) eqn:Hle; [reflexivity|].
  apply Z.leb_gt in Hle. rewrite filter_cons, IH, !filter_cons.
  repeat case_decide; try reflexivity. lia.
Qed.

Lemma sorted_by_stable (p : Z) (l : list A) :
  filter (fun a => key a = p) (sorted_by le l) = filter (fun a => key a = p) l.
Proof.
  induction l as [|x l IH]; [reflexivity|]. cbn [sorted_by fold_right].
  rewrite insert_sorted_stable. fold (sorted_by le l). rewrite !filter_cons, IH.
  reflexivity.
Qed.

End ByKey.
End SortedFacts.

Section SimpleSort.
Import SandboxAgent SortedFacts.

Lemma list_index_bound (x : string) (l : list string) (i : Z) :
  list_index x l = Some i -> 0 <= i < Z.of_nat (length l).
Proof.
  revert i. induction l as [|y l IH]; intros i; cbn [list_index]; [discriminate|].
  destruct (String.eqb y x).
  - intros [= <-]. simpl. lia.
  - destruct (list_index x l) as [j|]; [|discriminate]. intros [= <-].
    specialize (IH j eq_refl). simpl length. lia.
Qed.

(** X12.  [_simple_dependency_sort] returns the tables it was given, each
    as often as given, in ascending priority; tables of the same priority
    keep the order they had.  A table named in the Sakila list has the
    priority of its position there, below 16; any other table has 999, so
    the tables the list does not know come last, in their given order. *)
Theorem simple_dependency_sort_spec (tables : list TransformedDDL.t) :
  let sorted := _simple_dependency_sort tables in
  sorted ≡ₚ tables
  /\ StronglySorted (fun a b => get_priority a <= get_priority b) sorted
  /\ (forall p, filter (fun t => get_priority t = p) sorted
                = filter (fun t => get_priority t = p) tables)
  /\ (forall t, 0 <= get_priority t < 16 \/ get_priority t = 999)
  /\ (forall t, get_priority t = 999 <->
                TransformedDDL.object_name t ∉ priority_order).
Proof.
  simpl. unfold _simple_dependency_sort. splits.
  - apply (sorted_by_perm get_priority).
  - apply (sorted_by_sorted get_priority).
  - intros p. apply (sorted_by_stable get_priority).
  - intros t. unfold get_priority.
    destruct (list_index _ priority_order) as [i|] eqn:Hi; [|right; reflexivity].
    left. apply list_index_bound in Hi. simpl in Hi. lia.
  - intros t. unfold get_priority.
    destruct (list_index _ priority_order) as [i|] eqn:Hi.
    + pose proof (list_index_bound _ _ _ Hi) as Hb. simpl in Hb. split; [lia|].
      intros Hnot. exfalso. apply Hnot. clear Hb.
      revert i Hi. generalize priority_order as l.
      induction l as [|y l IH]; intros i; cbn [list_index]; [discriminate|].
      destruct (String.eqb y _) eqn:He.
      * apply String.eqb_eq in He. subst y. intros _. left.
      * destruct (list_index _ l) as [j|]; [|discriminate]. intros _. right.
        apply (IH j eq_refl).
    + split; [|reflexivity]. intros _.
      revert Hi. generalize priority_order as l.
      induction l as [|y l IH]; cbn [list_index]; [intros _ Hin; inversion Hin|].
      destruct (String.eqb y _) eqn:He; [discriminate|].
      apply String.eqb_neq in He.
      destruct (list_index _ l) as [j|]; [discriminate|]. intros _ Hin.
      apply elem_of_cons in Hin as [Hin|Hin]; [congruence|]. apply (IH eq_refl Hin).
Qed.

End SimpleSort.

Module SortByDependencyFacts.
Import PyDict PyDictFacts PyStr PyStrFacts Graph GraphFacts BuildFacts DictByFacts
       StateFacts SandboxAgent.

Lemma split_once_no_sep (sep : ascii) (s : string) :
  contains (String sep "") s = false -> split_once sep s = None.
Proof.
  induction s as [|c s IH]; [reflexivity|]. cbn [contains split_once].
  rewrite prefix_cons, prefix_nil_l, andb_true_r. intros H.
  apply orb_false_iff in H as [Hc Hs]. rewrite Ascii.eqb_sym, Hc, (IH Hs). reflexivity.
Qed.

Lemma take_table_spec (d : PyDict.t TransformedDDL.t) (ordered : list TransformedDDL.t)
    (obj_id : string) :
  take_table (d, ordered) obj_id
  = match table_of obj_id with
    | Some n =>
        match store d !! n with
        | Some ddl => ((dict_pop n d).2, ordered ++ [ddl])
        | None => (d, ordered)
        end
    | None => (d, ordered)
    end.
Proof.
  unfold take_table, table_of.
  destruct (contains ":" obj_id) eqn:Hc.
  - destruct (split_once ":" obj_id) as [[obj_type obj_name]|]; [|reflexivity].
    destruct (String.eqb obj_type "table"); [|reflexivity]. cbn [andb].
    unfold mem, dict_pop. destruct (store d !! obj_name) as [ddl|] eqn:Hs.
    + rewrite bool_decide_eq_true_2 by eauto. reflexivity.
    + rewrite bool_decide_eq_false_2; [reflexivity|]. intros [x Hx]. discriminate.
  - rewrite (split_once_no_sep _ _ Hc). reflexivity.
Qed.

Lemma wf_pop {V} (k : string) (d : PyDict.t V) : wf d -> wf (dict_pop k d).2.
Proof.
  intros [Hnd Hk]. split; cbn [dict_pop snd keys store].
  - apply NoDup_filter. exact Hnd.
  - intros k'. rewrite list_elem_of_filter, Hk. destruct (decide (k' = k)) as [->|Hne].
    + rewrite lookup_delete_eq. split; [tauto|]. intros [x Hx]. discriminate.
    + rewrite lookup_delete_ne by congruence. tauto.
Qed.

(** The loop over the dependency order: the names it takes out of the
    dictionary are those of the order that are keys, each at its first
    occurrence. *)
Lemma take_tables_spec (order : list string) :
  forall (d : PyDict.t TransformedDDL.t) (ordered : list TransformedDDL.t),
  wf d ->
  let popped := filter (fun n => n ∈ keys d) (first_occ (omap table_of order)) in
  exists d',
    fold_left take_table order (d, ordered)
    = (d', ordered ++ omap (fun n => store d !! n) popped)
    /\ wf d'
    /\ keys d' = filter (fun n => n ∉ popped) (keys d)
    /\ forall k, k ∉ popped -> store d' !! k = store d !! k.
Proof.
  induction order as [|obj_id order IH]; intros d ordered Hwf.
  - exists d. cbn. rewrite app_nil_r. splits; try reflexivity; try assumption.
    symmetry. apply filter_notin_nil.
  - cbn [fold_left]. rewrite take_table_spec.
    destruct (table_of obj_id) as [n|] eqn:Hid.
    2:{ cbn [omap list_omap]. rewrite Hid. apply IH. exact Hwf. }
    assert (Hocc : first_occ (omap table_of (obj_id :: order))
                   = n :: filter (fun y => y <> n) (first_occ (omap table_of order))).
    { cbn [omap list_omap]. rewrite Hid. reflexivity. }
    cbn zeta. rewrite Hocc, filter_cons.
    destruct (store d !! n) as [ddl|] eqn:Hs.
    + assert (Hin : n ∈ keys d) by (apply Hwf; eauto).
      destruct (decide (n ∈ keys d)) as [_|?]; [|contradiction].
      destruct (IH (dict_pop n d).2 (ordered ++ [ddl]) (wf_pop n d Hwf))
        as (d' & Hrun & Hwf' & Hkeys & Hstore).
      cbn [dict_pop snd keys store] in Hrun, Hkeys, Hstore.
      assert (Hpop : filter (fun k => k ∈ filter (fun k' => k' <> n) (keys d))
                       (first_occ (omap table_of order))
                     = filter (fun k => k ∈ keys d)
                         (filter (fun y => y <> n) (first_occ (omap table_of order)))).
      { rewrite filter_filter. apply filter_ext_in. intros x _.
        rewrite list_elem_of_filter. tauto. }
      rewrite Hpop in Hrun, Hkeys, Hstore.
      set (popped := filter (fun k => k ∈ keys d)
                       (filter (fun y => y <> n) (first_occ (omap table_of order))))
        in *.
      assert (Hn : n ∉ popped).
      { unfold popped. rewrite !list_elem_of_filter. tauto. }
      exists d'. splits.
      * cbn [dict_pop snd]. rewrite Hrun, <- app_assoc. cbn [omap list_omap app].
        rewrite Hs. cbn.
        do 3 f_equal. apply list_omap_ext, Forall2_same_length_lookup_2; [reflexivity|].
        intros i k k' Hk Hk'. rewrite Hk in Hk'. injection Hk' as <-.
        apply lookup_delete_ne. intros ->. apply Hn.
        apply list_elem_of_lookup. eauto.
      * exact Hwf'.
      * rewrite Hkeys, filter_filter. apply filter_ext_in. intros x _.
        rewrite not_elem_of_cons. tauto.
      * intros k Hk. apply not_elem_of_cons in Hk as [Hkn Hk].
        rewrite (Hstore k Hk). apply lookup_delete_ne. congruence.
    + assert (Hout : n ∉ keys d).
      { intros Hin. apply Hwf in Hin as [x Hx]. congruence. }
      destruct (decide (n ∈ keys d)) as [?|_]; [contradiction|].
      assert (Hsame : filter (fun k => k ∈ keys d)
                        (filter (fun y => y <> n) (first_occ (omap table_of order)))
                      = filter (fun k => k ∈ keys d) (first_occ (omap table_of order))).
      { rewrite filter_filter. apply filter_ext_in. intros x _. split; [tauto|].
        intros Hx. split; [exact Hx|]. intros ->. contradiction. }
      rewrite Hsame. apply IH. exact Hwf.
Qed.

Lemma first_occ_NoDup (l : list string) : NoDup l -> first_occ l = l.
Proof.
  induction 1 as [|x l Hx Hnd IH]; [reflexivity|]. cbn [first_occ]. rewrite IH.
  f_equal. rewrite <- (filter_notin_nil l) at 2. apply filter_ext_in.
  intros y Hy. split; [intros _ Hin; inversion Hin|]. intros _ ->. contradiction.
Qed.

Section Unique.
Context {T : Type} (key : T -> string).

Lemma latest_unique (items : list T) (x : T) :
  NoDup (key <$> items) -> x ∈ items -> latest key (key x) items = Some x.
Proof.
  induction items as [|y items IH]; intros Hnd Hin; [inversion Hin|].
  rewrite fmap_cons in Hnd. apply NoDup_cons in Hnd as [Hy Hnd].
  cbn [latest]. apply elem_of_cons in Hin as [->|Hin].
  - assert (Hl : latest key (key y) items = None) by (apply latest_None; exact Hy).
    rewrite Hl. case_decide; [reflexivity|congruence].
  - rewrite (IH Hnd Hin). reflexivity.
Qed.

Lemma omap_latest_filter (P : string -> Prop) `{!forall n, Decision (P n)}
    (items : list T) :
  NoDup (key <$> items) ->
  omap (fun n => latest key n items) (filter P (key <$> items))
  = filter (fun t => P (key t)) items.
Proof.
  intros Hnd.
  assert (Hsubs : forall l, l ⊆ items ->
            omap (fun n => latest key n items) (filter P (key <$> l))
            = filter (fun t => P (key t)) l).
  { induction l as [|x l IH]; intros Hsub; [reflexivity|].
    rewrite fmap_cons, !filter_cons.
    assert (Hx : latest key (key x) items = Some x).
    { apply latest_unique; [exact Hnd|]. apply Hsub. left. }
    assert (Hl : l ⊆ items) by (intros y Hy; apply Hsub; right; exact Hy).
    destruct (decide (P (key x))).
    - csimpl. rewrite Hx. csimpl. f_equal. apply IH. exact Hl.
    - apply IH. exact Hl. }
  apply Hsubs. reflexivity.
Qed.

End Unique.

Lemma filter_ext_elem {A} (P Q : A -> Prop) `{!forall x, Decision (P x)}
    `{!forall x, Decision (Q x)} (l : list A) :
  (forall x, x ∈ l -> P x <-> Q x) -> filter P l = filter Q l.
Proof.
  induction l as [|y l IH]; intros Hext; [reflexivity|].
  rewrite !filter_cons.
  assert (Hy : P y <-> Q y) by (apply Hext; left).
  rewrite IH by (intros x Hx; apply Hext; right; exact Hx).
  destruct (decide (P y)), (decide (Q y)); tauto.
Qed.

Lemma omap_filter_Some {A B} (f : A -> option B) (P : A -> Prop)
    `{!forall x, Decision (P x)} (l : list A) :
  (forall x, x ∈ l -> ~ P x -> f x = None) -> omap f (filter P l) = omap f l.
Proof.
  induction l as [|x l IH]; intros Hf; [reflexivity|]. rewrite filter_cons.
  assert (IH' : omap f (filter P l) = omap f l).
  { apply IH. intros y Hy. apply Hf. right. exact Hy. }
  destruct (decide (P x)) as [Hx|Hx]; csimpl.
  - rewrite IH'. reflexivity.
  - rewrite (Hf x) by (auto; left). exact IH'.
Qed.

End SortByDependencyFacts.

Section SortByDependency.
Import PyDict PyDictFacts Graph GraphFacts BuildFacts DictByFacts StateFacts
       SandboxAgent SortByDependencyFacts.

(** X13.  Given tables with distinct names and a non-empty dependency
    order, [_sort_by_dependency] returns first the tables the order names
    by an id [table:name], in the order of the first mention of each, and
    then the tables the order does not name, in their given order.  Ids of
    other kinds, ids without a colon and names of no table are passed
    over, and the result holds every given table once. *)
Theorem sort_by_dependency_spec (tables : list TransformedDDL.t)
    (dependency_order : list string) :
  NoDup (TransformedDDL.object_name <$> tables) ->
  dependency_order <> [] ->
  let listed := first_occ (omap table_of dependency_order) in
  _sort_by_dependency tables dependency_order
  = omap (fun n => latest TransformedDDL.object_name n tables) listed
    ++ filter (fun t => TransformedDDL.object_name t ∉ listed) tables
  /\ _sort_by_dependency tables dependency_order ≡ₚ tables
  /\ (forall n t, latest TransformedDDL.object_name n tables = Some t <->
                  t ∈ tables /\ TransformedDDL.object_name t = n).
Proof.
  intros Hnd Hne listed.
  set (name := TransformedDDL.object_name) in *.
  assert (Hlatest : forall n t, latest name n tables = Some t <->
                                t ∈ tables /\ name t = n).
  { intros n t. split.
    - intros H. apply latest_key in H. tauto.
    - intros [Hin <-]. apply latest_unique; assumption. }
  assert (Heq : _sort_by_dependency tables dependency_order
                = omap (fun n => latest name n tables) listed
                  ++ filter (fun t => name t ∉ listed) tables).
  { destruct dependency_order as [|obj_id order]; [congruence|].
    unfold _sort_by_dependency.
    destruct (dict_by_spec name tables empty wf_empty) as (Hwf0 & Hkeys0 & Hstore0).
    cbn [keys empty app] in Hkeys0.
    rewrite filter_notin_nil, (first_occ_NoDup _ Hnd) in Hkeys0.
    assert (Hstore : forall k, store (dict_by name tables empty) !! k
                               = latest name k tables).
    { intros k. rewrite Hstore0. cbn [store empty]. rewrite lookup_empty.
      destruct (latest name k tables); reflexivity. }
    destruct (take_tables_spec (obj_id :: order) (dict_by name tables empty) [] Hwf0)
      as (d' & Hrun & Hwf' & Hkeys' & Hstore').
    rewrite Hkeys0 in Hkeys', Hstore', Hrun.
    fold listed in Hkeys', Hstore', Hrun.
    fold name. rewrite Hrun.
    set (popped := filter (fun n => n ∈ name <$> tables) listed) in *.
    rewrite app_nil_l. f_equal.
    - transitivity (omap (fun n => latest name n tables) popped).
      + apply list_omap_ext, Forall2_same_length_lookup_2; [reflexivity|].
        intros i k k' Hk Hk'. rewrite Hk in Hk'. injection Hk' as <-. apply Hstore.
      + apply omap_filter_Some. intros n _ Hn. apply latest_None. exact Hn.
    - rewrite dict_values_omap, Hkeys'.
      transitivity (omap (fun n => latest name n tables)
                      (filter (fun n => n ∉ popped) (name <$> tables))).
      + apply list_omap_ext, Forall2_same_length_lookup_2; [reflexivity|].
        intros i k k' Hk Hk'. rewrite Hk in Hk'. injection Hk' as <-.
        rewrite <- Hstore. apply Hstore'.
        apply list_elem_of_lookup_2 in Hk. apply list_elem_of_filter in Hk. tauto.
      + rewrite (omap_latest_filter name (fun n => n ∉ popped) tables Hnd).
        apply filter_ext_elem. intros t Ht. unfold popped.
        rewrite list_elem_of_filter.
        assert (name t ∈ name <$> tables) by (apply list_elem_of_fmap; eauto).
        tauto. }
  split; [exact Heq|]. split; [|exact Hlatest].
  rewrite Heq.
  rewrite <- (filter_app_complement (fun t => name t ∈ listed) tables) at 2.
  apply Permutation_app; [|reflexivity].
  apply NoDup_Permutation.
  - apply (NoDup_fmap_1 name).
    assert (Hnames : forall l : list string,
              name <$> omap (fun n => latest name n tables) l
              = filter (fun n => n ∈ name <$> tables) l).
    { induction l as [|n l IH]; [reflexivity|]. csimpl. rewrite filter_cons.
      destruct (latest name n tables) as [t|] eqn:Hl.
      - apply Hlatest in Hl as [Hin Hn]. csimpl. rewrite IH, Hn.
        rewrite decide_True; [reflexivity|].
        apply list_elem_of_fmap. exists t. split; [symmetry; exact Hn|exact Hin].
      - apply latest_None in Hl. rewrite decide_False by exact Hl. exact IH. }
    rewrite Hnames. apply NoDup_filter, NoDup_first_occ.
  - apply NoDup_filter. apply (NoDup_fmap_1 name). exact Hnd.
  - intros t. rewrite list_elem_of_omap, list_elem_of_filter. split.
    + intros (n & Hn & Hl). apply Hlatest in Hl as [Hin <-]. tauto.
    + intros [Hn Hin]. exists (name t). split; [exact Hn|]. apply Hlatest. tauto.
Qed.

Lemma sort_by_dependency_spec_witness :
  let tables := [TransformedDDL.mk "film" "table" "" "" PENDING;
                 TransformedDDL.mk "actor" "table" "" "" PENDING] in
  let dependency_order := ["table:actor"; "view:actor_info"; "table:film"] in
  let listed := first_occ (omap table_of dependency_order) in
  _sort_by_dependency tables dependency_order
  = omap (fun n => latest TransformedDDL.object_name n tables) listed
    ++ filter (fun t => TransformedDDL.object_name t ∉ listed) tables
  /\ _sort_by_dependency tables dependency_order ≡ₚ tables
  /\ (forall n t, latest TransformedDDL.object_name n tables = Some t <->
                  t ∈ tables /\ TransformedDDL.object_name t = n).
Proof.
  apply (sort_by_dependency_spec
           [TransformedDDL.mk "film" "table" "" "" PENDING;
            TransformedDDL.mk "actor" "table" "" "" PENDING]
           ["table:actor"; "view:actor_info"; "table:film"]).
  - cbn [fmap list_fmap TransformedDDL.object_name]. apply NoDup_cons.
    split; [|apply NoDup_singleton]. rewrite list_elem_of_singleton. discriminate.
  - discriminate.
Defined.

End SortByDependency.

(** * Further properties: edges the topological sort does not see *)

Section DanglingEdges.
Import PyDict PyDictFacts Graph GraphFacts DependencyAgent BuildFacts SortFacts.

Lemma dict_eq {V} (d d' : PyDict.t V) :
  keys d = keys d' -> (forall k, store d !! k = store d' !! k) -> d = d'.
Proof.
  destruct d as [ks s], d' as [ks' s']. simpl. intros -> Hs. f_equal.
  apply map_eq. exact Hs.
Qed.

Lemma deps_of_valid (K : list string) (E : list DependencyEdge) (x : string) :
  deps_of K (filter (valid K) E) x = deps_of K E x.
Proof.
  unfold deps_of. rewrite list_filter_filter. f_equal.
  apply list_filter_iff. intros e. tauto.
Qed.

Lemma pending_valid (K : list string) (E : list DependencyEdge)
    (done : list string) (k : string) :
  pending K (filter (valid K) E) done k = pending K E done k.
Proof.
  unfold pending. rewrite list_filter_filter. f_equal.
  apply list_filter_iff. intros e. tauto.
Qed.

Lemma filter_valid_first_occ (ids : list string) (E : list DependencyEdge) :
  filter (valid (first_occ ids)) E = filter (valid ids) E.
Proof.
  apply list_filter_iff. intros e. unfold valid. rewrite !elem_of_first_occ.
  reflexivity.
Qed.

(** X14.  An edge with an end that is not the id of a node has no effect
    on the order: the sort returns what it returns without these edges. *)
Theorem topological_sort_ignores_dangling_edges (nodes : list DependencyNode)
    (edges : list DependencyEdge) :
  _topological_sort nodes edges
  = _topological_sort nodes (filter (valid (id <$> nodes)) edges).
Proof.
  unfold _topological_sort, sort_core.
  set (K := first_occ (id <$> nodes)).
  destruct (init_spec ([] : list string) nodes) as (Hwg & Hkg & _).
  destruct (init_spec 0 nodes) as (Hwi & Hki & _).
  fold (init_graph nodes) in Hwg, Hkg. fold (init_in_degree nodes) in Hwi, Hki.
  fold K in Hkg, Hki.
  destruct (build_spec K edges _ _ Hwg Hwi Hkg Hki)
    as (g1 & i1 & Hrun1 & _ & _ & Hg1 & Hi1 & Hsg1 & Hsi1).
  destruct (build_spec K (filter (valid K) edges) _ _ Hwg Hwi Hkg Hki)
    as (g2 & i2 & Hrun2 & _ & _ & Hg2 & Hi2 & Hsg2 & Hsi2).
  unfold K in Hrun2 at 1. rewrite filter_valid_first_occ in Hrun2.
  rewrite Hrun1, Hrun2.
  assert (Hg : g1 = g2).
  { apply dict_eq; [congruence|]. intros k. rewrite Hsg1, Hsg2.
    destruct (store (init_graph nodes) !! k); [|reflexivity]. simpl.
    rewrite deps_of_valid. reflexivity. }
  assert (Hi : i1 = i2).
  { apply dict_eq; [congruence|]. intros k. rewrite Hsi1, Hsi2.
    destruct (store (init_in_degree nodes) !! k); [|reflexivity]. simpl.
    rewrite pending_valid. reflexivity. }
  rewrite Hg, Hi. reflexivity.
Qed.

End DanglingEdges.

(** * Further properties: the migration order of a schema *)

Module RankedFacts.
Import PyDict PyDictFacts Graph GraphFacts DependencyAgent BuildFacts SortFacts.

(** A rank that every edge between nodes decreases bounds the walks. *)
Lemma chain_rank (K : list string) (E : list DependencyEdge) (rank : string -> nat)
    (n : nat) (x : string) :
  (forall e, e ∈ E -> valid K e -> (rank (to_id e) < rank (from_id e))%nat) ->
  chain K E n x -> (n <= rank x)%nat.
Proof.
  intros Hrank. induction 1 as [x|n e He Hv _ IH]; [lia|].
  specialize (Hrank e He Hv). lia.
Qed.

(** On a graph with such a rank the queue reaches every node, and every
    edge between nodes has its target before its source. *)
Lemma sort_ranked (nodes : list DependencyNode) (edges : list DependencyEdge)
    (rank : string -> nat) :
  let ids := id <$> nodes in
  (forall e, e ∈ edges -> valid ids e -> (rank (to_id e) < rank (from_id e))%nat) ->
  exists order,
    _topological_sort nodes edges = Ok order
    /\ NoDup order
    /\ (forall x, x ∈ order <-> x ∈ ids)
    /\ (forall e, e ∈ edges -> valid ids e -> precedes order (to_id e) (from_id e)).
Proof.
  intros ids Hrank.
  destruct (sort_core_spec nodes edges) as (i & done & Hcore & Hinv).
  fold ids in Hinv. set (K := first_occ ids) in *.
  pose proof (leftover_chain K edges i done Hinv) as Hleft.
  destruct Hinv as (_ & Hk & Hnd & Hsub & _ & _ & Hord).
  rewrite app_nil_r in Hnd, Hsub.
  assert (Hall : forall x, x ∈ K -> x ∈ done).
  { intros x HxK. destruct (decide (x ∈ done)) as [Hd|Hd]; [exact Hd|].
    pose proof (chain_first_occ ids edges _ _ (Hleft (S (rank x)) x HxK Hd)) as Hc.
    apply (chain_rank ids edges rank) in Hc; [lia|exact Hrank]. }
  assert (Hrem : filter (fun n => n ∉ done) K = []).
  { destruct (filter (fun n => n ∉ done) K) as [|x l] eqn:Hf; [reflexivity|].
    assert (Hx : x ∈ filter (fun n => n ∉ done) K) by (rewrite Hf; left).
    apply list_elem_of_filter in Hx as [Hn HxK]. exfalso. auto. }
  exists done. splits.
  - unfold _topological_sort. rewrite Hcore. simpl. unfold remaining_of.
    rewrite Hk, Hrem, app_nil_r. reflexivity.
  - exact Hnd.
  - intros x. split.
    + intros Hx. apply Hsub in Hx. unfold K in Hx.
      rewrite elem_of_first_occ in Hx. exact Hx.
    + intros Hx. apply Hall. unfold K. rewrite elem_of_first_occ. exact Hx.
  - intros e He Hv. apply Hord; [exact He|apply valid_first_occ; exact Hv|].
    apply Hall. unfold K. rewrite elem_of_first_occ. apply Hv.
Qed.

End RankedFacts.

Section MigrationOrder.
Import PyStr Graph GraphFacts DependencyAgent DependencyGraphBuilder RankedFacts.

Lemma elem_of_concat {A} (x : A) (ls : list (list A)) :
  x ∈ concat ls <-> exists l, x ∈ l /\ l ∈ ls.
Proof.
  induction ls as [|l ls IH]; simpl.
  - split; [intros H; inversion H|]. intros (l & _ & H). inversion H.
  - rewrite elem_of_app, IH. split.
    + intros [H|(l' & Hx & Hl)]; [exists l; split; [exact H|left]|].
      exists l'. split; [exact Hx|right; exact Hl].
    + intros (l' & Hx & Hl). apply elem_of_cons in Hl as [->|Hl]; [left; exact Hx|].
      right. eauto.
Qed.

Lemma table_id_in (schema : SchemaMetadata.t) (table : TableMetadata.t) :
  table ∈ SchemaMetadata.tables schema ->
  "table:" +:+ TableMetadata.name table ∈ id <$> nodes_of schema.
Proof.
  intros Hin. unfold nodes_of. rewrite fmap_app, elem_of_app. left.
  apply list_elem_of_fmap. exists (table_node table). split; [reflexivity|].
  apply list_elem_of_fmap. eauto.
Qed.

Lemma view_id_in (schema : SchemaMetadata.t) (view : ViewMetadata.t) :
  view ∈ SchemaMetadata.views schema ->
  "view:" +:+ ViewMetadata.name view ∈ id <$> nodes_of schema.
Proof.
  intros Hin. unfold nodes_of. rewrite !fmap_app, !elem_of_app. right. left.
  apply list_elem_of_fmap. exists (view_node view). split; [reflexivity|].
  apply list_elem_of_fmap. eauto.
Qed.

Lemma trigger_id_in (schema : SchemaMetadata.t) (trigger : TriggerMetadata.t) :
  trigger ∈ SchemaMetadata.triggers schema ->
  "trigger:" +:+ TriggerMetadata.name trigger ∈ id <$> nodes_of schema.
Proof.
  intros Hin. unfold nodes_of. rewrite !fmap_app, !elem_of_app. right. right. right.
  apply list_elem_of_fmap. exists (trigger_node trigger). split; [reflexivity|].
  apply list_elem_of_fmap. eauto.
Qed.

(** X15.  For a schema whose graph has a rank that every edge between
    nodes decreases (so that nothing depends on itself, directly or not),
    the migration order [run] computes lists every object once, each
    table after the tables of the schema its foreign keys refer to, each
    view after the tables whose lower-cased name occurs in its lower-cased
    definition, and each trigger after its table. *)
Theorem migration_order_respects_dependencies (schema : SchemaMetadata.t)
    (rank : string -> nat) :
  let ids := id <$> nodes_of schema in
  (forall e, e ∈ edges_of schema -> valid ids e ->
             (rank (to_id e) < rank (from_id e))%nat) ->
  exists order,
    migration_order schema = Ok order
    /\ NoDup order
    /\ (forall x, x ∈ order <-> x ∈ ids)
    /\ (forall table fk,
          table ∈ SchemaMetadata.tables schema ->
          fk ∈ TableMetadata.foreign_keys table ->
          "table:" +:+ str_of_option (ForeignKey.referred_table fk) ∈ ids ->
          precedes order ("table:" +:+ str_of_option (ForeignKey.referred_table fk))
                         ("table:" +:+ TableMetadata.name table))
    /\ (forall view table,
          view ∈ SchemaMetadata.views schema ->
          table ∈ SchemaMetadata.tables schema ->
          contains (lower (TableMetadata.name table))
                   (lower (ViewMetadata.definition view)) = true ->
          precedes order ("table:" +:+ TableMetadata.name table)
                         ("view:" +:+ ViewMetadata.name view))
    /\ (forall trigger,
          trigger ∈ SchemaMetadata.triggers schema ->
          "table:" +:+ TriggerMetadata.table_name trigger ∈ ids ->
          precedes order ("table:" +:+ TriggerMetadata.table_name trigger)
                         ("trigger:" +:+ TriggerMetadata.name trigger)).
Proof.
  intros ids Hrank.
  destruct (sort_ranked (nodes_of schema) (edges_of schema) rank Hrank)
    as (order & Hrun & Hnd & Helem & Hord).
  exists order. splits; try assumption.
  - intros table fk Ht Hfk Hto.
    apply (Hord (foreign_key_edge table fk)).
    + unfold edges_of. rewrite elem_of_app. left.
      apply elem_of_concat. exists (foreign_key_edge table <$> TableMetadata.foreign_keys table).
      split; [apply list_elem_of_fmap; eauto|].
      apply list_elem_of_fmap. exists table. split; [reflexivity|exact Ht].
    + split; [apply table_id_in; exact Ht|exact Hto].
  - intros view table Hv Ht Hc.
    apply (Hord (Build_DependencyEdge ("view:" +:+ ViewMetadata.name view)
                   ("table:" +:+ TableMetadata.name table) "reference")).
    + unfold edges_of. rewrite !elem_of_app. right. left.
      apply elem_of_concat. exists (view_edges (SchemaMetadata.tables schema) view).
      split; [|apply list_elem_of_fmap; eauto].
      unfold view_edges. apply list_elem_of_omap. exists table.
      split; [exact Ht|]. rewrite Hc. reflexivity.
    + split; [apply view_id_in; exact Hv|apply table_id_in; exact Ht].
  - intros trigger Hg Hto.
    apply (Hord (trigger_edge trigger)).
    + unfold edges_of. rewrite !elem_of_app. right. right.
      apply list_elem_of_fmap. eauto.
    + split; [apply trigger_id_in; exact Hg|exact Hto].
Qed.

Lemma migration_order_respects_dependencies_witness :
  let schema := film_actor_schema in
  let ids := id <$> nodes_of schema in
  exists order,
    migration_order schema = Ok order
    /\ NoDup order
    /\ (forall x, x ∈ order <-> x ∈ ids)
    /\ (forall table fk,
          table ∈ SchemaMetadata.tables schema ->
          fk ∈ TableMetadata.foreign_keys table ->
          "table:" +:+ str_of_option (ForeignKey.referred_table fk) ∈ ids ->
          precedes order ("table:" +:+ str_of_option (ForeignKey.referred_table fk))
                         ("table:" +:+ TableMetadata.name table))
    /\ (forall view table,
          view ∈ SchemaMetadata.views schema ->
          table ∈ SchemaMetadata.tables schema ->
          contains (lower (TableMetadata.name table))
                   (lower (ViewMetadata.definition view)) = true ->
          precedes order ("table:" +:+ TableMetadata.name table)
                         ("view:" +:+ ViewMetadata.name view))
    /\ (forall trigger,
          trigger ∈ SchemaMetadata.triggers schema ->
          "table:" +:+ TriggerMetadata.table_name trigger ∈ ids ->
          precedes order ("table:" +:+ TriggerMetadata.table_name trigger)
                         ("trigger:" +:+ TriggerMetadata.name trigger)).
Proof.
  apply (migration_order_respects_dependencies film_actor_schema film_actor_rank).
  intros e He _.
  assert (Hedges : edges_of film_actor_schema
                   = [Build_DependencyEdge "table:film_actor" "table:actor" "foreign_key";
                      Build_DependencyEdge "view:actor_info" "table:actor" "reference";
                      Build_DependencyEdge "trigger:upd_actor" "table:actor" "reference"])
    by (vm_compute; reflexivity).
  rewrite Hedges in He.
  repeat (apply elem_of_cons in He as [->|He]); [| | |inversion He];
    vm_compute; lia.
Defined.

(** The comparison is [str.lower] on both sides: a table whose name has a
    capital beyond A-Z is found in a view definition that writes it in
    small letters. *)
Example view_edges_fold_capitals :
  let capital_e_acute := String (ascii_of_nat 201) "" in
  let small_e_acute := String (ascii_of_nat 233) "" in
  lower ("CAF" +:+ capital_e_acute) = "caf" +:+ small_e_acute
  /\ view_edges [TableMetadata.mk ("CAF" +:+ capital_e_acute) [] [] [] [] None]
                (ViewMetadata.mk "menu" ("select * from caf" +:+ small_e_acute))
     = [Build_DependencyEdge "view:menu" ("table:CAF" +:+ capital_e_acute) "reference"].
Proof. split; vm_compute; reflexivity. Qed.

End MigrationOrder.

(** * Further properties: types with a size *)

Module SizedTypeFacts.
Import PyStr PyStrFacts PyStrMore SQLTransformer.

Lemma upper_app (s t : string) : upper (s +:+ t) = upper s +:+ upper t.
Proof.
  unfold upper. induction s as [|c s IH]; [reflexivity|].
  rewrite append_cons. cbn [map_chars]. rewrite IH. reflexivity.
Qed.

Lemma length_upper (s : string) : String.length (upper s) = String.length s.
Proof.
  unfold upper. induction s as [|c s IH]; [reflexivity|]. cbn [map_chars String.length].
  rewrite IH. reflexivity.
Qed.

(** A character of a type name: no whitespace, no parenthesis. *)
Definition name_char (c : ascii) : bool := negb (is_space c) && negb (Ascii.eqb c "(").

Lemma rstrip_cons_keep (c : ascii) (s : string) :
  is_space c = false -> rstrip (String c s) = String c (rstrip s).
Proof. intros Hc. cbn [rstrip]. rewrite Hc. destruct (rstrip s); reflexivity. Qed.

Lemma rstrip_name_prefix (p s : string) :
  all_chars name_char p = true -> rstrip (p +:+ s) = p +:+ rstrip s.
Proof.
  induction p as [|c p IH]; [reflexivity|]. cbn [all_chars]. intros H.
  apply andb_true_iff in H as [Hc Hp]. apply andb_true_iff in Hc as [Hc _].
  apply negb_true_iff in Hc. rewrite !append_cons, rstrip_cons_keep by exact Hc.
  rewrite (IH Hp). reflexivity.
Qed.

Lemma strip_name_prefix (p s : string) :
  all_chars name_char p = true -> p <> "" -> strip (p +:+ s) = p +:+ rstrip s.
Proof.
  intros Hp Hne. unfold strip. rewrite lstrip_first_nonspace.
  - apply rstrip_name_prefix. exact Hp.
  - destruct p as [|c p]; [congruence|]. rewrite append_cons. intros a [= <-].
    cbn [all_chars] in Hp. apply andb_true_iff in Hp as [Hc _].
    apply andb_true_iff in Hc as [Hc _]. apply negb_true_iff in Hc. exact Hc.
Qed.

Lemma strip_name (p : string) : all_chars name_char p = true -> strip p = p.
Proof.
  intros Hp. destruct p as [|c p]; [reflexivity|].
  rewrite <- (append_nil_r (String c p)) at 1.
  rewrite strip_name_prefix by (assumption || discriminate).
  apply append_nil_r.
Qed.

Lemma before_char_name_prefix (p s : string) :
  all_chars name_char p = true -> before_char "(" (p +:+ String "(" s) = p.
Proof.
  induction p as [|c p IH]; [reflexivity|]. cbn [all_chars]. intros H.
  apply andb_true_iff in H as [Hc Hp]. apply andb_true_iff in Hc as [_ Hc].
  apply negb_true_iff in Hc. rewrite append_cons. cbn [before_char].
  rewrite Hc, (IH Hp). reflexivity.
Qed.

(** A type made of a name of the table that keeps its size, an opening
    parenthesis and more. *)
Lemma map_type_sized (base pg b rest : string) :
  upper b = base ->
  all_chars name_char base = true -> base <> "" ->
  (forall r, TYPE_MAPPINGS !! (base +:+ String "(" r) = None) ->
  TYPE_MAPPINGS !! base = Some pg ->
  keeps_size base = true ->
  map_type (b +:+ String "(" rest) = pg +:+ String "(" rest.
Proof.
  intros Hb Hname Hne Hnone Hsome Hkeep. unfold map_type.
  rewrite upper_app, Hb.
  change (upper (String "(" rest)) with (String "(" (upper rest)).
  rewrite strip_name_prefix by assumption.
  rewrite (rstrip_cons_keep "(" (upper rest)) by reflexivity.
  rewrite Hnone, before_char_name_prefix by assumption.
  rewrite strip_name by assumption. rewrite Hsome, Hkeep.
  rewrite <- Hb, length_upper, drop_app. reflexivity.
Qed.

Lemma map_type_unsized (base pg b rest : string) :
  upper b = base ->
  all_chars name_char base = true -> base <> "" ->
  (forall r, TYPE_MAPPINGS !! (base +:+ String "(" r) = None) ->
  TYPE_MAPPINGS !! base = Some pg ->
  keeps_size base = false ->
  map_type (b +:+ String "(" rest) = pg.
Proof.
  intros Hb Hname Hne Hnone Hsome Hkeep. unfold map_type.
  rewrite upper_app, Hb.
  change (upper (String "(" rest)) with (String "(" (upper rest)).
  rewrite strip_name_prefix by assumption.
  rewrite (rstrip_cons_keep "(" (upper rest)) by reflexivity.
  rewrite Hnone, before_char_name_prefix by assumption.
  rewrite strip_name by assumption. rewrite Hsome, Hkeep. reflexivity.
Qed.

Lemma map_type_unknown (base b rest : string) :
  upper b = base ->
  all_chars name_char base = true -> base <> "" ->
  (forall r, TYPE_MAPPINGS !! (base +:+ String "(" r) = None) ->
  TYPE_MAPPINGS !! base = None ->
  (forall r, startswith "ENUM" (base +:+ r) = false) ->
  (forall r, startswith "SET" (base +:+ r) = false) ->
  map_type (b +:+ String "(" rest) = b +:+ String "(" rest.
Proof.
  intros Hb Hname Hne Hnone Hbase Henum Hset. unfold map_type.
  rewrite upper_app, Hb.
  change (upper (String "(" rest)) with (String "(" (upper rest)).
  rewrite strip_name_prefix by assumption.
  rewrite (rstrip_cons_keep "(" (upper rest)) by reflexivity.
  rewrite Hnone, before_char_name_prefix by assumption.
  rewrite strip_name by assumption. rewrite Hbase, Henum, Hset. reflexivity.
Qed.

(** No key of the table is the given text followed by more. *)
Ltac no_key :=
  intros; unfold TYPE_MAPPINGS; apply not_elem_of_list_to_map_1;
  rewrite ?append_cons, ?append_nil_l; simpl;
  let Hin := fresh "Hin" in
  intros Hin;
  repeat (apply elem_of_cons in Hin as [Hin|Hin]; [discriminate|]);
  inversion Hin.

Lemma no_key_decimal (r : string) : TYPE_MAPPINGS !! ("DECIMAL" +:+ String "(" r) = None.
Proof. no_key. Qed.

Lemma no_key_int (r : string) : TYPE_MAPPINGS !! ("INT" +:+ String "(" r) = None.
Proof. no_key. Qed.

Lemma no_key_varchar (r : string) : TYPE_MAPPINGS !! ("VARCHAR" +:+ String "(" r) = None.
Proof. no_key. Qed.

Lemma no_key_char (r : string) : TYPE_MAPPINGS !! ("CHAR" +:+ String "(" r) = None.
Proof. no_key. Qed.

Lemma no_key_numeric (r : string) : TYPE_MAPPINGS !! ("NUMERIC" +:+ String "(" r) = None.
Proof. no_key. Qed.

End SizedTypeFacts.

Section SizedTypes.
Import PyStr PyStrFacts SQLTransformer SizedTypeFacts.

(** X16.  Types written with a parenthesis.  Of the four names [map_type]
    lists as keeping their size only DECIMAL is a key of the table: a
    DECIMAL in any letter case becomes NUMERIC followed by the text from
    the parenthesis on, as given.  VARCHAR, CHAR and NUMERIC with a size
    are no keys, so they are returned exactly as given, letter case
    included.  An INT with a display width becomes INTEGER whatever
    follows the parenthesis, also when that is an UNSIGNED that maps the
    plain INT UNSIGNED to BIGINT. *)
Theorem map_type_sized_types :
  (forall b rest, upper b = "DECIMAL" ->
      map_type (b +:+ String "(" rest) = "NUMERIC" +:+ String "(" rest)
  /\ (forall b rest, upper b ∈ ["VARCHAR"; "CHAR"; "NUMERIC"] ->
      map_type (b +:+ String "(" rest) = b +:+ String "(" rest)
  /\ (forall b rest, upper b = "INT" -> map_type (b +:+ String "(" rest) = "INTEGER")
  /\ map_type "INT UNSIGNED" = "BIGINT"
  /\ map_type "int(10) unsigned" = "INTEGER".
Proof.
  splits.
  - intros b rest Hb.
    apply (map_type_sized "DECIMAL" "NUMERIC" b rest Hb);
      [reflexivity|discriminate|apply no_key_decimal|vm_compute; reflexivity|reflexivity].
  - intros b rest Hb.
    repeat (apply elem_of_cons in Hb as [Hb|Hb]); [| | |inversion Hb].
    + apply (map_type_unknown "VARCHAR" b rest Hb);
        [reflexivity|discriminate|apply no_key_varchar|vm_compute; reflexivity
        |reflexivity|reflexivity].
    + apply (map_type_unknown "CHAR" b rest Hb);
        [reflexivity|discriminate|apply no_key_char|vm_compute; reflexivity
        |reflexivity|reflexivity].
    + apply (map_type_unknown "NUMERIC" b rest Hb);
        [reflexivity|discriminate|apply no_key_numeric|vm_compute; reflexivity
        |reflexivity|reflexivity].
  - intros b rest Hb.
    apply (map_type_unsized "INT" "INTEGER" b rest Hb);
      [reflexivity|discriminate|apply no_key_int|vm_compute; reflexivity|reflexivity].
  - vm_compute. reflexivity.
  - vm_compute. reflexivity.
Qed.

End SizedTypes.

(** * Further properties: triggers grouped by table *)

Section TriggersByTable.
Import PyDict PyDictFacts Graph GraphFacts BuildFacts BlueprintMaps.

Lemma add_triggers_spec (triggers : list TriggerMetadata.t) :
  forall d : PyDict.t (list TriggerEntry.t),
  wf d ->
  exists d',
    foldM add_trigger triggers d = Ok d'
    /\ wf d'
    /\ keys d' = keys d ++ filter (fun t => t ∉ keys d)
                             (first_occ (TriggerMetadata.table_name <$> triggers))
    /\ forall t, store d' !! t
                 = match store d !! t with
                   | Some entries => Some (entries ++ entries_on t triggers)
                   | None =>
                       if decide (t ∈ TriggerMetadata.table_name <$> triggers)
                       then Some (entries_on t triggers) else None
                   end.
Proof.
  induction triggers as [|g triggers IH]; intros d Hwf.
  - exists d. simpl. rewrite app_nil_r. splits; try reflexivity; try assumption.
    intros t. unfold entries_on. simpl. destruct (store d !! t); [|reflexivity].
    rewrite app_nil_r. reflexivity.
  - cbn [foldM]. unfold add_trigger at 1.
    set (tn := TriggerMetadata.table_name g).
    set (d1 := if negb (mem tn d) then set tn [] d else d).
    assert (Hwf1 : wf d1) by (unfold d1; destruct (mem tn d); [assumption|apply wf_set; assumption]).
    assert (Hs1 : forall t, store d1 !! t
                            = if decide (t = tn)
                              then Some (default [] (store d !! tn))
                              else store d !! t).
    { intros t. unfold d1, mem. destruct (store d !! tn) as [l|] eqn:Hl.
      - rewrite bool_decide_eq_true_2 by eauto. cbn [negb].
        case_decide; [subst t; exact Hl|reflexivity].
      - rewrite bool_decide_eq_false_2 by (intros [x Hx]; discriminate). cbn [negb].
        rewrite store_set. case_decide.
        + subst t. apply lookup_insert_eq.
        + apply lookup_insert_ne. congruence. }
    assert (Hk1 : keys d1 = if decide (tn ∈ keys d) then keys d else keys d ++ [tn]).
    { unfold d1. destruct (decide (tn ∈ keys d)) as [Hin|Hin].
      - rewrite (proj2 (mem_true tn d Hwf) Hin). reflexivity.
      - rewrite (proj2 (mem_false tn d Hwf) Hin). cbn [negb].
        apply keys_set_notin; assumption. }
    assert (Hget : getitem tn d1 = Ok (default [] (store d !! tn))).
    { apply getitem_Some. rewrite Hs1. rewrite decide_True by reflexivity. reflexivity. }
    rewrite Hget. cbn [res_bind].
    set (d2 := set tn (default [] (store d !! tn) ++ [entry_of g]) d1).
    assert (Hin1 : tn ∈ keys d1).
    { apply Hwf1. rewrite Hs1, decide_True by reflexivity. eauto. }
    destruct (IH d2 (wf_set _ _ _ Hwf1)) as (d' & Hrun & Hwf' & Hkeys & Hstore).
    exists d'. split; [exact Hrun|]. split; [exact Hwf'|]. split.
    + rewrite Hkeys. unfold d2. rewrite keys_set_in by assumption. rewrite Hk1.
      rewrite fmap_cons. cbn [first_occ]. fold tn. rewrite filter_cons.
      destruct (decide (tn ∈ keys d)) as [Hin|Hin].
      * rewrite decide_False by (intros Hn; exact (Hn Hin)).
        rewrite filter_filter.
        f_equal. apply filter_ext_in. intros x _. split; [|tauto].
        intros Hx. split; [exact Hx|]. intros ->. contradiction.
      * rewrite decide_True by exact Hin. rewrite <- app_assoc. cbn [app].
        do 2 f_equal. rewrite filter_filter. apply filter_ext_in. intros x _.
        rewrite not_elem_of_app, list_elem_of_singleton. tauto.
    + intros t. rewrite Hstore. unfold d2. rewrite store_set.
      unfold entries_on. rewrite fmap_cons, filter_cons. fold tn.
      destruct (decide (t = tn)) as [->|Hne].
      * rewrite lookup_insert_eq. rewrite decide_True by reflexivity.
        rewrite fmap_cons, <- app_assoc. cbn [app].
        destruct (store d !! tn) as [l|]; cbn [default].
        -- reflexivity.
        -- rewrite decide_True by left. reflexivity.
      * rewrite lookup_insert_ne by congruence. rewrite Hs1.
        rewrite decide_False by exact Hne.
        rewrite (decide_False (P := tn = t)) by congruence.
        destruct (store d !! t); [reflexivity|].
        destruct (decide (t ∈ TriggerMetadata.table_name <$> triggers)) as [Hin|Hin].
        -- rewrite (decide_True (P := t ∈ tn :: _)) by (right; exact Hin).
           reflexivity.
        -- rewrite (decide_False (P := t ∈ tn :: _)); [reflexivity|].
           rewrite not_elem_of_cons. split; assumption.
Qed.

Lemma filter_disjoint_app {A} (P Q : A -> Prop) `{!forall x, Decision (P x)}
    `{!forall x, Decision (Q x)} (l : list A) :
  (forall x, P x -> Q x -> False) ->
  filter P l ++ filter Q l ≡ₚ filter (fun x => P x \/ Q x) l.
Proof.
  intros Hdis. induction l as [|x l IH]; [reflexivity|]. rewrite !filter_cons.
  destruct (decide (P x)) as [HP|HP], (decide (Q x)) as [HQ|HQ].
  - exfalso. eauto.
  - rewrite decide_True by tauto. cbn [app]. rewrite IH. reflexivity.
  - rewrite decide_True by tauto. rewrite <- Permutation_middle, IH. reflexivity.
  - rewrite decide_False by tauto. exact IH.
Qed.

Lemma filter_all {A} (P : A -> Prop) `{!forall x, Decision (P x)} (l : list A) :
  (forall x, x ∈ l -> P x) -> filter P l = l.
Proof.
  induction l as [|x l IH]; intros Hall; [reflexivity|]. rewrite filter_cons.
  rewrite decide_True by (apply Hall; left). f_equal. apply IH.
  intros y Hy. apply Hall. right. exact Hy.
Qed.

Lemma group_by_key {A} (key : A -> string) (l : list A) (ks : list string) :
  NoDup ks ->
  concat ((fun k => filter (fun x => key x = k) l) <$> ks)
  ≡ₚ filter (fun x => key x ∈ ks) l.
Proof.
  induction 1 as [|k ks Hk Hnd IH].
  - simpl. induction l as [|x l IHl]; [reflexivity|]. rewrite filter_cons.
    rewrite decide_False by (intros Hin; inversion Hin). exact IHl.
  - rewrite fmap_cons. cbn [concat]. rewrite IH.
    rewrite (filter_disjoint_app (fun x => key x = k) (fun x => key x ∈ ks)).
    + erewrite list_filter_iff; [reflexivity|]. intros x. cbn beta.
      rewrite elem_of_cons. reflexivity.
    + intros x Hx Hin. rewrite Hx in Hin. contradiction.
Qed.

(** X17.  [_map_triggers_to_tables] returns a dictionary whose keys are
    the tables that have a trigger, in the order of their first trigger,
    and whose value for a table is the list of its triggers' entries in
    the order of the triggers; a table without trigger is no key, and no
    [KeyError] is raised. *)
Theorem map_triggers_to_tables_spec (triggers : list TriggerMetadata.t) :
  exists d,
    _map_triggers_to_tables triggers = Ok d
    /\ wf d
    /\ keys d = first_occ (TriggerMetadata.table_name <$> triggers)
    /\ (forall t, t ∈ TriggerMetadata.table_name <$> triggers ->
                  store d !! t = Some (entries_on t triggers))
    /\ (forall t, t ∉ TriggerMetadata.table_name <$> triggers -> store d !! t = None)
    /\ concat ((fun t => default [] (store d !! t)) <$> keys d)
       ≡ₚ entry_of <$> triggers.
Proof.
  destruct (add_triggers_spec triggers empty wf_empty)
    as (d & Hrun & Hwf & Hkeys & Hstore).
  cbn [keys empty app] in Hkeys. rewrite filter_notin_nil in Hkeys.
  assert (Hs : forall t, store d !! t
                 = if decide (t ∈ TriggerMetadata.table_name <$> triggers)
                   then Some (entries_on t triggers) else None).
  { intros t. rewrite Hstore. cbn [store empty]. rewrite lookup_empty. reflexivity. }
  exists d. splits; try assumption.
  - intros t Ht. rewrite Hs, decide_True by exact Ht. reflexivity.
  - intros t Ht. rewrite Hs, decide_False by exact Ht. reflexivity.
  - rewrite Hkeys.
    set (K := first_occ (TriggerMetadata.table_name <$> triggers)).
    assert (E1 : (fun t => default [] (store d !! t)) <$> K
                 = (fun t => entries_on t triggers) <$> K).
    { apply list_fmap_ext. intros i t Ht.
      apply list_elem_of_lookup_2 in Ht. unfold K in Ht.
      rewrite elem_of_first_occ in Ht.
      rewrite Hs, decide_True by exact Ht. reflexivity. }
    assert (E2 : forall ks : list string,
              concat ((fun t => entries_on t triggers) <$> ks)
              = entry_of <$> concat ((fun t => filter
                   (fun g => TriggerMetadata.table_name g = t) triggers) <$> ks)).
    { induction ks as [|k ks IHk]; [reflexivity|].
      rewrite !fmap_cons. cbn [concat]. rewrite fmap_app, IHk. reflexivity. }
    rewrite E1, E2. apply fmap_Permutation.
    rewrite (group_by_key TriggerMetadata.table_name triggers K (NoDup_first_occ _)).
    rewrite (filter_all (fun g => TriggerMetadata.table_name g ∈ K) triggers);
      [reflexivity|].
    intros g Hg. unfold K. rewrite elem_of_first_occ. apply list_elem_of_fmap. eauto.
Qed.

End TriggersByTable.

(** * Further properties: one DDL in the sandbox *)

Section ExecuteAndRecord.
Import PyStr SandboxExec.

Variable execute_ddl : list execution -> string -> option string.
Variable sub_schema_prefix : string -> string.
Variable sub_engine_clause : string -> string.

Local Notation attempt_fix := (_attempt_fix sub_schema_prefix sub_engine_clause).
Local Notation execute_and_record :=
  (_execute_and_record execute_ddl sub_schema_prefix sub_engine_clause).

(** X18.  [_execute_and_record] appends exactly one result, for the
    object it was given, and executes one statement, or two when the
    first fails and [_attempt_fix] changes the DDL; [retry_count] is the
    number of second attempts.  Afterwards the status of the DDL is
    SUCCESS when the result says executed and FAILED otherwise; on success
    the stored [target_ddl] is the statement the sandbox accepted last and
    the result lists no error; on failure the [target_ddl] is unchanged.
    A failing DDL in which [_attempt_fix] finds nothing to repair is
    executed once only.  The statements executed are these: the
    [target_ddl] alone when the sandbox accepts it; the [target_ddl] alone,
    with its error, when it fails and [_attempt_fix] gives it back
    unchanged; the [target_ddl] with its error and then the repaired DDL
    with the sandbox's answer to it when [_attempt_fix] changes it, and
    then the result counts one retry, says executed exactly when the
    repaired DDL was accepted, and on failure lists the first error, if it
    is not empty, and the second. *)
Theorem execute_and_record_spec (ddl : TransformedDDL.t)
    (sandbox_results : list SandboxResult.t) (executed : list execution) :
  exists ddl' r new,
    execute_and_record ddl sandbox_results executed
    = (ddl', sandbox_results ++ [r], executed ++ new)
    /\ (length new = 1 \/ length new = 2)%nat
    /\ SandboxResult.retry_count r = Z.of_nat (length new) - 1
    /\ SandboxResult.object_name r = TransformedDDL.object_name ddl
    /\ SandboxResult.object_type r = TransformedDDL.object_type ddl
    /\ TransformedDDL.object_name ddl' = TransformedDDL.object_name ddl
    /\ TransformedDDL.object_type ddl' = TransformedDDL.object_type ddl
    /\ TransformedDDL.source_ddl ddl' = TransformedDDL.source_ddl ddl
    /\ TransformedDDL.status ddl'
       = (if SandboxResult.executed r then SUCCESS else FAILED)
    /\ (SandboxResult.executed r = true ->
        last new = Some (TransformedDDL.target_ddl ddl', None)
        /\ SandboxResult.errors r = [])
    /\ (SandboxResult.executed r = false ->
        TransformedDDL.target_ddl ddl' = TransformedDDL.target_ddl ddl
        /\ exists stmt error, last new = Some (stmt, Some error))
    /\ (forall error,
          execute_ddl executed (TransformedDDL.target_ddl ddl) = Some error ->
          attempt_fix (TransformedDDL.target_ddl ddl) error
          = TransformedDDL.target_ddl ddl ->
          length new = 1%nat /\ SandboxResult.executed r = false)
    /\ (execute_ddl executed (TransformedDDL.target_ddl ddl) = None ->
        new = [(TransformedDDL.target_ddl ddl, None)]
        /\ SandboxResult.executed r = true
        /\ SandboxResult.retry_count r = 0
        /\ TransformedDDL.target_ddl ddl' = TransformedDDL.target_ddl ddl)
    /\ (forall error,
          execute_ddl executed (TransformedDDL.target_ddl ddl) = Some error ->
          attempt_fix (TransformedDDL.target_ddl ddl) error
          = TransformedDDL.target_ddl ddl ->
          new = [(TransformedDDL.target_ddl ddl, Some error)]
          /\ SandboxResult.retry_count r = 0
          /\ SandboxResult.errors r = (if String.eqb error "" then [] else [error]))
    /\ (forall error,
          execute_ddl executed (TransformedDDL.target_ddl ddl) = Some error ->
          attempt_fix (TransformedDDL.target_ddl ddl) error
          <> TransformedDDL.target_ddl ddl ->
          let fixed_ddl := attempt_fix (TransformedDDL.target_ddl ddl) error in
          let first := (TransformedDDL.target_ddl ddl, Some error) in
          let retry_result := execute_ddl (executed ++ [first]) fixed_ddl in
          new = [first; (fixed_ddl, retry_result)]
          /\ SandboxResult.retry_count r = 1
          /\ SandboxResult.executed r
             = (match retry_result with Some _ => false | None => true end)
          /\ (retry_result = None -> TransformedDDL.target_ddl ddl' = fixed_ddl)
          /\ (forall retry_error,
                retry_result = Some retry_error ->
                SandboxResult.errors r
                = (if String.eqb error "" then [] else [error]) ++ [retry_error])).
Proof.
  unfold _execute_and_record, run_ddl.
  destruct (execute_ddl executed (TransformedDDL.target_ddl ddl)) as [error|] eqn:Hrun.
  - destruct (String.eqb (attempt_fix (TransformedDDL.target_ddl ddl) error)
                (TransformedDDL.target_ddl ddl)) eqn:Hfix; cbn [negb].
    + apply String.eqb_eq in Hfix.
      eexists _, _, [_]. splits; try reflexivity.
      * left. reflexivity.
      * discriminate.
      * intros _. split; [reflexivity|]. eauto.
      * intros e _ _. split; reflexivity.
      * discriminate.
      * intros e [= <-] _. splits; reflexivity.
      * intros e [= <-] He. contradiction.
    + apply String.eqb_neq in Hfix.
      destruct (execute_ddl _ (attempt_fix (TransformedDDL.target_ddl ddl) error))
        as [retry_error|] eqn:Hretry.
      * eexists _, _, [_; _]. rewrite <- app_assoc. splits; try reflexivity.
        -- right. reflexivity.
        -- discriminate.
        -- intros _. split; [reflexivity|]. eauto.
        -- intros e [= <-] He. contradiction.
        -- discriminate.
        -- intros e [= <-] He. contradiction.
        -- intros e [= <-] _. cbv zeta. rewrite Hretry.
           splits; try reflexivity; [discriminate|].
           intros re [= <-]. reflexivity.
      * eexists _, _, [_; _]. rewrite <- app_assoc. splits; try reflexivity.
        -- right. reflexivity.
        -- intros _. split; reflexivity.
        -- discriminate.
        -- intros e [= <-] He. contradiction.
        -- discriminate.
        -- intros e [= <-] He. contradiction.
        -- intros e [= <-] _. cbv zeta. rewrite Hretry.
           splits; try reflexivity. discriminate.
  - eexists _, _, [_]. splits; try reflexivity.
    + left. reflexivity.
    + intros _. split; reflexivity.
    + discriminate.
    + discriminate.
    + intros _. splits; reflexivity.
    + discriminate.
    + discriminate.
Qed.

(** The DDL [_attempt_fix] leaves alone. *)
Lemma attempt_fix_nothing_to_repair (ddl error : string) :
  contains "sakila." ddl = false ->
  contains backtick ddl = false ->
  contains "UNSIGNED" ddl = false ->
  contains "ENGINE" ddl = false ->
  contains "unsigned" (lower error) = false ->
  contains "engine" (lower error) = false ->
  attempt_fix ddl error = ddl.
Proof.
  intros H1 H2 H3 H4 H5 H6. unfold _attempt_fix.
  rewrite H1, H3, H5. cbn [orb]. rewrite H2, H4, H6. reflexivity.
Qed.

End ExecuteAndRecord.

(** ** C8: the order of a sandbox pass *)

Module SandboxRunFacts.
Import PyDict PyDictFacts PyStr Graph GraphFacts DictByFacts StateFacts SortedFacts
       SortByDependencyFacts SandboxExec SandboxAgent SandboxRun.

(** [_sort_by_dependency] invents no table. *)
Lemma sort_by_dependency_elem (tables : list TransformedDDL.t)
    (dependency_order : list string) (ddl : TransformedDDL.t) :
  ddl ∈ _sort_by_dependency tables dependency_order -> ddl ∈ tables.
Proof.
  unfold _sort_by_dependency. destruct dependency_order as [|obj_id order].
  - unfold _simple_dependency_sort. rewrite sorted_by_perm. intros H. exact H.
  - set (full := obj_id :: order). clearbody full.
    destruct (dict_by_spec TransformedDDL.object_name tables empty wf_empty)
      as (Hwf & _ & Hstore).
    assert (Hfrom : forall k, store (dict_by TransformedDDL.object_name tables empty) !! k
                              = Some ddl -> ddl ∈ tables).
    { intros k Hk. rewrite Hstore in Hk.
      destruct (latest TransformedDDL.object_name k tables) as [y|] eqn:Hl.
      - injection Hk as ->. apply latest_key in Hl. tauto.
      - cbn in Hk. rewrite lookup_empty in Hk. discriminate. }
    destruct (take_tables_spec full _ [] Hwf) as (d' & Hrun & _ & Hkeys & Hsame).
    rewrite Hrun. cbn [app]. rewrite elem_of_app, dict_values_omap.
    rewrite !list_elem_of_omap. intros [(k & _ & Hk)|(k & Hin & Hk)].
    + exact (Hfrom k Hk).
    + rewrite Hkeys in Hin. apply list_elem_of_filter in Hin as [Hout _].
      rewrite (Hsame k Hout) in Hk. exact (Hfrom k Hk).
Qed.

(** With a migration order, the tables it names come first, in the order
    in which it first names them; the other tables follow. *)
Lemma sort_by_dependency_listed_first (tables : list TransformedDDL.t)
    (dependency_order : list string) :
  dependency_order <> [] ->
  let listed := first_occ (omap table_of dependency_order) in
  exists rest,
    _sort_by_dependency tables dependency_order
    = omap (fun n => latest TransformedDDL.object_name n tables) listed ++ rest
    /\ Forall (fun ddl => ddl ∈ tables /\ TransformedDDL.object_name ddl ∉ listed) rest.
Proof.
  intros Hne listed. destruct dependency_order as [|obj_id order]; [congruence|].
  unfold _sort_by_dependency.
  set (full := obj_id :: order) in *. clearbody full.
  set (d0 := dict_by TransformedDDL.object_name tables empty).
  destruct (dict_by_spec TransformedDDL.object_name tables empty wf_empty)
    as (Hwf & _ & Hstore0).
  assert (Hstore : forall k, store d0 !! k = latest TransformedDDL.object_name k tables).
  { intros k. unfold d0. rewrite Hstore0. cbn [store empty]. rewrite lookup_empty.
    destruct (latest TransformedDDL.object_name k tables); reflexivity. }
  destruct (take_tables_spec full d0 [] Hwf) as (d' & Hrun & _ & Hkeys & Hsame).
  fold listed in Hrun, Hkeys, Hsame.
  rewrite Hrun. cbn [app]. exists (dict_values d'). split.
  - f_equal. rewrite omap_filter_Some.
    + apply list_omap_ext, Forall2_same_length_lookup_2; [reflexivity|].
      intros i k k' Hk Hk'. rewrite Hk in Hk'. injection Hk' as <-. apply Hstore.
    + intros n _ Hn. destruct (store d0 !! n) as [x|] eqn:Hx; [|reflexivity].
      exfalso. apply Hn. apply Hwf. eauto.
  - apply Forall_forall. intros ddl Hin.
    rewrite dict_values_omap, list_elem_of_omap in Hin.
    destruct Hin as (k & Hk & Hddl). rewrite Hkeys in Hk.
    apply list_elem_of_filter in Hk as [Hout Hkey].
    rewrite (Hsame k Hout), Hstore in Hddl. apply latest_key in Hddl as [Hname Hin].
    split; [exact Hin|]. rewrite Hname. intros Hlisted. apply Hout.
    apply list_elem_of_filter. split; assumption.
Qed.

Lemma elem_of_of_type (object_type : string) (transformed_ddl : list TransformedDDL.t)
    (ddl : TransformedDDL.t) :
  ddl ∈ of_type object_type transformed_ddl
  <-> ddl ∈ transformed_ddl /\ TransformedDDL.object_type ddl = object_type.
Proof.
  unfold of_type. rewrite list_elem_of_In, filter_In, <- list_elem_of_In.
  rewrite String.eqb_eq. reflexivity.
Qed.

Section Pass.

Variable execute_ddl : list execution -> string -> option string.
Variable sub_schema_prefix : string -> string.
Variable sub_engine_clause : string -> string.

Local Notation test_ddl := (test_ddl execute_ddl sub_schema_prefix sub_engine_clause).
Local Notation test_view := (test_view execute_ddl sub_schema_prefix sub_engine_clause).
Local Notation test_procedure := (test_procedure execute_ddl).
Local Notation runs_ddl := (runs_ddl sub_schema_prefix sub_engine_clause).

(** One test executes the statements [runs_ddl] allows, after those
    executed before. *)
Lemma execute_and_record_runs (ddl : TransformedDDL.t)
    (sandbox_results : list SandboxResult.t) (executed : list execution) :
  exists ddl' sandbox_results' statements,
    _execute_and_record execute_ddl sub_schema_prefix sub_engine_clause
      ddl sandbox_results executed
    = (ddl', sandbox_results', executed ++ statements)
    /\ runs_ddl ddl statements.
Proof.
  unfold _execute_and_record, run_ddl, SandboxRun.runs_ddl.
  destruct (execute_ddl executed (TransformedDDL.target_ddl ddl)) as [error|] eqn:Hrun.
  - destruct (String.eqb (_attempt_fix sub_schema_prefix sub_engine_clause
                            (TransformedDDL.target_ddl ddl) error)
                (TransformedDDL.target_ddl ddl)) eqn:Hfix; cbn [negb].
    + apply String.eqb_eq in Hfix.
      eexists _, _, [_]. split; [reflexivity|].
      right. exists error. left. split; [exact Hfix | reflexivity].
    + apply String.eqb_neq in Hfix.
      destruct (execute_ddl _ (_attempt_fix sub_schema_prefix sub_engine_clause
                                 (TransformedDDL.target_ddl ddl) error))
        as [retry_error|] eqn:Hretry.
      * eexists _, _, [_; _]. rewrite <- app_assoc. split; [reflexivity|].
        right. exists error. right. split; [exact Hfix|]. eauto.
      * eexists _, _, [_; _]. rewrite <- app_assoc. split; [reflexivity|].
        right. exists error. right. split; [exact Hfix|]. eauto.
  - eexists _, _, [_]. split; [reflexivity|]. left. reflexivity.
Qed.

(** A loop of tests executes the statements of its objects, one object
    after the other. *)
Lemma test_all_runs (ddls : list TransformedDDL.t) :
  forall (tested : list TransformedDDL.t) (sandbox_results : list SandboxResult.t)
         (executed : list execution),
  exists tested' sandbox_results' runs,
    fold_left test_ddl ddls (tested, sandbox_results, executed)
    = (tested', sandbox_results', executed ++ concat runs)
    /\ Forall2 runs_ddl ddls runs.
Proof.
  induction ddls as [|ddl ddls IH]; intros tested sandbox_results executed.
  - exists tested, sandbox_results, []. cbn. rewrite app_nil_r.
    split; [reflexivity | constructor].
  - cbn [fold_left]. unfold SandboxRun.test_ddl at 2.
    destruct (execute_and_record_runs ddl sandbox_results executed)
      as (ddl' & results' & statements & Hrun & Hstatements).
    rewrite Hrun.
    destruct (IH (tested ++ [ddl']) results' (executed ++ statements))
      as (tested' & results'' & runs & Hfold & Hruns).
    exists tested', results'', (statements :: runs). split.
    + rewrite Hfold. cbn [concat]. rewrite app_assoc. reflexivity.
    + constructor; assumption.
Qed.

Lemma test_views_runs (views : list TransformedDDL.t) :
  forall (tested : list TransformedDDL.t) (sandbox_results : list SandboxResult.t)
         (executed : list execution),
  exists tested' sandbox_results' runs,
    fold_left test_view views (tested, sandbox_results, executed)
    = (tested', sandbox_results', executed ++ concat runs)
    /\ Forall2 (fun view => runs_ddl (fixed_view sub_schema_prefix view)) views runs.
Proof.
  intros tested sandbox_results executed.
  assert (Hmap : forall p,
            fold_left test_view views p
            = fold_left test_ddl (fixed_view sub_schema_prefix <$> views) p).
  { induction views as [|view views' IH]; intros p; [reflexivity|].
    cbn [fold_left fmap list_fmap]. apply IH. }
  rewrite Hmap.
  destruct (test_all_runs (fixed_view sub_schema_prefix <$> views)
              tested sandbox_results executed)
    as (tested' & results' & runs & Hfold & Hruns).
  exists tested', results', runs. split; [exact Hfold|].
  rewrite Forall2_fmap_l in Hruns. exact Hruns.
Qed.

Lemma test_procedures_runs (procedures : list ConvertedProcedure.t) :
  forall (tested : list ConvertedProcedure.t) (sandbox_results : list SandboxResult.t)
         (executed : list execution),
  exists tested' sandbox_results' runs,
    fold_left test_procedure procedures (tested, sandbox_results, executed)
    = (tested', sandbox_results', executed ++ concat runs)
    /\ Forall2 runs_procedure procedures runs.
Proof.
  induction procedures as [|proc procedures IH]; intros tested sandbox_results executed.
  - exists tested, sandbox_results, []. cbn. rewrite app_nil_r.
    split; [reflexivity | constructor].
  - cbn [fold_left]. unfold SandboxRun.test_procedure at 2, run_ddl.
    match goal with
    | |- context [fold_left _ procedures (?t, ?r, ?e)] =>
        destruct (IH t r e) as (tested' & results' & runs & Hfold & Hruns)
    end.
    exists tested', results',
      ([(ConvertedProcedure.target_code proc,
         execute_ddl executed (ConvertedProcedure.target_code proc))] :: runs).
    split.
    + rewrite Hfold. cbn [concat]. rewrite app_assoc. reflexivity.
    + constructor; [|assumption]. eexists. reflexivity.
Qed.

End Pass.
End SandboxRunFacts.

Section PhaseOrder.
Import PyStr Graph SandboxExec SandboxAgent SandboxRun SandboxRunFacts.

Variable execute_ddl : list execution -> string -> option string.
Variable sub_schema_prefix : string -> string.
Variable sub_engine_clause : string -> string.
Variable save_sandbox_results : list SandboxResult.t -> bool.

Local Notation run :=
  (run execute_ddl sub_schema_prefix sub_engine_clause save_sandbox_results).
Local Notation runs_ddl := (runs_ddl sub_schema_prefix sub_engine_clause).


End PhaseOrder.

(** A pass over a state that lists a view, a constraint, an index and two
    tables in this order: the tables come first, [country] before [city]
    as the fallback order has it. *)
Example run_unordered_state :
  SandboxRun.executed
    (SandboxRun.run SandboxRun.accepting_sandbox (fun ddl => ddl) (fun ddl => ddl)
       (fun _ => true) SandboxRun.unordered_state)
  = [ ("CREATE TABLE country", None);
      ("CREATE TABLE city", None);
      ("CREATE INDEX idx_city", None);
      ("ALTER TABLE city", None);
      ("CREATE VIEW actor_info", None);
      ("CREATE FUNCTION film_in_stock", None) ].
Proof. vm_compute. reflexivity. Qed.


(** ** C10: clearing the destination table *)

Module DestinationFacts.
Import PyStr DataMigrationAgentRun.

Lemma after_app (db : destination) (calls more : list target_call) :
  after db (calls ++ more) = after (after db calls) more.
Proof. unfold after. apply fold_left_app. Qed.

Lemma rows_of_insert (db : destination) (table_name : string) (rows : list row) :
  rows_of (<[table_name := rows]> db) table_name = rows.
Proof. unfold rows_of. rewrite lookup_insert_eq. reflexivity. Qed.

Lemma rows_of_insert_ne (db : destination) (table_name other : string)
    (rows : list row) :
  other <> table_name -> rows_of (<[table_name := rows]> db) other = rows_of db other.
Proof. intros Hne. unfold rows_of. rewrite lookup_insert_ne by congruence. reflexivity. Qed.

(** Calls on one table leave the rows of the others as they are. *)
Lemma after_other (table_name other : string) (calls : list target_call) :
  other <> table_name ->
  Forall (fun call => table_of_statement (statement call) = table_name) calls ->
  forall db, rows_of (after db calls) other = rows_of db other.
Proof.
  intros Hne Hcalls. induction Hcalls as [|call calls Hcall _ IH]; intros db.
  - reflexivity.
  - cbn [after fold_left]. fold (after (apply_call db call) calls). rewrite IH.
    unfold apply_call. destruct (answer call); [reflexivity|].
    destruct (statement call) as [t|t columns]; cbn in Hcall; subst t;
      apply rows_of_insert_ne; exact Hne.
Qed.

(** Inserts into a table add the rows the target accepted. *)
Lemma after_inserts (table_name : string) (inserts : list target_call) :
  Forall (fun call => exists columns, statement call = InsertInto table_name columns)
         inserts ->
  forall db,
    rows_of (after db inserts) table_name = rows_of db table_name ++ accepted inserts.
Proof.
  induction 1 as [|call calls [columns Hcall] _ IH]; intros db.
  - cbn. rewrite app_nil_r. reflexivity.
  - cbn [after fold_left]. fold (after (apply_call db call) calls). rewrite IH.
    unfold apply_call. cbn [accepted flat_map]. fold (accepted calls).
    destruct (answer call); [reflexivity|].
    rewrite Hcall, rows_of_insert, <- app_assoc. reflexivity.
Qed.

End DestinationFacts.

Module MigrateTableFacts.
Import PyStr DataMigrationAgentRun DestinationFacts.

Section Agent.

Variable column_names : string -> db_result (list string).
Variable select_page : string -> Z -> Z -> db_result (list source_row).
Variable convert_rows : string -> list string -> list source_row -> db_result (list row).
Variable target_error : list target_call -> string -> list row -> option string.

Local Notation stream_batches := (stream_batches select_page convert_rows target_error).
Local Notation _insert_batch := (_insert_batch convert_rows target_error).

(** A batch sends at most one statement, an INSERT into its table; when
    [_insert_batch] returns, the target accepted what was sent. *)
Lemma insert_batch_calls (table_name : string) (columns : list string)
    (rows : list source_row) (calls : list target_call) :
  exists inserts,
    snd (_insert_batch table_name columns rows calls) = calls ++ inserts
    /\ (length inserts <= 1)%nat
    /\ Forall (fun call => statement call = InsertInto table_name columns) inserts
    /\ (forall u, fst (_insert_batch table_name columns rows calls) = DbOk u ->
        Forall (fun call => answer call = None) inserts)
    /\ (forall e, fst (_insert_batch table_name columns rows calls) = DbError e ->
        accepted inserts = []).
Proof.
  unfold DataMigrationAgentRun._insert_batch, execute.
  destruct rows as [|r rows].
  { exists []. cbn. rewrite app_nil_r. splits; try constructor; try lia; try reflexivity. }
  destruct (convert_rows table_name columns (r :: rows)) as [transformed|e].
  2:{ exists []. cbn. rewrite app_nil_r.
      splits; try constructor; try lia; try reflexivity. }
  destruct (target_error calls (sql_text (InsertInto table_name columns)) transformed)
    as [e|] eqn:Hanswer.
  - exists [mk_target_call (InsertInto table_name columns) transformed (Some e)].
    cbn [fst snd]. splits; try reflexivity.
    + constructor; [reflexivity | constructor].
    + discriminate.
  - exists [mk_target_call (InsertInto table_name columns) transformed None].
    cbn [fst snd]. splits; try reflexivity.
    + constructor; [reflexivity | constructor].
    + intros _ _. constructor; [reflexivity | constructor].
    + discriminate.
Qed.

(** The loop sends INSERT statements for its table only, and stops at
    the first the target refuses. *)
Lemma stream_batches_calls (fuel : nat) (table_name : string) (columns : list string) :
  forall (offset total_rows : Z) (calls calls' : list target_call)
         (r : db_result Z),
    stream_batches fuel table_name columns offset total_rows calls = Returns (r, calls') ->
    exists inserts,
      calls' = calls ++ inserts
      /\ Forall (fun call => statement call = InsertInto table_name columns) inserts
      /\ (forall n, r = DbOk n -> Forall (fun call => answer call = None) inserts).
Proof.
  induction fuel as [|fuel IH]; intros offset total_rows calls calls' r;
    cbn [DataMigrationAgentRun.stream_batches]; [discriminate|].
  destruct (select_page (select_sql table_name columns) batch_size offset)
    as [[|row rows]|e].
  - intros [= <- <-]. exists []. rewrite app_nil_r.
    splits; try constructor; reflexivity.
  - destruct (insert_batch_calls table_name columns (row :: rows) calls)
      as (inserts & Hcalls & _ & Hinserts & Hok & _).
    destruct (_insert_batch table_name columns (row :: rows) calls)
      as [[u|e] calls1] eqn:Hbatch; cbn [fst snd] in Hcalls, Hok; subst calls1.
    + intros Hrun. apply IH in Hrun as (more & -> & Hmore & Hall).
      exists (inserts ++ more). rewrite app_assoc. split; [reflexivity|].
      split; [apply Forall_app; split; assumption|].
      intros n Hn. apply Forall_app. split; [exact (Hok u eq_refl) | exact (Hall n Hn)].
    + intros [= <- <-]. exists inserts. split; [reflexivity|].
      split; [exact Hinserts | discriminate].
  - intros [= <- <-]. exists []. rewrite app_nil_r.
    splits; try constructor; discriminate.
Qed.

End Agent.
End MigrateTableFacts.

Section ClearingTheDestination.
Import PyStr DataMigrationAgentRun DestinationFacts MigrateTableFacts.


Variable column_names : string -> db_result (list string).
Variable select_page : string -> Z -> Z -> db_result (list source_row).
Variable convert_rows : string -> list string -> list source_row -> db_result (list row).
Variable target_error : list target_call -> string -> list row -> option string.

Local Notation _migrate_table :=
  (_migrate_table column_names select_page convert_rows target_error).


End ClearingTheDestination.

